(** * Calendar, rollover and Delta-T routines of [StelUtils.cpp]

    A shallow embedding of the date and time part of
    [src/core/StelUtils.cpp] (namespace [StelUtils]) and of its two
    power-of-two helpers, together with the properties its specification
    states about it and further properties of the code.

    Conventions of the embedding.
    - C++ [int] is 32 bits wide and [long] 64 bits (LP64).  Their values
      are integers of [Z]; [a / b] and [a % b] are the truncating [Z.quot]
      and [Z.rem].  Storing a [long] in an [int] wraps modulo [2^32]
      ([C.to_int32]), the [unsigned long long] computation of
      [getDateFromJulianDay] wraps modulo [2^64]; both are written out.
      Signed overflow is undefined behaviour in C++: the arithmetic on
      [Z] describes the runs that are free of it, and for
      [changeDateTimeForRollover], whose carries can leave the range of
      [int], a second run ([Checked]) stops with [Overflow] there.
    - A [double] of the Julian Day functions is the rational it denotes,
      and every operation on it rounds to the nearest [double], ties to
      even ([Binary64.rnd], 53 bits; the exponent range is not modelled,
      all values here are far inside it).  Not-a-number and the infinities
      are not values of the model: a property of a Julian Day is a
      property of a finite one.  The Delta-T polynomials are evaluated on
      exact rationals.
    - Out-parameters ([int *yy], [double *newjd], ...) become components of
      the returned tuple, except for [changeDateTimeForRollover], whose
      conditional writes are the subject of a claim: there the six pointed-to
      cells are an explicit record threaded through the call.
    - [while] loops are run by a fuel-indexed iterator; termination is a
      theorem, not an assumption.
    - [QDate], [QRegExp] and [QString] belong to Qt, not to this file:
      [QDate] is an interface the conversion is parameterised by, the
      regular expression is embedded as syntax with the usual language
      semantics, and a [QString] is the list of its characters. *)

From Stdlib Require Import ZArith QArith Qround Qabs Qpower Lia Lqa List Bool.
From Stdlib Require Import Ascii String.
Import ListNotations.

Local Open Scope Z_scope.

(** ** C arithmetic *)

Module C.

(** Integer division and remainder of C99/C++11: truncation toward zero. *)
Definition div (a b : Z) : Z := Z.quot a b.
Definition rem (a b : Z) : Z := Z.rem a b.

(** An [int] used as a condition: non-zero is true. *)
Definition truthy (a : Z) : bool := negb (a =? 0).

(** Conversion to [unsigned long long]. *)
Definition to_ull (a : Z) : Z := a mod 2 ^ 64.

(** Conversion of a floating value to [int]: the fraction is discarded. *)
Definition to_int (x : Q) : Z :=
  if Qle_bool 0 x then Qfloor x else Qceiling x.

(** [(double) n] for an [int] [n]: every [int] is a [double]. *)
Definition of_int (n : Z) : Q := inject_Z n.

(** A [long] stored in an [int]: the low 32 bits, as a signed number. *)
Definition to_int32 (a : Z) : Z := (a + 2 ^ 31) mod 2 ^ 32 - 2 ^ 31.

End C.

(** ** Arithmetic on [double]

    The value of an operation is the exact result rounded to the nearest
    number with a significand of 53 bits, ties to the even significand. *)

Module Binary64.

Definition pow2 (k : Z) : Q := (2 ^ k)%Q.

(** The nearest integer, ties to even. *)
Definition rne (q : Q) : Z :=
  let f := Qfloor q in
  match (q - inject_Z f ?= 1 # 2)%Q with
  | Lt => f
  | Gt => f + 1
  | Eq => if Z.even f then f else f + 1
  end.

(** The binade of a number other than zero: [2 ^ e <= |x| < 2 ^ (e + 1)]. *)
Definition ilog2 (x : Q) : Z :=
  let e := Z.log2 (Z.abs (Qnum x)) - Z.log2 (Z.pos (Qden x)) in
  if Qle_bool (pow2 e) (Qabs x) then e else e - 1.

(** Rounding to the multiples of [2 ^ (e - 52)], the [double]s of binade
    [e]. *)
Definition roundTo (e : Z) (x : Q) : Q :=
  (inject_Z (rne (x / pow2 (e - 52))) * pow2 (e - 52))%Q.

Definition rnd (x : Q) : Q :=
  if Qeq_bool x 0 then 0%Q else roundTo (ilog2 x) x.

Definition add (a b : Q) : Q := rnd (a + b).
Definition sub (a b : Q) : Q := rnd (a - b).
Definition mul (a b : Q) : Q := rnd (a * b).
Definition div (a b : Q) : Q := rnd (a / b).

(** [(double) n] for a [long] [n]. *)
Definition of_Z (n : Z) : Q := rnd (inject_Z n).

(** A decimal literal. *)
Definition literal (q : Q) : Q := rnd q.

End Binary64.

(** ** The [QDate] interface

    [getJDFromDate] first asks Qt's [QDate] for the day number and only
    falls back on its own arithmetic when [QDate] rejects the date.  The
    class is Qt's; the embedding takes its two methods as parameters. *)

Record QDateApi : Type := {
  QDate_isValid : Z -> Z -> Z -> bool;
  QDate_toJulianDay : Z -> Z -> Z -> Z
}.

Module StelUtils.

(** *** [getDateFromJulianDay] *)

Definition JD_GREG_CAL : Z := 2299161.
Definition JB_MAX_WITHOUT_OVERFLOW : Z := 107374182.

(** [julian = (long)floor(jd + 0.5)] *)
Definition julianOf (jd : Q) : Z := Qfloor (Binary64.add jd 0.5).

(** The three-way branch computing [ta]. *)
Definition gregorian_ta (julian : Z) : Z :=
  let jalpha := C.div (4 * (julian - 1867216) - 1) 146097 in
  julian + 1 + jalpha - C.div jalpha 4.

Definition julian_ta (julian : Z) : Z :=
  if julian <? 0
  then julian + 36525 * (1 - C.div julian 36525)
  else julian.

Definition ta_of (julian : Z) : Z :=
  if JD_GREG_CAL <=? julian then gregorian_ta julian else julian_ta julian.

(** Everything after the branch: from [ta] to day, month, year.  [tb] to
    [te] are [long], the three results are stored in [int]s. *)
Definition date_of_ta (julian ta : Z) : Z * Z * Z :=
  let tb := ta + 1524 in
  let tc :=
    if tb <=? JB_MAX_WITHOUT_OVERFLOW
    then C.div (tb * 20 - 2442) 7305
    else C.div (C.to_ull (C.to_ull (C.to_ull tb * 20) - 2442)) 7305 in
  let td := 365 * tc + C.div tc 4 in
  let te := C.div ((tb - td) * 10000) 306001 in
  let dd := C.to_int32 (tb - td - C.div (306001 * te) 10000) in
  let mm := C.to_int32 (te - 1) in
  let mm := if 12 <? mm then mm - 12 else mm in
  let yy := C.to_int32 (tc - 4715) in
  let yy := if 2 <? mm then yy - 1 else yy in
  let yy :=
    if julian <? 0
    then C.to_int32 (yy - 100 * (1 - C.div julian 36525))
    else yy in
  (yy, mm, dd).

Definition dateOfJulian (julian : Z) : Z * Z * Z :=
  date_of_ta julian (ta_of julian).

(** The result is the triple [( *yy, *mm, *dd )]. *)
Definition getDateFromJulianDay (jd : Q) : Z * Z * Z :=
  dateOfJulian (julianOf jd).

(** *** [getTimeFromJulianDay] *)

(** The result is the triple [( *hour, *minute, *second )].  The floor
    converted to [int] lies between 0 and 86400 for every finite
    [julianDay]: the conversion changes nothing. *)
Definition getTimeFromJulianDay (julianDay : Q) : Z * Z * Z :=
  let frac := Binary64.sub julianDay (inject_Z (Qfloor julianDay)) in
  let s :=
    Qfloor (Binary64.add
              (Binary64.mul (Binary64.mul (Binary64.mul frac 24.0) 60.0) 60.0)
              (Binary64.literal 0.0001)) in
  (C.rem (C.div s (60 * 60) + 12) 24,
   C.rem (C.div s 60) 60,
   C.rem s 60).

(** *** [getJDFromDate] *)

Definition IGREG2 : Z := 15 + 31 * (10 + 12 * 1582).

Definition deltaTime (h min s : Z) : Q :=
  Binary64.sub
    (Binary64.add
       (Binary64.add (Binary64.div (C.of_int h) 24.0)
                     (Binary64.div (C.of_int min) (Binary64.mul 24.0 60.0)))
       (Binary64.div (C.of_int s)
                     (Binary64.mul (Binary64.mul 24.0 60.0) 60.0)))
    0.5.

(** The [else] branch (Numerical Recipes): the integer [ljul]. *)
Definition ljulOf (y m d : Z) : Z :=
  let jy := y in
  let '(jy, jm) := if 2 <? m then (jy, m + 1) else (jy - 1, m + 13) in
  let laa := C.div (1461 * jy) 4 in
  let laa := if (jy <? 0) && C.truthy (C.rem jy 4) then laa - 1 else laa in
  let lbb := C.div (306001 * jm) 10000 in
  let ljul := laa + lbb + d + 1720995 in
  if IGREG2 <=? d + 31 * (m + 12 * y)
  then
    let lcc := C.div jy 100 in
    let lcc := if (jy <? 0) && C.truthy (C.rem jy 100) then lcc - 1 else lcc in
    let lee := C.div lcc 4 in
    let lee := if (lcc <? 0) && C.truthy (C.rem lcc 4) then lee - 1 else lee in
    ljul + (2 - lcc + lee)
  else ljul.

(** The year handed to [QDate], which has no year zero. *)
Definition qdateYear (y : Z) : Z := if y <=? 0 then y - 1 else y.

(** The result is the pair (returned flag, [*newjd]). *)
Definition getJDFromDate (qd : QDateApi) (y m d h min s : Z) : bool * Q :=
  let deltaTime := deltaTime h min s in
  if QDate_isValid qd (qdateYear y) m d
  then (true,
        Binary64.add
          (Binary64.of_Z (QDate_toJulianDay qd (qdateYear y) m d)) deltaTime)
  else (true, Binary64.add (Binary64.of_Z (ljulOf y m d)) deltaTime).

(** *** [numberOfDaysInMonthInYear] *)

(** The cases [1] to [12] of the [switch], which do not recurse. *)
Definition daysInProperMonth (month year : Z) : Z :=
  match month with
  | 1 | 3 | 5 | 7 | 8 | 10 | 12 => 31
  | 4 | 6 | 9 | 11 => 30
  | 2 =>
      if 1582 <? year
      then
        if C.rem year 4 =? 0
        then
          if C.rem year 100 =? 0
          then if C.rem year 400 =? 0 then 29 else 28
          else 29
        else 28
      else if C.rem year 4 =? 0 then 29 else 28
  | _ => 0
  end.

(** The whole [switch]: the cases [0] and [13] call the function again on
    a month that is answered without a further call. *)
Definition numberOfDaysInMonthInYear (month year : Z) : Z :=
  match month with
  | 0 => daysInProperMonth 12 (year - 1)
  | 13 => daysInProperMonth 1 (year + 1)
  | _ => daysInProperMonth month year
  end.

(** *** [changeDateTimeForRollover] *)

(** The local variables of the function: the six by-value parameters,
    which the loops update in place, and the flag [change]. *)
Record Rollover : Type := mkRollover {
  oy : Z; om : Z; od : Z; oh : Z; omin : Z; os : Z;
  change : bool
}.

(** The six cells the result pointers [ry], [rm], [rd], [rh], [rmin],
    [rs] point to, and the names of the cells. *)
Record Outputs : Type := mkOutputs {
  ry : Z; rm : Z; rd : Z; rh : Z; rmin : Z; rs : Z
}.

Inductive Cell : Type := Ry | Rm | Rd | Rh | Rmin | Rs.

(** [*cell = v] *)
Definition assign (out : Outputs) (w : Cell * Z) : Outputs :=
  let '(cell, v) := w in
  match cell with
  | Ry => mkOutputs v (rm out) (rd out) (rh out) (rmin out) (rs out)
  | Rm => mkOutputs (ry out) v (rd out) (rh out) (rmin out) (rs out)
  | Rd => mkOutputs (ry out) (rm out) v (rh out) (rmin out) (rs out)
  | Rh => mkOutputs (ry out) (rm out) (rd out) v (rmin out) (rs out)
  | Rmin => mkOutputs (ry out) (rm out) (rd out) (rh out) v (rs out)
  | Rs => mkOutputs (ry out) (rm out) (rd out) (rh out) (rmin out) v
  end.

(** [while (cond) body], run for at most [fuel] evaluations of the
    condition; [None] when the fuel does not reach the exit. *)
Fixpoint while (fuel : nat) (cond : Rollover -> bool)
         (body : Rollover -> Rollover) (st : Rollover) : option Rollover :=
  match fuel with
  | O => None
  | S fuel' =>
      if cond st then while fuel' cond body (body st) else Some st
  end.

Definition secCarry (st : Rollover) : Rollover :=
  mkRollover (oy st) (om st) (od st) (oh st) (omin st + 1) (os st - 60) true.
Definition secBorrow (st : Rollover) : Rollover :=
  mkRollover (oy st) (om st) (od st) (oh st) (omin st - 1) (os st + 60) true.

Definition minCarry (st : Rollover) : Rollover :=
  mkRollover (oy st) (om st) (od st) (oh st + 1) (omin st - 60) (os st) true.
Definition minBorrow (st : Rollover) : Rollover :=
  mkRollover (oy st) (om st) (od st) (oh st - 1) (omin st + 60) (os st) true.

Definition hourCarry (st : Rollover) : Rollover :=
  mkRollover (oy st) (om st) (od st + 1) (oh st - 24) (omin st) (os st) true.
Definition hourBorrow (st : Rollover) : Rollover :=
  mkRollover (oy st) (om st) (od st - 1) (oh st + 24) (omin st) (os st) true.

(** [od -= days(om, oy); om++; if (om > 12) { om -= 12; oy += 1; }] *)
Definition dayCarry (st : Rollover) : Rollover :=
  let od' := od st - numberOfDaysInMonthInYear (om st) (oy st) in
  let om' := om st + 1 in
  if 12 <? om'
  then mkRollover (oy st + 1) (om' - 12) od' (oh st) (omin st) (os st) true
  else mkRollover (oy st) om' od' (oh st) (omin st) (os st) true.

(** [od += days(om-1, oy); om--; if (om < 1) { om += 12; oy -= 1; }] *)
Definition dayBorrow (st : Rollover) : Rollover :=
  let od' := od st + numberOfDaysInMonthInYear (om st - 1) (oy st) in
  let om' := om st - 1 in
  if om' <? 1
  then mkRollover (oy st - 1) (om' + 12) od' (oh st) (omin st) (os st) true
  else mkRollover (oy st) om' od' (oh st) (omin st) (os st) true.

Definition monthCarry (st : Rollover) : Rollover :=
  mkRollover (oy st + 1) (om st - 12) (od st) (oh st) (omin st) (os st) true.
Definition monthBorrow (st : Rollover) : Rollover :=
  mkRollover (oy st - 1) (om st + 12) (od st) (oh st) (omin st) (os st) true.

(** The ten loops in the order of the source. *)
Definition loops : list ((Rollover -> bool) * (Rollover -> Rollover)) :=
  [ (fun st => 59 <? os st, secCarry);
    (fun st => os st <? 0, secBorrow);
    (fun st => 59 <? omin st, minCarry);
    (fun st => omin st <? 0, minBorrow);
    (fun st => 23 <? oh st, hourCarry);
    (fun st => oh st <? 0, hourBorrow);
    (fun st => numberOfDaysInMonthInYear (om st) (oy st) <? od st, dayCarry);
    (fun st => od st <? 1, dayBorrow);
    (fun st => 12 <? om st, monthCarry);
    (fun st => om st <? 1, monthBorrow) ].

(** Runs the given loops one after the other; each has [fuel] of its own. *)
Fixpoint runLoops (fuel : nat)
         (ls : list ((Rollover -> bool) * (Rollover -> Rollover)))
         (st : Rollover) : option Rollover :=
  match ls with
  | [] => Some st
  | (cond, body) :: ls' =>
      match while fuel cond body st with
      | Some st' => runLoops fuel ls' st'
      | None => None
      end
  end.

(** "and the julian-gregorian epoch hole: round up to the 15th" *)
Definition epochHole (st : Rollover) : Rollover :=
  if (oy st =? 1582) && (om st =? 10) && ((4 <? od st) && (od st <? 15))
  then mkRollover (oy st) (om st) 15 (oh st) (omin st) (os st) true
  else st.

(** [if (change) { *ry = oy; *rm = om; *rd = od; *rh = oh; *rmin = omin;
    *rs = os; }]: the assignments the statement performs, in order. *)
Definition writes (st : Rollover) : list (Cell * Z) :=
  if change st
  then [ (Ry, oy st); (Rm, om st); (Rd, od st);
         (Rh, oh st); (Rmin, omin st); (Rs, os st) ]
  else [].

Definition writeBack (st : Rollover) (out : Outputs) : Outputs :=
  fold_left assign (writes st) out.

(** The locals just before the final [if (change)]. *)
Definition rolloverLocals (fuel : nat) (y m d h mi s : Z) : option Rollover :=
  match runLoops fuel loops (mkRollover y m d h mi s false) with
  | Some st => Some (epochHole st)
  | None => None
  end.

(** The result is the returned flag and the contents of the six output
    cells after the call; [out] is their contents before it.  The locals
    are integers here: this is the run in which no carry overflows.
    [Checked.changeDateTimeForRollover] below is the run with [int]
    locals; what it returns, this run returns. *)
Definition changeDateTimeForRollover (fuel : nat) (y m d h mi s : Z)
           (out : Outputs) : option (bool * Outputs) :=
  match rolloverLocals fuel y m d h mi s with
  | Some st => Some (change st, writeBack st out)
  | None => None
  end.

(** *** Delta-T models *)

(** [a < b] and [a <= b] on [double]. *)
Definition Qltb (a b : Q) : bool := negb (Qle_bool b a).
Definition Qleb (a b : Q) : bool := Qle_bool a b.

(** The expression
    [year+((month-1)*30.5+day/31*30.5)/366], which the source repeats in
    every model that works on a decimal year.  [day] and [31] are both
    [int], so [day/31] is the integer quotient. *)
Definition yeardec (year month day : Z) : Q :=
  (C.of_int year
   + (C.of_int (month - 1) * 30.5 + C.of_int (C.div day 31) * 30.5) / 366)%Q.

Definition decYear2DeltaT (y : Q) : Q :=
  (let u := (y - 1820) / 100 in
   let r := -20 + 32 * u ^ 2 in
   if Qltb y (-500) then
     let u := (y - 1820) / 100 in
     -20 + 32 * u ^ 2
   else if Qltb y 500 then
     let u := y / 100 in
     10583.6 - 1014.41 * u + 33.78311 * u ^ 2 - 5.952053 * u ^ 3
     - 0.1798452 * u ^ 4 + 0.022174192 * u ^ 5 + 0.0090316521 * u ^ 6
   else if Qltb y 1600 then
     let u := (y - 1000) / 100 in
     1574.2 - 556.01 * u + 71.23472 * u ^ 2 + 0.319781 * u ^ 3
     - 0.8503463 * u ^ 4 - 0.005050998 * u ^ 5 + 0.0083572073 * u ^ 6
   else if Qltb y 1700 then
     let t := y - 1600 in
     120 - 0.9808 * t - 0.01532 * t ^ 2 + t ^ 3 / 7129
   else if Qltb y 1800 then
     let t := y - 1700 in
     8.83 + 0.1603 * t - 0.0059285 * t ^ 2 + 0.00013336 * t ^ 3
     - t ^ 4 / 1174000
   else if Qltb y 1860 then
     let t := y - 1800 in
     13.72 - 0.332447 * t + 0.0068612 * t ^ 2 + 0.0041116 * t ^ 3
     - 0.00037436 * t ^ 4 + 0.0000121272 * t ^ 5 - 0.0000001699 * t ^ 6
     + 0.000000000875 * t ^ 7
   else if Qltb y 1900 then
     let t := y - 1860 in
     7.62 + 0.5737 * t - 0.251754 * t ^ 2 + 0.01680668 * t ^ 3
     - 0.0004473624 * t ^ 4 + t ^ 5 / 233174
   else if Qltb y 1920 then
     let t := y - 1900 in
     -2.79 + 1.494119 * t - 0.0598939 * t ^ 2 + 0.0061966 * t ^ 3
     - 0.000197 * t ^ 4
   else if Qltb y 1941 then
     let t := y - 1920 in
     21.20 + 0.84493 * t - 0.076100 * t ^ 2 + 0.0020936 * t ^ 3
   else if Qltb y 1961 then
     let t := y - 1950 in
     29.07 + 0.407 * t - t ^ 2 / 233 + t ^ 3 / 2547
   else if Qltb y 1986 then
     let t := y - 1975 in
     45.45 + 1.067 * t - t ^ 2 / 260 - t ^ 3 / 718
   else if Qltb y 2005 then
     let t := y - 2000 in
     63.86 + 0.3345 * t - 0.060374 * t ^ 2 + 0.0017275 * t ^ 3
     + 0.000651814 * t ^ 4 + 0.00002373599 * t ^ 5
   else if Qltb y 2050 then
     let t := y - 2000 in
     62.92 + 0.32217 * t + 0.005589 * t ^ 2
   else if Qltb y 2150 then
     -20 + 32 * ((y - 1820) / 100) ^ 2 - 0.5628 * (2150 - y)
   else r)%Q.

Definition getDeltaTByEspenakMeeus (jDay : Q) : Q :=
  let '(year, month, day) := getDateFromJulianDay jDay in
  decYear2DeltaT (yeardec year month day).

Definition getDeltaTByStephensonMorrison1984 (jDay : Q) : Q :=
  let deltaT := 0%Q in
  let '(year, month, day) := getDateFromJulianDay jDay in
  let yeardec := yeardec year month day in
  let u := ((yeardec - 1800) / 100)%Q in
  let deltaT :=
    if (-391 <? year) && (year <=? 948)
    then (1360.0 + 320 * u + 44.3 * u ^ 2)%Q else deltaT in
  let deltaT :=
    if (948 <? year) && (year <=? 1600)
    then (25.5 * u ^ 2)%Q else deltaT in
  deltaT.

(** "191 values for interpolation table 1620..2000" *)
Definition MeeusDeltaTTable : list Z :=
  [ 1210; 1120; 1030; 950; 880; 820; 770; 720; 680; 630; 600; 560; 530; 510; 480;
    460; 440; 420; 400; 380; 350; 330; 310; 290; 260; 240; 220; 200; 180; 160; 140; 120; 110; 100;  90;  80;  70;  70;  70;  70;
    70;  70;  80;  80;  90;  90;  90;  90;  90; 100; 100; 100; 100; 100; 100; 100; 100; 110; 110; 110; 110; 110; 120; 120; 120;
    120; 130; 130; 130; 140; 140; 140; 140; 150; 150; 150; 150; 150; 160; 160; 160; 160; 160; 160; 160; 160; 150; 150; 140; 130;
    131; 125; 122; 120; 120; 120; 120; 120; 120; 119; 116;  11; 102;  92;  82;  71;  62;  56;  54;  53;  54;  56;  59;  62;  65;
    68;  71;  73;  75;  76;  77;  73;  62;  52;  27;  14; -12; -28; -38; -48; -55; -53; -56; -57; -59; -60; -63; -65; -62; -47;
    -28;  -1;  26;  53;  77; 104; 133; 160; 182; 202; 211; 224; 235; 238; 243; 240; 239; 239; 237; 240; 243; 253; 262; 273; 282;
    291; 300; 307; 314; 322; 331; 340; 350; 365; 383; 402; 422; 445; 465; 485; 505; 522; 538; 549; 558; 569; 583; 600; 616; 630; 650 ].

(** [MeeusDeltaTTable[i]]; reading outside the array is undefined in C++,
    the model answers [0] there. *)
Definition tableAt (i : Z) : Z := nth (Z.to_nat i) MeeusDeltaTTable 0.

Definition getDeltaTByMeeus (jDay : Q) : Q :=
  let deltaT := 0%Q in
  let '(year, month, day) := getDateFromJulianDay jDay in
  let u20 := ((jDay - 2451545.0) / 36525.0)%Q in
  if year <? 948 then
    ((44.1 * u20 + 497.0) * u20 + 2177.0)%Q
  else if year <? 1620 then
    ((25.3 * u20 + 102.0) * u20 + 102.0)%Q
  else if year <? 2000 then
    let yeardec := yeardec year month day in
    let pos := C.div (year - 1620) 2 in
    let deltaT :=
      (C.of_int (tableAt pos)
       + (yeardec - C.of_int (2 * pos + 1620)) * 0.5
         * C.of_int (tableAt (pos + 1) - tableAt pos))%Q in
    (deltaT / 10.0)%Q
  else if year <? 2100 then
    ((25.3 * u20 + 102.0) * u20 + 102.0 + 0.37 * C.of_int (year - 2100))%Q
  else
    ((25.3 * u20 + 102.0) * u20 + 102.0)%Q.

Definition getDeltaTByMeeusSimons (jDay : Q) : Q :=
  let deltaT := 0%Q in
  let '(year, month, day) := getDateFromJulianDay jDay in
  let yeardec := yeardec year month day in
  let ub := ((yeardec - 2000) / 100)%Q in
  let deltaT :=
    if (1620 <=? year) && (year <? 1690) then
      let u := (3.45 + ub)%Q in
      (40.3 - 107.0 * u + 50.0 * u ^ 2 - 454.0 * u ^ 3 + 1244.0 * u ^ 4)%Q
    else deltaT in
  let deltaT :=
    if (1690 <=? year) && (year <? 1770) then
      let u := (2.70 + ub)%Q in
      (10.2 + 11.3 * u - u ^ 2 - 16.0 * u ^ 3 + 70.0 * u ^ 4)%Q
    else deltaT in
  let deltaT :=
    if (1770 <=? year) && (year <? 1820) then
      let u := (2.05 + ub)%Q in
      (14.7 - 18.8 * u - 22.0 * u ^ 2 + 173.0 * u ^ 3 + 6.0 * u ^ 4)%Q
    else deltaT in
  let deltaT :=
    if (1820 <=? year) && (year <? 1870) then
      let u := (1.55 + ub)%Q in
      (5.7 + 12.7 * u + 111.0 * u ^ 2 - 534.0 * u ^ 3 + 1654.0 * u ^ 4)%Q
    else deltaT in
  let deltaT :=
    if (1870 <=? year) && (year <? 1900) then
      let u := (1.15 + ub)%Q in
      (-5.8 - 14.6 * u + 27.0 * u ^ 2 + 101.0 * u ^ 3 + 8234.0 * u ^ 4)%Q
    else deltaT in
  let deltaT :=
    if (1900 <=? year) && (year <? 1940) then
      let u := (0.80 + ub)%Q in
      (21.4 + 67.0 * u + 443.0 * u ^ 2 + 19.0 * u ^ 3 + 4441.0 * u ^ 4)%Q
    else deltaT in
  let deltaT :=
    if (1940 <=? year) && (year <? 1990) then
      let u := (0.35 + ub)%Q in
      (36.2 + 74.0 * u + 189.0 * u ^ 2 - 140.0 * u ^ 3 - 1883.0 * u ^ 4)%Q
    else deltaT in
  let deltaT :=
    if (1900 <=? year) && (year <=? 2000) then
      let u := (0.05 + ub)%Q in
      (60.8 + 82.0 * u + 188.0 * u ^ 2 - 5034.0 * u ^ 3)%Q
    else deltaT in
  deltaT.

(** *** Regular expressions ([QRegExp])

    The pattern of [getDateTimeFromISO8601String] is embedded as syntax.
    [exactMatch] decides membership in the language of the pattern by
    Brzozowski derivatives; a [QString] is a list of 8-bit characters and
    [\d] is an ASCII digit. *)

Inductive regex : Type :=
| Empty : regex
| Eps : regex
| Class : (ascii -> bool) -> regex
| Seq : regex -> regex -> regex
| Alt : regex -> regex -> regex
| Star : regex -> regex
| Group : regex -> regex.

(** [r?] and [r+] *)
Definition Opt (r : regex) : regex := Alt r Eps.
Definition Plus (r : regex) : regex := Seq r (Star r).

Fixpoint nullable (r : regex) : bool :=
  match r with
  | Empty => false
  | Eps => true
  | Class _ => false
  | Seq r1 r2 => nullable r1 && nullable r2
  | Alt r1 r2 => nullable r1 || nullable r2
  | Star _ => true
  | Group r1 => nullable r1
  end.

Fixpoint deriv (c : ascii) (r : regex) : regex :=
  match r with
  | Empty => Empty
  | Eps => Empty
  | Class p => if p c then Eps else Empty
  | Seq r1 r2 =>
      if nullable r1
      then Alt (Seq (deriv c r1) r2) (deriv c r2)
      else Seq (deriv c r1) r2
  | Alt r1 r2 => Alt (deriv c r1) (deriv c r2)
  | Star r1 => Seq (deriv c r1) (Star r1)
  | Group r1 => deriv c r1
  end.

(** [QRegExp::exactMatch] *)
Fixpoint exactMatch (r : regex) (s : list ascii) : bool :=
  match s with
  | [] => nullable r
  | c :: s' => exactMatch (deriv c r) s'
  end.

(** [QRegExp::captureCount]: the number of parenthesised groups. *)
Fixpoint captureCount (r : regex) : Z :=
  match r with
  | Empty | Eps | Class _ => 0
  | Seq r1 r2 | Alt r1 r2 => captureCount r1 + captureCount r2
  | Star r1 => captureCount r1
  | Group r1 => 1 + captureCount r1
  end.

(** The character classes of the pattern. *)
Definition isDigit (c : ascii) : bool :=
  (48 <=? N_of_ascii c)%N && (N_of_ascii c <=? 57)%N.
Definition isSign (c : ascii) : bool :=
  Ascii.eqb c "+" || Ascii.eqb c "-".
Definition isSep (c : ascii) : bool :=
  Ascii.eqb c ":" || Ascii.eqb c "-".
Definition Chr (a : ascii) : regex := Class (Ascii.eqb a).

Definition digit : regex := Class isDigit.

(** The six groups of the pattern. *)
Definition reYear : regex := Seq (Opt (Class isSign)) (Plus digit).
Definition reTwoDigits : regex := Seq digit digit.
Definition reHour : regex := Seq (Opt digit) digit.
Definition reSeconds : regex :=
  Seq digit (Seq digit (Opt (Seq (Chr ".") (Star digit)))).

(** The pattern of the source, group by group:
    ([+\-]?\d+) [:\-] (\d\d) [:\-] (\d\d) T (\d?\d) : (\d\d) :
    (\d\d(?:\.\d* )?), anchored at both ends. *)
Definition finalRe : regex :=
  Seq (Group reYear)
  (Seq (Class isSep)
  (Seq (Group reTwoDigits)
  (Seq (Class isSep)
  (Seq (Group reTwoDigits)
  (Seq (Chr "T")
  (Seq (Group reHour)
  (Seq (Chr ":")
  (Seq (Group reTwoDigits)
  (Seq (Chr ":")
       (Group reSeconds)))))))))).

(** The longest prefix of digits and what follows it. *)
Fixpoint spanDigits (s : list ascii) : list ascii * list ascii :=
  match s with
  | c :: s' =>
      if isDigit c
      then let '(ds, rest) := spanDigits s' in (c :: ds, rest)
      else ([], s)
  | [] => ([], [])
  end.

(** [QRegExp::capturedTexts] after a successful [exactMatch] of [finalRe]:
    the whole match followed by the six groups.  The pattern leaves no
    choice where a group ends: the year is the sign and the digits before
    the first separator, the hour the digits after [T], the other fields
    have two characters and the seconds take the rest. *)
Definition capturedTexts (s : list ascii) : list (list ascii) :=
  let '(sign, s1) :=
    match s with
    | c :: s' => if isSign c then ([c], s') else ([], s)
    | [] => ([], [])
    end in
  let '(ydigits, s2) := spanDigits s1 in
  let s3 := skipn 1 s2 in
  let s4 := skipn 1 (skipn 2 s3) in
  let s5 := skipn 1 (skipn 2 s4) in
  let '(hour, s6) := spanDigits s5 in
  let s7 := skipn 1 s6 in
  let s8 := skipn 1 (skipn 2 s7) in
  [ s; sign ++ ydigits; firstn 2 s3; firstn 2 s4; hour; firstn 2 s7; s8 ].

(** [QList::at] on the captured texts. *)
Definition textAt (caps : list (list ascii)) (i : nat) : list ascii :=
  nth i caps [].

(** *** [QString::toInt] and [QString::toFloat] *)

Definition digitValue (c : ascii) : Z := Z.of_N (N_of_ascii c) - 48.

(** The number a run of decimal digits denotes. *)
Definition digitsValue (ds : list ascii) : Z :=
  fold_left (fun acc c => 10 * acc + digitValue c) ds 0.

(** The bounds of a 32-bit [int]. *)
Definition INT_MAX : Z := 2147483647.
Definition INT_MIN : Z := -2147483648.

(** [txt.toInt(&ok)] in base ten on a text without blanks: an optional
    sign and at least one digit, and a value that fits an [int]; else the
    result is [0] and [ok] is false.  The pair is (value, [ok]). *)
Definition toInt (txt : list ascii) : Z * bool :=
  let '(negative, body) :=
    match txt with
    | c :: rest =>
        if Ascii.eqb c "-" then (true, rest)
        else if Ascii.eqb c "+" then (false, rest)
        else (false, txt)
    | [] => (false, [])
    end in
  match body with
  | [] => (0, false)
  | _ :: _ =>
      if forallb isDigit body
      then
        let v := if negative then - digitsValue body else digitsValue body in
        if (INT_MIN <=? v) && (v <=? INT_MAX) then (v, true) else (0, false)
      else (0, false)
  end.

(** [txt.toFloat(&ok)] on plain decimal notation, digits with an optional
    point and further digits; other notations do not occur in the sixth
    group.  The pair is (value, [ok]). *)
Definition toFloat (txt : list ascii) : Q * bool :=
  let '(ip, rest) := spanDigits txt in
  match ip, rest with
  | [], _ => (0%Q, false)
  | _ :: _, [] => (inject_Z (digitsValue ip), true)
  | _ :: _, c :: fp =>
      if Ascii.eqb c "." && forallb isDigit fp
      then ((inject_Z (digitsValue ip)
             + inject_Z (digitsValue fp) / inject_Z (10 ^ Z.of_nat (List.length fp)))%Q,
            true)
      else (0%Q, false)
  end.

(** *** [getDateTimeFromISO8601String] and [getJulianDayFromISO8601String] *)

(** The result is [Some] of the six values written through the pointers
    when the function returns true, and [None] when it returns false (the
    cells may then have been written in part; no caller reads them). *)
Definition getDateTimeFromISO8601String (iso8601Date : list ascii)
  : option (Z * Z * Z * Z * Z * Q) :=
  if exactMatch finalRe iso8601Date && (captureCount finalRe =? 6)
  then
    let caps := capturedTexts iso8601Date in
    let error := false in
    let '(y, ok) := toInt (textAt caps 1) in
    let error := error || negb ok in
    let '(m, ok) := toInt (textAt caps 2) in
    let error := error || negb ok in
    let '(d, ok) := toInt (textAt caps 3) in
    let error := error || negb ok in
    let '(h, ok) := toInt (textAt caps 4) in
    let error := error || negb ok in
    let '(min, ok) := toInt (textAt caps 5) in
    let error := error || negb ok in
    let '(s, ok) := toFloat (textAt caps 6) in
    let error := error || negb ok in
    if negb error then Some (y, m, d, h, min, s) else None
  else None.

(** The result is the pair (returned value, [*ok]). *)
Definition getJulianDayFromISO8601String (qd : QDateApi)
           (iso8601Date : list ascii) : Q * bool :=
  match getDateTimeFromISO8601String iso8601Date with
  | Some (y, m, d, h, min, s) =>
      let '(done, jd) := getJDFromDate qd y m d h min (C.to_int s) in
      if negb done then (0.0%Q, false) else (jd, true)
  | None => (0.0%Q, false)
  end.

(** *** [getJDFromDate_alg2] *)

(** [floor] and [std::fabs] on [double]. *)
Definition floor (x : Q) : Q := inject_Z (Qfloor x).
Definition fabs (x : Q) : Q := Qabs x.

Definition getJDFromDate_alg2 (y m d h min s : Z) : Q :=
  let extra :=
    Binary64.sub
      (Binary64.add (Binary64.mul 100.0 (C.of_int y)) (C.of_int m))
      190002.5 in
  let rjd := Binary64.mul 367.0 (C.of_int y) in
  let rjd :=
    Binary64.sub rjd
      (floor
         (Binary64.div
            (Binary64.mul 7.0
               (Binary64.add (C.of_int y)
                  (floor (Binary64.div (Binary64.add (C.of_int m) 9.0) 12.0))))
            4.0)) in
  let rjd :=
    Binary64.add rjd
      (floor (Binary64.div (Binary64.mul 275.0 (C.of_int m)) 9.0)) in
  let rjd := Binary64.add rjd (C.of_int d) in
  let rjd :=
    Binary64.add rjd
      (Binary64.div
         (Binary64.add (C.of_int h)
            (Binary64.div
               (Binary64.add (C.of_int min) (Binary64.div (C.of_int s) 60.0))
               60))
         24.0) in
  let rjd := Binary64.add rjd 1721013.5 in
  let rjd :=
    Binary64.sub rjd (Binary64.div (Binary64.mul 0.5 extra) (fabs extra)) in
  let rjd := Binary64.add rjd 0.5 in
  rjd.

(** *** [isPowerOfTwo] and [smallestPowerOfTwoGreaterOrEqualTo] *)

(** [(value & -value) == value] *)
Definition isPowerOfTwo (value : Z) : bool :=
  Z.land value (- value) =? value.

(** [while (pot<value){pot<<=1;}] with [fuel] evaluations of the condition
    at most; the result is the final [pot]. *)
Fixpoint potLoop (fuel : nat) (value pot : Z) : option Z :=
  match fuel with
  | O => None
  | S fuel' =>
      if pot <? value
      then potLoop fuel' value (Z.shiftl pot 1)
      else Some pot
  end.

(** The assertion of the debug build ([value <= twoTo30]) is not part of
    the function's result; it appears as a hypothesis where it matters. *)
Definition smallestPowerOfTwoGreaterOrEqualTo (fuel : nat) (value : Z)
  : option Z :=
  if value =? 0 then Some 0 else potLoop fuel value 1.

(** *** [julianDayToISO8601String] *)

(** The character of a decimal digit. *)
Definition digitChar (d : Z) : ascii := ascii_of_N (Z.to_N (48 + d)).

(** The decimal digits of [n], most significant first, put before [acc];
    [fuel] bounds their number. *)
Fixpoint decimal (fuel : nat) (n : Z) (acc : list ascii) : list ascii :=
  match fuel with
  | O => acc
  | S fuel' =>
      let acc' := digitChar (n mod 10) :: acc in
      if n <? 10 then acc' else decimal fuel' (n / 10) acc'
  end.

(** [QString::number(n)] in base ten. *)
Definition number (n : Z) : list ascii :=
  if n <? 0
  then "-"%char :: decimal (S (Z.to_nat (Z.log2 (- n)))) (- n) []
  else decimal (S (Z.to_nat (Z.log2 n))) n [].

(** [.arg(a, fieldWidth, 10, fillChar)]: the text of [a], with fill
    characters before it up to the field width. *)
Definition arg (a : Z) (fieldWidth : nat) (fillChar : ascii) : list ascii :=
  let txt := number a in
  repeat fillChar (fieldWidth - List.length txt) ++ txt.

(** The six place markers of ["%1-%2-%3T%4:%5:%6"] are replaced in turn;
    no replacement text holds a marker. *)
Definition julianDayToISO8601String (jd : Q) : list ascii :=
  let '(year, month, day) := getDateFromJulianDay jd in
  let '(hour, minute, second) := getTimeFromJulianDay jd in
  let res :=
    arg (if 0 <=? year then year else -1 * year) 4 "0"
    ++ "-"%char :: arg month 2 "0"
    ++ "-"%char :: arg day 2 "0"
    ++ "T"%char :: arg hour 2 "0"
    ++ ":"%char :: arg minute 2 "0"
    ++ ":"%char :: arg second 2 "0" in
  if year <? 0 then "-"%char :: res else res.

(** *** [changeDateTimeForRollover] with [int] locals

    The six locals are [int]s: an addition or subtraction whose result
    leaves the range of [int] is signed overflow, after which the C++ run
    has no defined result.  The run below performs the same steps as the
    one above and stops with [Overflow] at such an operation. *)

Inductive Outcome (A : Type) : Type :=
| Returns (a : A)
| Overflow.

Arguments Returns {A} a.
Arguments Overflow {A}.

Module Checked.

(** The result of an [int] operation, if it is an [int]. *)
Definition int (z : Z) : option Z :=
  if (INT_MIN <=? z) && (z <=? INT_MAX) then Some z else None.

Definition bind {A B : Type} (x : option A) (f : A -> option B) : option B :=
  match x with
  | Some a => f a
  | None => None
  end.

Notation "x <- e ;; f" := (bind e (fun x => f))
  (at level 61, e at next level, right associativity).

(** The cases [0] and [13] compute [year-1] and [year+1]. *)
Definition numberOfDaysInMonthInYear (month year : Z) : option Z :=
  match month with
  | 0 => y <- int (year - 1) ;; Some (daysInProperMonth 12 y)
  | 13 => y <- int (year + 1) ;; Some (daysInProperMonth 1 y)
  | _ => Some (daysInProperMonth month year)
  end.

Definition secCarry (st : Rollover) : option Rollover :=
  os' <- int (os st - 60) ;;
  omin' <- int (omin st + 1) ;;
  Some (mkRollover (oy st) (om st) (od st) (oh st) omin' os' true).
Definition secBorrow (st : Rollover) : option Rollover :=
  os' <- int (os st + 60) ;;
  omin' <- int (omin st - 1) ;;
  Some (mkRollover (oy st) (om st) (od st) (oh st) omin' os' true).

Definition minCarry (st : Rollover) : option Rollover :=
  omin' <- int (omin st - 60) ;;
  oh' <- int (oh st + 1) ;;
  Some (mkRollover (oy st) (om st) (od st) oh' omin' (os st) true).
Definition minBorrow (st : Rollover) : option Rollover :=
  omin' <- int (omin st + 60) ;;
  oh' <- int (oh st - 1) ;;
  Some (mkRollover (oy st) (om st) (od st) oh' omin' (os st) true).

Definition hourCarry (st : Rollover) : option Rollover :=
  oh' <- int (oh st - 24) ;;
  od' <- int (od st + 1) ;;
  Some (mkRollover (oy st) (om st) od' oh' (omin st) (os st) true).
Definition hourBorrow (st : Rollover) : option Rollover :=
  oh' <- int (oh st + 24) ;;
  od' <- int (od st - 1) ;;
  Some (mkRollover (oy st) (om st) od' oh' (omin st) (os st) true).

Definition dayCarry (st : Rollover) : option Rollover :=
  days <- numberOfDaysInMonthInYear (om st) (oy st) ;;
  od' <- int (od st - days) ;;
  om' <- int (om st + 1) ;;
  if 12 <? om'
  then
    om'' <- int (om' - 12) ;;
    oy' <- int (oy st + 1) ;;
    Some (mkRollover oy' om'' od' (oh st) (omin st) (os st) true)
  else Some (mkRollover (oy st) om' od' (oh st) (omin st) (os st) true).

Definition dayBorrow (st : Rollover) : option Rollover :=
  before <- int (om st - 1) ;;
  days <- numberOfDaysInMonthInYear before (oy st) ;;
  od' <- int (od st + days) ;;
  om' <- int (om st - 1) ;;
  if om' <? 1
  then
    om'' <- int (om' + 12) ;;
    oy' <- int (oy st - 1) ;;
    Some (mkRollover oy' om'' od' (oh st) (omin st) (os st) true)
  else Some (mkRollover (oy st) om' od' (oh st) (omin st) (os st) true).

Definition monthCarry (st : Rollover) : option Rollover :=
  om' <- int (om st - 12) ;;
  oy' <- int (oy st + 1) ;;
  Some (mkRollover oy' om' (od st) (oh st) (omin st) (os st) true).
Definition monthBorrow (st : Rollover) : option Rollover :=
  om' <- int (om st + 12) ;;
  oy' <- int (oy st - 1) ;;
  Some (mkRollover oy' om' (od st) (oh st) (omin st) (os st) true).

(** The ten loops; the condition of the seventh calls
    [numberOfDaysInMonthInYear]. *)
Definition loops
  : list ((Rollover -> option bool) * (Rollover -> option Rollover)) :=
  [ (fun st => Some (59 <? os st), secCarry);
    (fun st => Some (os st <? 0), secBorrow);
    (fun st => Some (59 <? omin st), minCarry);
    (fun st => Some (omin st <? 0), minBorrow);
    (fun st => Some (23 <? oh st), hourCarry);
    (fun st => Some (oh st <? 0), hourBorrow);
    (fun st =>
       days <- numberOfDaysInMonthInYear (om st) (oy st) ;;
       Some (days <? od st),
     dayCarry);
    (fun st => Some (od st <? 1), dayBorrow);
    (fun st => Some (12 <? om st), monthCarry);
    (fun st => Some (om st <? 1), monthBorrow) ].

(** [None] when the fuel does not reach the exit. *)
Fixpoint while (fuel : nat) (cond : Rollover -> option bool)
         (body : Rollover -> option Rollover) (st : Rollover)
  : option (Outcome Rollover) :=
  match fuel with
  | O => None
  | S fuel' =>
      match cond st with
      | None => Some Overflow
      | Some false => Some (Returns st)
      | Some true =>
          match body st with
          | None => Some Overflow
          | Some st' => while fuel' cond body st'
          end
      end
  end.

Fixpoint runLoops (fuel : nat)
         (ls : list ((Rollover -> option bool) * (Rollover -> option Rollover)))
         (st : Rollover) : option (Outcome Rollover) :=
  match ls with
  | [] => Some (Returns st)
  | (cond, body) :: ls' =>
      match while fuel cond body st with
      | Some (Returns st') => runLoops fuel ls' st'
      | Some Overflow => Some Overflow
      | None => None
      end
  end.

(** The result is the returned flag and the contents of the six output
    cells after the call; [out] is their contents before it. *)
Definition changeDateTimeForRollover (fuel : nat) (y m d h mi s : Z)
           (out : Outputs) : option (Outcome (bool * Outputs)) :=
  match runLoops fuel loops (mkRollover y m d h mi s false) with
  | Some (Returns st) =>
      let st := epochHole st in
      Some (Returns (change st, writeBack st out))
  | Some Overflow => Some Overflow
  | None => None
  end.

End Checked.

End StelUtils.

Import StelUtils.

(** ** Vocabulary of the specification *)

(** Leap years as the specification words them. *)
Definition julianLeap (year : Z) : bool := year mod 4 =? 0.

Definition gregorianLeap (year : Z) : bool :=
  (year mod 4 =? 0) && (negb (year mod 100 =? 0) || (year mod 400 =? 0)).

(** The length of a proper month under the calendar in force in [year]. *)
Definition monthLength (month year : Z) : Z :=
  match month with
  | 2 => if (if 1582 <? year then gregorianLeap year else julianLeap year)
         then 29 else 28
  | 4 | 6 | 9 | 11 => 30
  | _ => 31
  end.

(** What [getJDFromDate] takes for granted when it lets [QDate] answer:
    for a date [QDate] accepts, its day number is the one the fallback
    arithmetic of the [else] branch computes. *)
Definition QDate_agrees (qd : QDateApi) (y m d : Z) : Prop :=
  QDate_isValid qd (qdateYear y) m d = true ->
  QDate_toJulianDay qd (qdateYear y) m d = ljulOf y m d.

(** The day count of the Julian calendar for the March-based year [jy]
    and the shifted month [jm] (March is 4, February of the next civil
    year is 15): what [ljulOf] computes before its Gregorian correction. *)
Definition lbbOf (jm : Z) : Z := 306001 * jm / 10000.
Definition marchCount (jy jm d : Z) : Z :=
  1461 * jy / 4 + lbbOf jm + d + 1720995.

(** ** An implementation of the [QDate] interface

    After the documented behaviour of Qt 4: the Julian calendar up to
    4 October 1582, the Gregorian calendar from 15 October 1582, no year
    zero.  It stands for Qt wherever a property is applied to concrete
    dates. *)

Definition QDate4_isLeapYear (y : Z) : bool :=
  if y <? 1582
  then C.rem (if y <? 1 then y + 1 else y) 4 =? 0
  else ((C.rem y 4 =? 0) && negb (C.rem y 100 =? 0)) || (C.rem y 400 =? 0).

Definition QDate4_monthDays (month : Z) : Z :=
  nth (Z.to_nat month) [0; 31; 28; 31; 30; 31; 30; 31; 31; 30; 31; 30; 31] 0.

Definition QDate4_isValid (year month day : Z) : bool :=
  if (year <? -4713)
     || ((year =? -4713)
         && ((month <? 1) || ((month =? 1) && (day <? 2))))
     || (year =? 0)
  then false
  else if (year =? 1582) && (month =? 10) && (4 <? day) && (day <? 15)
  then false
  else (0 <? day) && (0 <? month) && (month <=? 12)
       && ((day <=? QDate4_monthDays month)
           || ((day =? 29) && (month =? 2) && QDate4_isLeapYear year)).

Definition QDate4_toJulianDay (year month day : Z) : Z :=
  let year := if year <? 0 then year + 1 else year in
  if (1582 <? year)
     || ((year =? 1582)
         && ((10 <? month) || ((month =? 10) && (15 <=? day))))
  then
    C.div (1461 * (year + 4800 + C.div (month - 14) 12)) 4
    + C.div (367 * (month - 2 - 12 * C.div (month - 14) 12)) 12
    - C.div (3 * C.div (year + 4900 + C.div (month - 14) 12) 100) 4
    + day - 32075
  else if (year <? 1582)
          || ((year =? 1582)
              && ((month <? 10) || ((month =? 10) && (day <=? 4))))
  then
    let a := C.div (14 - month) 12 in
    C.div (153 * (month + 12 * a - 3) + 2) 5
    + C.div (1461 * (year + 4800 - a)) 4
    + day - 32083
  else 0.

Definition QDate4 : QDateApi :=
  {| QDate_isValid := QDate4_isValid; QDate_toJulianDay := QDate4_toJulianDay |}.


(** A fuel-indexed computation that settles on [a] once it has enough fuel. *)
Definition settles {A : Type} (run : nat -> option A) (a : A) : Prop :=
  exists n : nat, forall fuel : nat, (n <= fuel)%nat -> run fuel = Some a.

Definition secondsOK (st : Rollover) : Prop := 0 <= os st <= 59.
Definition minutesOK (st : Rollover) : Prop := 0 <= omin st <= 59.
Definition hoursOK (st : Rollover) : Prop := 0 <= oh st <= 23.
Definition clockOK (st : Rollover) : Prop :=
  secondsOK st /\ minutesOK st /\ hoursOK st.
Definition dayFits (st : Rollover) : Prop :=
  od st <= numberOfDaysInMonthInYear (om st) (oy st).

(** A valid calendar date and time. *)
Definition normalised (st : Rollover) : Prop :=
  clockOK st /\ 1 <= om st <= 12
  /\ 1 <= od st <= numberOfDaysInMonthInYear (om st) (oy st).

(** How far a month number is from the range the month table answers. *)
Definition monthOvershoot (m : Z) : nat :=
  if 13 <? m then Z.to_nat (m - 13)
  else if m <? 0 then Z.to_nat (- m) else 0%nat.


(** The decimal year as the specification words it: [day/31] is the
    quotient of real numbers. *)
Definition specDecimalYear (year month day : Z) : Q :=
  (inject_Z year
   + (inject_Z (month - 1) * 30.5 + inject_Z day / 31 * 30.5) / 366)%Q.

(** Linear interpolation between [a] and [b] at the fraction [w]. *)
Definition lerp (a b w : Q) : Q := ((1 - w) * a + w * b)%Q.

(** The last polynomial of [getDeltaTByMeeusSimons]. *)
Definition meeusSimonsLast (yeardec : Q) : Q :=
  (let u := 0.05 + (yeardec - 2000) / 100 in
   60.8 + 82.0 * u + 188.0 * u ^ 2 - 5034.0 * u ^ 3)%Q.

Inductive Matches : regex -> list ascii -> Prop :=
| MEps : Matches Eps []
| MClass (p : ascii -> bool) (c : ascii) :
    p c = true -> Matches (Class p) [c]
| MSeq (r1 r2 : regex) (s1 s2 : list ascii) :
    Matches r1 s1 -> Matches r2 s2 -> Matches (Seq r1 r2) (s1 ++ s2)
| MAltL (r1 r2 : regex) (s : list ascii) :
    Matches r1 s -> Matches (Alt r1 r2) s
| MAltR (r1 r2 : regex) (s : list ascii) :
    Matches r2 s -> Matches (Alt r1 r2) s
| MStarNil (r : regex) : Matches (Star r) []
| MStarApp (r : regex) (s1 s2 : list ascii) :
    Matches r s1 -> Matches (Star r) s2 -> Matches (Star r) (s1 ++ s2)
| MGroup (r : regex) (s : list ascii) :
    Matches r s -> Matches (Group r) s.

Definition allDigits (t : list ascii) : bool := forallb isDigit t.

(** [n] digits. *)
Definition nDigits (n : nat) (t : list ascii) : bool :=
  (List.length t =? n)%nat && allDigits t.

(** Nothing or one sign. *)
Definition isSignText (t : list ascii) : bool :=
  match t with
  | [] => true
  | [c] => isSign c
  | _ => false
  end.

(** Nothing, or a point and digits (possibly none). *)
Definition isFractionText (t : list ascii) : bool :=
  match t with
  | [] => true
  | c :: fd => Ascii.eqb c "." && allDigits fd
  end.

(** The parts of an accepted text. *)
Record IsoParts : Type := mkIsoParts {
  pSign : list ascii;
  pYear : list ascii;
  pSep1 : ascii;
  pMonth : list ascii;
  pSep2 : ascii;
  pDay : list ascii;
  pHour : list ascii;
  pMinute : list ascii;
  pSecond : list ascii;
  pFraction : list ascii
}.

Definition wellFormed (p : IsoParts) : bool :=
  isSignText (pSign p)
  && negb (Nat.eqb (List.length (pYear p)) 0) && allDigits (pYear p)
  && isSep (pSep1 p) && nDigits 2 (pMonth p)
  && isSep (pSep2 p) && nDigits 2 (pDay p)
  && (nDigits 1 (pHour p) || nDigits 2 (pHour p))
  && nDigits 2 (pMinute p)
  && nDigits 2 (pSecond p) && isFractionText (pFraction p).

Definition assemble (p : IsoParts) : list ascii :=
  (pSign p ++ pYear p) ++ pSep1 p :: pMonth p ++ pSep2 p :: pDay p
  ++ "T"%char :: pHour p ++ ":"%char :: pMinute p
  ++ ":"%char :: (pSecond p ++ pFraction p).

(** The signed value of the year. *)
Definition yearValue (p : IsoParts) : Z :=
  match pSign p with
  | [c] => if Ascii.eqb c "-" then - digitsValue (pYear p)
           else digitsValue (pYear p)
  | _ => digitsValue (pYear p)
  end.

(** The seconds an accepted text denotes. *)
Definition secondsValue (p : IsoParts) : Q :=
  fst (toFloat (pSecond p ++ pFraction p)).

(** The flag [getDateTimeFromISO8601String] returns. *)
Definition isoAccepted (s : list ascii) : bool :=
  match getDateTimeFromISO8601String s with
  | Some _ => true
  | None => false
  end.

(** The pattern as the specification words it: a sign or none, the digits
    of the year, and two digits for each of month, day, hour, minute and
    second, with an optional fraction. *)
Definition specIsoPattern : regex :=
  Seq reYear
  (Seq (Class isSep)
  (Seq reTwoDigits
  (Seq (Class isSep)
  (Seq reTwoDigits
  (Seq (Chr "T")
  (Seq reTwoDigits
  (Seq (Chr ":")
  (Seq reTwoDigits
  (Seq (Chr ":")
       reSeconds))))))))).

(** The year correction of [getDateFromJulianDay] for negative day numbers. *)
Definition centuryShift (julian : Z) : Z :=
  if julian <? 0 then 100 * (1 - C.div julian 36525) else 0.

(** A date of the Julian calendar: up to 4 October 1582. *)
Definition beforeReform (y m d : Z) : Prop :=
  y < 1582 \/ (y = 1582 /\ (m < 10 \/ (m = 10 /\ d <= 4))).

(** The day numbers whose year fits an [int]. *)
Definition JULIAN_LIMIT : Z := 700000000000.

(** The dates on which the two algorithms agree: 1 March 1800 to the end
    of February 2100. *)
Definition alg2Range (y m : Z) : Prop :=
  (y = 1800 /\ 3 <= m) \/ (1800 < y < 2100) \/ (y = 2100 /\ m <= 2).

(** A tuple that is already a date and a time of day. *)
Definition inputValid (y m d h mi s : Z) : Prop :=
  0 <= s <= 59 /\ 0 <= mi <= 59 /\ 0 <= h <= 23
  /\ 1 <= m <= 12 /\ 1 <= d <= numberOfDaysInMonthInYear m y.

(** A tuple in the hole of October 1582. *)
Definition inEpochHole (y m d : Z) : Prop :=
  y = 1582 /\ m = 10 /\ 4 < d < 15.

(** The parts of the text [julianDayToISO8601String] writes for the six
    fields. *)
Definition textParts (year month day hour minute second : Z) : IsoParts :=
  mkIsoParts (if year <? 0 then ["-"%char] else [])
             (arg (if 0 <=? year then year else -1 * year) 4 "0")
             "-" (arg month 2 "0") "-" (arg day 2 "0")
             (arg hour 2 "0") (arg minute 2 "0") (arg second 2 "0") [].

(** The order of the calendar. *)
Definition dateBefore (y m d y' m' d' : Z) : Prop :=
  y < y' \/ (y = y' /\ (m < m' \/ (m = m' /\ d < d'))).

(** The Gregorian correction of [ljulOf], and none for the Julian
    calendar. *)
Definition centuryTerm (gregorian : bool) (jy : Z) : Z :=
  if gregorian then 2 - jy / 100 + jy / 100 / 4 else 0.

(** The leap rule of either calendar. *)
Definition leapIn (gregorian : bool) (year : Z) : bool :=
  if gregorian then gregorianLeap year else julianLeap year.

(** The fields [date_of_ta] computes, before it stores them in [int]s. *)
Definition dateFields (julian ta : Z) : Z * Z * Z :=
  let tb := ta + 1524 in
  let tc :=
    if tb <=? JB_MAX_WITHOUT_OVERFLOW
    then C.div (tb * 20 - 2442) 7305
    else C.div (C.to_ull (C.to_ull (C.to_ull tb * 20) - 2442)) 7305 in
  let td := 365 * tc + C.div tc 4 in
  let te := C.div ((tb - td) * 10000) 306001 in
  let dd := tb - td - C.div (306001 * te) 10000 in
  let mm := te - 1 in
  let mm := if 12 <? mm then mm - 12 else mm in
  let yy := tc - 4715 in
  let yy := if 2 <? mm then yy - 1 else yy in
  let yy := if julian <? 0 then yy - 100 * (1 - C.div julian 36525) else yy in
  (yy, mm, dd).

Definition fieldsOfJulian (julian : Z) : Z * Z * Z :=
  dateFields julian (ta_of julian).

(** What [getJDFromDate] returns for a day number and a time of day. *)
Definition jdOf (n h mi s : Z) : Q :=
  Binary64.add (Binary64.of_Z n) (deltaTime h mi s).

(** The day numbers for which the date survives the rounding of the
    Julian Day ([2 ^ 35]), and those for which the second does
    ([2 ^ 24]). *)
Definition DATE_LIMIT : Z := 34359738368.
Definition TIME_LIMIT : Z := 16777216.

(** A checked condition or body that has a value agrees with the one on
    the integers. *)
Definition agrees
  (checked : (Rollover -> option bool) * (Rollover -> option Rollover))
  (plain : (Rollover -> bool) * (Rollover -> Rollover)) : Prop :=
  (forall st v, fst checked st = Some v -> v = fst plain st)
  /\ (forall st st', snd checked st = Some st' -> st' = snd plain st).



(** * Properties *)

(** ** Arithmetic helpers *)

Ltac zdiv := Z.div_mod_to_equations; lia.

Lemma cdiv_nonneg (a b : Z) : 0 <= a -> 0 < b -> C.div a b = a / b.
Proof. intros Ha Hb. unfold C.div. apply Z.quot_div_nonneg; lia. Qed.

Lemma crem_nonneg (a b : Z) : 0 <= a -> 0 < b -> C.rem a b = a mod b.
Proof. intros Ha Hb. unfold C.rem. apply Z.rem_mod_nonneg; lia. Qed.

(** The truncating remainder vanishes exactly when the floored one does. *)
Lemma crem_zero_iff (a b : Z) : 0 < b -> (C.rem a b =? 0) = (a mod b =? 0).
Proof.
  intros Hb. unfold C.rem.
  destruct (Z.eqb_spec (Z.rem a b) 0) as [Hr | Hr];
    destruct (Z.eqb_spec (a mod b) 0) as [Hm | Hm]; try reflexivity; exfalso.
  - apply Hm. apply Z.mod_divide; [lia |]. apply Z.rem_divide; [lia | exact Hr].
  - apply Hr. apply Z.rem_divide; [lia |]. apply Z.mod_divide; [lia | exact Hm].
Qed.

Lemma to_ull_small (a : Z) :
  0 <= a < 18446744073709551616 -> C.to_ull a = a.
Proof. intros Ha. unfold C.to_ull. apply Z.mod_small. exact Ha. Qed.

Lemma february_length (year : Z) :
  numberOfDaysInMonthInYear 2 year =
  if 1582 <? year
  then (if gregorianLeap year then 29 else 28)
  else (if julianLeap year then 29 else 28).
Proof.
  unfold numberOfDaysInMonthInYear, daysInProperMonth, gregorianLeap, julianLeap.
  rewrite !crem_zero_iff by lia.
  destruct (1582 <? year); destruct (year mod 4 =? 0);
    destruct (year mod 100 =? 0); destruct (year mod 400 =? 0); reflexivity.
Qed.

Lemma proper_month_cases (m : Z) :
  1 <= m <= 12 ->
  m = 1 \/ m = 2 \/ m = 3 \/ m = 4 \/ m = 5 \/ m = 6 \/
  m = 7 \/ m = 8 \/ m = 9 \/ m = 10 \/ m = 11 \/ m = 12.
Proof. lia. Qed.

Ltac each_month H :=
  apply proper_month_cases in H;
  repeat (destruct H as [H | H]); subst.

Lemma days_monthLength (month year : Z) :
  1 <= month <= 12 ->
  numberOfDaysInMonthInYear month year = monthLength month year.
Proof.
  intros Hm. each_month Hm; try reflexivity.
  rewrite february_length. unfold monthLength.
  destruct (1582 <? year); reflexivity.
Qed.

(** C3: February has 29 days exactly in the leap years of the rule in force:
    the Gregorian rule (divisible by 4, centuries only when divisible by
    400) for years after 1582, the Julian rule (divisible by 4) for 1582
    and before; so 2000, 1600 and 1500 have 29 days and 1900 has 28. *)
Theorem C3_leap_rule_switches_after_1582 :
  (forall year : Z,
      numberOfDaysInMonthInYear 2 year =
      if 1582 <? year
      then (if gregorianLeap year then 29 else 28)
      else (if julianLeap year then 29 else 28))
  /\ numberOfDaysInMonthInYear 2 2000 = 29
  /\ numberOfDaysInMonthInYear 2 1900 = 28
  /\ numberOfDaysInMonthInYear 2 1600 = 29
  /\ numberOfDaysInMonthInYear 2 1500 = 29.
Proof.
  split; [exact february_length |].
  repeat split; reflexivity.
Qed.

(** ** Inverting the day count *)

Lemma shifted_month_cases (jm : Z) :
  4 <= jm <= 15 ->
  jm = 4 \/ jm = 5 \/ jm = 6 \/ jm = 7 \/ jm = 8 \/ jm = 9 \/
  jm = 10 \/ jm = 11 \/ jm = 12 \/ jm = 13 \/ jm = 14 \/ jm = 15.
Proof. lia. Qed.

Ltac each_shifted_month H :=
  apply shifted_month_cases in H;
  repeat (destruct H as [H | H]); subst.

(** Both ways of computing [tc] give the floored quotient as long as the
    product fits the unsigned type. *)
Lemma tc_value (tb : Z) :
  2442 <= tb * 20 < 18446744073709551616 ->
  (if tb <=? JB_MAX_WITHOUT_OVERFLOW
   then C.div (tb * 20 - 2442) 7305
   else C.div (C.to_ull (C.to_ull (C.to_ull tb * 20) - 2442)) 7305)
  = (tb * 20 - 2442) / 7305.
Proof.
  intros Hb. destruct (tb <=? JB_MAX_WITHOUT_OVERFLOW).
  - apply cdiv_nonneg; lia.
  - rewrite (to_ull_small tb) by lia.
    rewrite (to_ull_small (tb * 20)) by lia.
    rewrite to_ull_small by lia.
    apply cdiv_nonneg; lia.
Qed.

(** From the Julian-calendar day count of a date back to the date. *)
Lemma dateFields_of_marchCount (julian jy jm d : Z) :
  0 <= julian -> 0 <= jy <= INT_MAX -> 4 <= jm <= 15 -> 1 <= d ->
  d <= lbbOf (jm + 1) - lbbOf jm ->
  (jm = 15 -> d <= 28 + (if (jy + 1) mod 4 =? 0 then 1 else 0)) ->
  dateFields julian (marchCount jy jm d)
  = (if jm <=? 13 then jy else jy + 1,
     if jm <=? 13 then jm - 1 else jm - 13,
     d).
Proof.
  intros Hj Hy Hm Hd Hlen Hfeb.
  assert (Hd31 : d <= 31) by (unfold lbbOf in Hlen; zdiv).
  unfold dateFields, INT_MAX in *.
  set (tb := marchCount jy jm d + 1524).
  assert (Hpos : 2442 <= tb * 20 < 18446744073709551616)
    by (unfold tb, marchCount, lbbOf; zdiv).
  rewrite (tc_value tb Hpos). cbv zeta.
  assert (Htc : (tb * 20 - 2442) / 7305 = jy + 4716).
  { unfold tb, marchCount.
    destruct (Z.eqb_spec ((jy + 1) mod 4) 0);
      each_shifted_month Hm; unfold lbbOf in *; zdiv. }
  rewrite Htc.
  rewrite (cdiv_nonneg (jy + 4716)) by lia.
  assert (Hte : C.div ((tb - (365 * (jy + 4716) + (jy + 4716) / 4)) * 10000)
                      306001 = jm).
  { unfold tb, marchCount.
    destruct (Z.eqb_spec ((jy + 1) mod 4) 0);
      each_shifted_month Hm; unfold lbbOf in *;
      rewrite cdiv_nonneg by zdiv; zdiv. }
  rewrite Hte.
  replace (julian <? 0) with false by (symmetry; apply Z.ltb_ge; lia).
  rewrite (cdiv_nonneg (306001 * jm)) by lia.
  fold (lbbOf jm).
  repeat match goal with
         | |- context [if ?a <? ?b then _ else _] => destruct (Z.ltb_spec a b)
         | |- context [if ?a <=? ?b then _ else _] => destruct (Z.leb_spec a b)
         end; try lia;
    (f_equal; [f_equal |]); try lia; unfold tb, marchCount; zdiv.
Qed.

(** The Gregorian branch of [getDateFromJulianDay] undoes the Gregorian
    correction of [ljulOf]. *)
Lemma gregorian_ta_marchCount (jy jm d : Z) :
  1582 <= jy -> 4 <= jm <= 15 -> 1 <= d ->
  d <= lbbOf (jm + 1) - lbbOf jm ->
  (jm = 15 -> d <= 28 + (if gregorianLeap (jy + 1) then 1 else 0)) ->
  (jy = 1582 -> 15 <= d + 31 * (jm - 1) - 31 * 10) ->
  let J := marchCount jy jm d + (2 - jy / 100 + jy / 100 / 4) in
  JD_GREG_CAL <= J /\ gregorian_ta J = marchCount jy jm d.
Proof.
  intros Hy Hm Hd Hlen Hfeb H1582 J.
  assert (Hd31 : d <= 31) by (unfold lbbOf in Hlen; zdiv).
  assert (HJ : JD_GREG_CAL <= J)
    by (unfold J, marchCount, JD_GREG_CAL, lbbOf in *; zdiv).
  split; [exact HJ |].
  unfold gregorian_ta, gregorianLeap in *.
  assert (Ha : C.div (4 * (J - 1867216) - 1) 146097 = jy / 100 - 4).
  { rewrite cdiv_nonneg by (unfold JD_GREG_CAL in HJ; lia).
    unfold J, marchCount.
    destruct (Z.eqb_spec ((jy + 1) mod 4) 0);
      destruct (Z.eqb_spec ((jy + 1) mod 100) 0);
      destruct (Z.eqb_spec ((jy + 1) mod 400) 0);
      cbn [andb orb negb] in Hfeb;
      each_shifted_month Hm; unfold lbbOf in *; zdiv. }
  rewrite Ha. rewrite cdiv_nonneg by zdiv.
  unfold J. zdiv.
Qed.

(** For a date after 1582 [ljulOf] is the Julian-calendar count plus the
    Gregorian correction. *)
Lemma ljulOf_gregorian (y m d : Z) :
  1582 < y -> 1 <= m <= 12 -> 1 <= d ->
  let jy := if 2 <? m then y else y - 1 in
  let jm := if 2 <? m then m + 1 else m + 13 in
  ljulOf y m d = marchCount jy jm d + (2 - jy / 100 + jy / 100 / 4).
Proof.
  intros Hy Hm Hd jy jm. unfold ljulOf.
  assert (Hjy : 1582 <= jy) by (unfold jy; destruct (2 <? m); lia).
  replace (if 2 <? m then (y, m + 1) else (y - 1, m + 13)) with (jy, jm)
    by (unfold jy, jm; destruct (2 <? m); reflexivity).
  cbv zeta.
  replace (jy <? 0) with false by (symmetry; apply Z.ltb_ge; lia).
  cbn [andb].
  replace (IGREG2 <=? d + 31 * (m + 12 * y)) with true
    by (symmetry; apply Z.leb_le; unfold IGREG2; lia).
  rewrite (cdiv_nonneg jy 100) by lia.
  replace (jy / 100 <? 0) with false by (symmetry; apply Z.ltb_ge; zdiv).
  cbn [andb].
  assert (Hjm : 4 <= jm) by (unfold jm; destruct (Z.ltb_spec 2 m); lia).
  assert (Hcc : 0 <= jy / 100) by zdiv.
  rewrite (cdiv_nonneg (1461 * jy)) by lia.
  rewrite (cdiv_nonneg (306001 * jm)) by lia.
  rewrite (cdiv_nonneg (jy / 100)) by lia.
  reflexivity.
Qed.

(** The integer core of the round trip: the day number [ljulOf] assigns to
    a valid date after 1582 is mapped back to that date. *)
Lemma fieldsOfJulian_ljulOf (y m d : Z) :
  1582 < y <= INT_MAX -> 1 <= m <= 12 ->
  1 <= d <= numberOfDaysInMonthInYear m y ->
  fieldsOfJulian (ljulOf y m d) = (y, m, d).
Proof.
  intros Hy Hm Hd.
  rewrite days_monthLength in Hd by exact Hm.
  rewrite ljulOf_gregorian by lia. cbv zeta.
  set (jy := if 2 <? m then y else y - 1).
  set (jm := if 2 <? m then m + 1 else m + 13).
  assert (Hjy : 1582 <= jy <= INT_MAX) by (unfold jy; destruct (2 <? m); lia).
  assert (Hjm : 4 <= jm <= 15)
    by (unfold jm; destruct (Z.ltb_spec 2 m); lia).
  assert (Hlen : d <= lbbOf (jm + 1) - lbbOf jm).
  { unfold jm. unfold monthLength in Hd.
    each_month Hm; cbn [Z.ltb Z.compare Pos.compare Pos.compare_cont];
      try (vm_compute (lbbOf _ - lbbOf _); lia).
    vm_compute (lbbOf _ - lbbOf _).
    destruct (if 1582 <? y then gregorianLeap y else julianLeap y); lia. }
  assert (Hfeb : jm = 15 -> d <= 28 + (if gregorianLeap (jy + 1) then 1 else 0)).
  { unfold jm, jy. intros H15.
    destruct (Z.ltb_spec 2 m) as [H2 | H2]; [lia |].
    assert (m = 2) by lia. subst m.
    unfold monthLength in Hd.
    replace (1582 <? y) with true in Hd by (symmetry; apply Z.ltb_lt; lia).
    replace (y - 1 + 1) with y by lia.
    destruct (gregorianLeap y); lia. }
  assert (H1582 : jy = 1582 -> 15 <= d + 31 * (jm - 1) - 31 * 10)
    by (unfold jy, jm; destruct (Z.ltb_spec 2 m); lia).
  pose proof (gregorian_ta_marchCount jy jm d ltac:(lia) Hjm ltac:(lia)
                Hlen Hfeb H1582) as [HJ Hta].
  unfold fieldsOfJulian, ta_of.
  replace (JD_GREG_CAL <=? _) with true by (symmetry; apply Z.leb_le; exact HJ).
  rewrite Hta.
  rewrite dateFields_of_marchCount; try lia.
  - unfold jy, jm.
    destruct (Z.ltb_spec 2 m) as [H2 | H2].
    + replace (m + 1 <=? 13) with true by (symmetry; apply Z.leb_le; lia).
      f_equal. f_equal. lia.
    + replace (m + 13 <=? 13) with false by (symmetry; apply Z.leb_gt; lia).
      f_equal. f_equal; lia.
  - unfold JD_GREG_CAL in HJ. lia.
  - intros H15. specialize (Hfeb H15). unfold gregorianLeap in Hfeb.
    destruct ((jy + 1) mod 4 =? 0); [| cbn [andb] in Hfeb; lia].
    destruct (_ || _) in Hfeb; cbn [andb] in Hfeb; lia.
Qed.

(** ** Rounding to the nearest [double] *)

Import Binary64.

Lemma pow2_pos (k : Z) : (0 < pow2 k)%Q.
Proof. apply Qpower_0_lt. reflexivity. Qed.

Lemma pow2_add (a b : Z) : (pow2 (a + b) == pow2 a * pow2 b)%Q.
Proof. apply Qpower_plus. discriminate. Qed.

Lemma pow2_succ (k : Z) : (pow2 (k + 1) == 2 * pow2 k)%Q.
Proof. rewrite pow2_add. change (pow2 1) with 2%Q. ring. Qed.

Lemma pow2_le (a b : Z) : a <= b -> (pow2 a <= pow2 b)%Q.
Proof. intros H. apply Qpower_le_compat_l; [exact H | discriminate]. Qed.

Lemma pow2_lt (a b : Z) : a < b -> (pow2 a < pow2 b)%Q.
Proof. intros H. apply Qpower_lt_compat_l; [exact H | reflexivity]. Qed.

Lemma pow2_lt_inv (a b : Z) : (pow2 a < pow2 b)%Q -> a < b.
Proof. intros H. apply (Qpower_lt_compat_l_inv 2); [exact H | reflexivity]. Qed.

Lemma pow2_Z (k : Z) : 0 <= k -> (pow2 k == inject_Z (2 ^ k))%Q.
Proof. intros H. symmetry. apply (Zpower_Qpower 2 k H). Qed.

(** *** The nearest integer *)

Lemma rne_cases (q : Q) :
  (rne q = Qfloor q /\ (q - inject_Z (Qfloor q) <= 1 # 2)%Q)
  \/ (rne q = Qfloor q + 1 /\ (1 # 2 <= q - inject_Z (Qfloor q))%Q).
Proof.
  unfold rne. cbv zeta.
  destruct (Qcompare_spec (q - inject_Z (Qfloor q)) (1 # 2)) as [H | H | H].
  - destruct (Z.even (Qfloor q)); [left | right]; split; trivial;
      rewrite H; apply Qle_refl.
  - left. split; [reflexivity | apply Qlt_le_weak; exact H].
  - right. split; [reflexivity | apply Qlt_le_weak; exact H].
Qed.

Lemma rne_near (q : Q) :
  (q - (1 # 2) <= inject_Z (rne q) <= q + (1 # 2))%Q.
Proof.
  pose proof (Qfloor_le q) as Hlo. pose proof (Qlt_floor q) as Hhi.
  rewrite inject_Z_plus in Hhi. change (inject_Z 1) with 1%Q in Hhi.
  destruct (rne_cases q) as [[-> H] | [-> H]].
  - split; lra.
  - rewrite inject_Z_plus. change (inject_Z 1) with 1%Q. split; lra.
Qed.

Lemma rne_Z (n : Z) : rne (inject_Z n) = n.
Proof.
  unfold rne. cbv zeta. rewrite Qfloor_Z.
  replace (inject_Z n - inject_Z n ?= 1 # 2)%Q with Lt; [reflexivity |].
  symmetry. change (inject_Z n - inject_Z n < 1 # 2)%Q. lra.
Qed.

Lemma rne_mono (p q : Q) : (p <= q)%Q -> rne p <= rne q.
Proof.
  intros Hle.
  pose proof (Qfloor_resp_le p q Hle) as Hf.
  destruct (Z.eq_dec (Qfloor p) (Qfloor q)) as [Heq | Hne].
  - unfold rne. cbv zeta. rewrite Heq.
    destruct (Qcompare_spec (p - inject_Z (Qfloor q)) (1 # 2)) as [H | H | H];
      destruct (Qcompare_spec (q - inject_Z (Qfloor q)) (1 # 2)) as [K | K | K];
      destruct (Z.even (Qfloor q)); try lia; exfalso; lra.
  - destruct (rne_cases p) as [[-> _] | [-> _]];
      destruct (rne_cases q) as [[-> _] | [-> _]]; lia.
Qed.

#[global] Instance rne_comp : Proper (Qeq ==> eq) rne.
Proof.
  intros p q H. apply Z.le_antisymm; apply rne_mono; lra.
Qed.

(** *** The binade of a number *)

Lemma log2_bounds_Q (n : Z) :
  0 < n ->
  (pow2 (Z.log2 n) <= inject_Z n < 2 * pow2 (Z.log2 n))%Q.
Proof.
  intros Hn. destruct (Z.log2_spec n Hn) as [Hlo Hhi].
  pose proof (Z.log2_nonneg n) as Hnn.
  rewrite <- pow2_succ. rewrite !pow2_Z by lia. split.
  - rewrite <- Zle_Qle. exact Hlo.
  - rewrite <- Zlt_Qlt. exact Hhi.
Qed.

Lemma ilog2_spec (x : Q) :
  ~ (x == 0)%Q ->
  (pow2 (ilog2 x) <= Qabs x < pow2 (ilog2 x + 1))%Q.
Proof.
  intros Hx. destruct x as [n d].
  assert (Hn : 0 < Z.abs n).
  { assert (n <> 0); [| lia]. intros ->. apply Hx. reflexivity. }
  unfold ilog2. cbn [Qnum Qden]. cbn [Qabs].
  pose proof (log2_bounds_Q (Z.abs n) Hn) as [HA1 HA2].
  pose proof (log2_bounds_Q (Z.pos d) ltac:(lia)) as [HB1 HB2].
  set (ln := Z.log2 (Z.abs n)) in *. set (ld := Z.log2 (Z.pos d)) in *.
  assert (HP : (pow2 (ln - ld) * pow2 ld == pow2 ln)%Q)
    by (rewrite <- pow2_add; replace (ln - ld + ld) with ln by lia; reflexivity).
  assert (HX : ((Z.abs n # d) * inject_Z (Z.pos d) == inject_Z (Z.abs n))%Q).
  { rewrite (Qmake_Qdiv (Z.abs n) d). field.
    intros H. apply (Qlt_irrefl 0). rewrite <- H at 2. reflexivity. }
  pose proof (pow2_pos (ln - ld)) as HPpos.
  pose proof (pow2_pos ld) as HBpos.
  assert (HXpos : (0 < Z.abs n # d)%Q) by (unfold Qlt; cbn; lia).
  set (X := (Z.abs n # d)%Q) in *. set (P := pow2 (ln - ld)) in *.
  set (A := pow2 ln) in *. set (B := pow2 ld) in *.
  set (Nq := inject_Z (Z.abs n)) in *. set (Dq := inject_Z (Z.pos d)) in *.
  assert (Hup : (X < 2 * P)%Q).
  { destruct (Qlt_le_dec X (2 * P)) as [H | H]; [exact H | exfalso].
    assert ((2 * P) * B <= X * Dq)%Q.
    { apply Qmult_le_compat_nonneg; split; lra. }
    lra. }
  assert (Hdown : (P < 2 * X)%Q).
  { destruct (Qlt_le_dec P (2 * X)) as [H | H]; [exact H | exfalso].
    assert (H1 : (X * Dq < X * (2 * B))%Q) by (apply Qmult_lt_l; lra).
    assert (H2 : ((2 * X) * B <= P * B)%Q)
      by (apply Qmult_le_compat_r; lra).
    lra. }
  destruct (Qle_bool P X) eqn:Ht.
  - apply Qle_bool_iff in Ht. split; [exact Ht |].
    rewrite pow2_succ. exact Hup.
  - assert (HXP : (X < P)%Q).
    { destruct (Qlt_le_dec X P) as [H | H]; [exact H |].
      apply Qle_bool_iff in H. rewrite H in Ht. discriminate Ht. }
    replace (ln - ld - 1 + 1) with (ln - ld) by lia. split; [| exact HXP].
    assert (Hs : (pow2 (ln - ld) == 2 * pow2 (ln - ld - 1))%Q)
      by (rewrite <- pow2_succ; replace (ln - ld - 1 + 1) with (ln - ld) by lia;
          reflexivity).
    fold P in Hs. lra.
Qed.

Lemma ilog2_unique (x : Q) (e : Z) :
  (pow2 e <= Qabs x < pow2 (e + 1))%Q -> ilog2 x = e.
Proof.
  intros [Hlo Hhi].
  assert (Hx : ~ (x == 0)%Q).
  { intros H. rewrite H in Hlo. pose proof (pow2_pos e). change (Qabs 0) with 0%Q in Hlo. lra. }
  destruct (ilog2_spec x Hx) as [Klo Khi].
  assert (ilog2 x < e + 1) by (apply pow2_lt_inv; lra).
  assert (e < ilog2 x + 1) by (apply pow2_lt_inv; lra).
  lia.
Qed.

(** *** Rounding on the grid of one binade *)

Lemma roundTo_near (e : Z) (x : Q) :
  (x - pow2 (e - 53) <= roundTo e x <= x + pow2 (e - 53))%Q.
Proof.
  unfold roundTo. pose proof (pow2_pos (e - 52)) as Hu.
  pose proof (rne_near (x / pow2 (e - 52))) as [Hlo Hhi].
  assert (Hh : (pow2 (e - 52) == 2 * pow2 (e - 53))%Q)
    by (rewrite <- pow2_succ; replace (e - 53 + 1) with (e - 52) by lia;
        reflexivity).
  set (u := pow2 (e - 52)) in *. set (m := inject_Z (rne (x / u))) in *.
  assert (Hx : (x == (x / u) * u)%Q) by (field; lra).
  assert (H1 : ((x / u - (1 # 2)) * u <= m * u)%Q)
    by (apply Qmult_le_compat_r; lra).
  assert (H2 : (m * u <= (x / u + (1 # 2)) * u)%Q)
    by (apply Qmult_le_compat_r; lra).
  assert (H3 : ((x / u - (1 # 2)) * u == x - pow2 (e - 53))%Q)
    by (rewrite Hx at 2; lra).
  assert (H4 : ((x / u + (1 # 2)) * u == x + pow2 (e - 53))%Q)
    by (rewrite Hx at 2; lra).
  lra.
Qed.

Lemma roundTo_mono (e : Z) (x y : Q) :
  (x <= y)%Q -> (roundTo e x <= roundTo e y)%Q.
Proof.
  intros Hle. unfold roundTo. pose proof (pow2_pos (e - 52)) as Hu.
  apply Qmult_le_compat_r; [| lra].
  rewrite <- Zle_Qle. apply rne_mono.
  apply Qmult_le_compat_r; [exact Hle |].
  apply Qlt_le_weak. apply Qinv_lt_0_compat. exact Hu.
Qed.

Lemma roundTo_grid (e m : Z) :
  (roundTo e (inject_Z m * pow2 (e - 52)) == inject_Z m * pow2 (e - 52))%Q.
Proof.
  unfold roundTo. pose proof (pow2_pos (e - 52)) as Hu.
  assert (H : (inject_Z m * pow2 (e - 52) / pow2 (e - 52) == inject_Z m)%Q)
    by (field; lra).
  rewrite H, rne_Z. reflexivity.
Qed.

Lemma roundTo_pow2 (e k : Z) :
  e - 52 <= k -> (roundTo e (pow2 k) == pow2 k)%Q.
Proof.
  intros Hk.
  assert (H : (pow2 k == inject_Z (2 ^ (k - (e - 52))) * pow2 (e - 52))%Q).
  { rewrite <- pow2_Z by lia. rewrite <- pow2_add.
    replace (k - (e - 52) + (e - 52)) with k by lia. reflexivity. }
  unfold roundTo at 1. rewrite H at 1.
  fold (roundTo e (inject_Z (2 ^ (k - (e - 52))) * pow2 (e - 52))).
  rewrite roundTo_grid. symmetry. exact H.
Qed.

(** *** Rounding to the nearest [double] *)

Lemma rnd_zero (x : Q) : (x == 0)%Q -> rnd x = 0%Q.
Proof.
  intros H. unfold rnd. apply Qeq_bool_iff in H. rewrite H. reflexivity.
Qed.

Lemma rnd_nonzero (x : Q) : ~ (x == 0)%Q -> rnd x = roundTo (ilog2 x) x.
Proof.
  intros H. unfold rnd. destruct (Qeq_bool x 0) eqn:E; [| reflexivity].
  apply Qeq_bool_iff in E. contradiction.
Qed.

Lemma rnd_positive (x : Q) :
  (0 < x)%Q -> (pow2 (ilog2 x) <= rnd x <= pow2 (ilog2 x + 1))%Q.
Proof.
  intros Hx. rewrite rnd_nonzero by lra.
  destruct (ilog2_spec x ltac:(lra)) as [Hlo Hhi].
  rewrite Qabs_pos in Hlo, Hhi by lra. split.
  - rewrite <- (roundTo_pow2 (ilog2 x) (ilog2 x)) by lia.
    apply roundTo_mono. exact Hlo.
  - rewrite <- (roundTo_pow2 (ilog2 x) (ilog2 x + 1)) by lia.
    apply roundTo_mono. lra.
Qed.

Lemma rnd_negative (x : Q) :
  (x < 0)%Q -> (- pow2 (ilog2 x + 1) <= rnd x <= - pow2 (ilog2 x))%Q.
Proof.
  intros Hx. rewrite rnd_nonzero by lra.
  destruct (ilog2_spec x ltac:(lra)) as [Hlo Hhi].
  rewrite Qabs_neg in Hlo, Hhi by lra.
  assert (Hg : forall k, ilog2 x - 52 <= k ->
             (roundTo (ilog2 x) (- pow2 k) == - pow2 k)%Q).
  { intros k Hk.
    assert (H : (- pow2 k
                 == inject_Z (- 2 ^ (k - (ilog2 x - 52))) * pow2 (ilog2 x - 52))%Q).
    { rewrite inject_Z_opp. rewrite <- pow2_Z by lia.
      setoid_replace (- pow2 (k - (ilog2 x - 52)) * pow2 (ilog2 x - 52))%Q
        with (- (pow2 (k - (ilog2 x - 52)) * pow2 (ilog2 x - 52)))%Q by ring.
      rewrite <- pow2_add.
      replace (k - (ilog2 x - 52) + (ilog2 x - 52)) with k by lia. reflexivity. }
    unfold roundTo at 1. rewrite H at 1.
    fold (roundTo (ilog2 x)
            (inject_Z (- 2 ^ (k - (ilog2 x - 52))) * pow2 (ilog2 x - 52))).
    rewrite roundTo_grid. symmetry. exact H. }
  split.
  - rewrite <- (Hg (ilog2 x + 1)) by lia. apply roundTo_mono. lra.
  - rewrite <- (Hg (ilog2 x)) by lia. apply roundTo_mono. lra.
Qed.

Lemma ilog2_mono (x y : Q) :
  (0 < Qabs x)%Q -> (Qabs x <= Qabs y)%Q -> ilog2 x <= ilog2 y.
Proof.
  intros Hx Hle.
  assert (Hx0 : ~ (x == 0)%Q).
  { intros H. rewrite H in Hx. change (Qabs 0) with 0%Q in Hx. lra. }
  assert (Hy0 : ~ (y == 0)%Q).
  { intros H. rewrite H in Hle. change (Qabs 0) with 0%Q in Hle. lra. }
  destruct (ilog2_spec x Hx0) as [Hlo _].
  destruct (ilog2_spec y Hy0) as [_ Hhi].
  assert (ilog2 x < ilog2 y + 1) by (apply pow2_lt_inv; lra).
  lia.
Qed.

Lemma ilog2_comp (x y : Q) :
  ~ (x == 0)%Q -> (x == y)%Q -> ilog2 x = ilog2 y.
Proof.
  intros Hx H. symmetry. apply ilog2_unique.
  destruct (ilog2_spec x Hx) as [Hlo Hhi].
  assert (Ha : (Qabs y == Qabs x)%Q) by (rewrite H; reflexivity).
  split; lra.
Qed.

Theorem rnd_mono (x y : Q) : (x <= y)%Q -> (rnd x <= rnd y)%Q.
Proof.
  intros Hle.
  destruct (Q_dec x 0) as [[Hx | Hx] | Hx];
    destruct (Q_dec y 0) as [[Hy | Hy] | Hy]; try (exfalso; lra).
  - (* both negative *)
    assert (He : ilog2 y <= ilog2 x)
      by (apply ilog2_mono; rewrite ?Qabs_neg by lra; lra).
    destruct (Z.eq_dec (ilog2 y) (ilog2 x)) as [Heq | Hne].
    + rewrite !rnd_nonzero by lra. rewrite Heq. apply roundTo_mono. exact Hle.
    + pose proof (rnd_negative x Hx) as [_ H1].
      pose proof (rnd_negative y Hy) as [H2 _].
      pose proof (pow2_le (ilog2 y + 1) (ilog2 x) ltac:(lia)). lra.
  - pose proof (rnd_negative x Hx) as [_ H1].
    pose proof (rnd_positive y Hy) as [H2 _].
    pose proof (pow2_pos (ilog2 x)). pose proof (pow2_pos (ilog2 y)). lra.
  - pose proof (rnd_negative x Hx) as [_ H1].
    rewrite (rnd_zero y Hy). pose proof (pow2_pos (ilog2 x)). lra.
  - (* both positive *)
    assert (He : ilog2 x <= ilog2 y)
      by (apply ilog2_mono; rewrite ?Qabs_pos by lra; lra).
    destruct (Z.eq_dec (ilog2 x) (ilog2 y)) as [Heq | Hne].
    + rewrite !rnd_nonzero by lra. rewrite Heq. apply roundTo_mono. exact Hle.
    + pose proof (rnd_positive x Hx) as [_ H1].
      pose proof (rnd_positive y Hy) as [H2 _].
      pose proof (pow2_le (ilog2 x + 1) (ilog2 y) ltac:(lia)). lra.
  - rewrite (rnd_zero x Hx).
    pose proof (rnd_positive y Hy) as [H2 _].
    pose proof (pow2_pos (ilog2 y)). lra.
  - rewrite (rnd_zero x Hx), (rnd_zero y Hy). apply Qle_refl.
Qed.

#[global] Instance rnd_comp : Proper (Qeq ==> Qeq) rnd.
Proof.
  intros x y H. apply Qle_antisym; apply rnd_mono; lra.
Qed.

Theorem rnd_near (x : Q) (k : Z) :
  (Qabs x < pow2 k)%Q ->
  (x - pow2 (k - 54) <= rnd x <= x + pow2 (k - 54))%Q.
Proof.
  intros Hk. pose proof (pow2_pos (k - 54)) as Hp.
  destruct (Qeq_dec x 0) as [Hz | Hnz].
  - rewrite (rnd_zero x Hz). lra.
  - rewrite (rnd_nonzero x Hnz).
    destruct (ilog2_spec x Hnz) as [Hlo _].
    assert (He : ilog2 x < k) by (apply pow2_lt_inv; lra).
    pose proof (roundTo_near (ilog2 x) x) as [H1 H2].
    pose proof (pow2_le (ilog2 x - 53) (k - 54) ltac:(lia)). lra.
Qed.

Theorem rnd_exact (x : Q) (m j : Z) :
  Z.abs m < 2 ^ 53 -> (x == inject_Z m * pow2 j)%Q -> (rnd x == x)%Q.
Proof.
  intros Hm Hx.
  destruct (Qeq_dec x 0) as [Hz | Hnz].
  - rewrite (rnd_zero x Hz). symmetry. exact Hz.
  - rewrite (rnd_nonzero x Hnz).
    destruct (ilog2_spec x Hnz) as [Hlo _].
    assert (Habs : (Qabs x == inject_Z (Z.abs m) * pow2 j)%Q).
    { rewrite Hx, Qabs_Qmult. rewrite (Qabs_pos (pow2 j))
        by (apply Qlt_le_weak, pow2_pos).
      destruct m as [| p | p]; reflexivity. }
    assert (Hj : ilog2 x - 52 <= j).
    { assert (ilog2 x < 53 + j); [| lia].
      apply pow2_lt_inv. rewrite pow2_add, (pow2_Z 53) by lia.
      assert ((inject_Z (Z.abs m) * pow2 j < inject_Z (2 ^ 53) * pow2 j)%Q).
      { apply Qmult_lt_compat_r; [apply pow2_pos |].
        rewrite <- Zlt_Qlt. exact Hm. }
      lra. }
    set (e := ilog2 x) in *. clearbody e.
    assert (Hg : (x == inject_Z (m * 2 ^ (j - (e - 52))) * pow2 (e - 52))%Q).
    { rewrite Hx, inject_Z_mult, <- pow2_Z by lia.
      rewrite <- Qmult_assoc, <- pow2_add.
      replace (j - (e - 52) + (e - 52)) with j by lia.
      reflexivity. }
    unfold roundTo. rewrite Hg at 1.
    fold (roundTo e (inject_Z (m * 2 ^ (j - (e - 52))) * pow2 (e - 52))).
    rewrite roundTo_grid. symmetry. exact Hg.
Qed.

Lemma rnd_within (x : Q) (k : Z) :
  (- pow2 k < x < pow2 k)%Q ->
  (x - pow2 (k - 54) <= rnd x <= x + pow2 (k - 54))%Q.
Proof.
  intros [Hlo Hhi]. apply rnd_near. apply Qabs_case; intros; lra.
Qed.

(** A whole number of halves below [2 ^ 52] in magnitude is a [double]. *)
Lemma rnd_halves (n : Z) :
  Z.abs n < 2 ^ 53 -> (rnd (inject_Z n / 2) == inject_Z n / 2)%Q.
Proof.
  intros Hn. apply (rnd_exact _ n (-1)); [exact Hn |].
  change (pow2 (-1)) with (1 # 2)%Q. field.
Qed.

Lemma rnd_integer (n : Z) :
  Z.abs n < 2 ^ 53 -> (rnd (inject_Z n) == inject_Z n)%Q.
Proof.
  intros Hn. apply (rnd_exact _ n 0); [exact Hn |].
  change (pow2 0) with 1%Q. ring.
Qed.

Lemma Qfloor_unique (x : Q) (z : Z) :
  (inject_Z z <= x < inject_Z z + 1)%Q -> Qfloor x = z.
Proof.
  intros [Hlo Hhi].
  pose proof (Qfloor_le x) as H1. pose proof (Qlt_floor x) as H2.
  rewrite inject_Z_plus in H2. change (inject_Z 1) with 1%Q in H2.
  assert (Ha : (inject_Z z < inject_Z (Qfloor x) + 1)%Q) by lra.
  assert (Hb : (inject_Z (Qfloor x) < inject_Z z + 1)%Q) by lra.
  change 1%Q with (inject_Z 1) in Ha, Hb.
  rewrite <- inject_Z_plus, <- Zlt_Qlt in Ha, Hb. lia.
Qed.

(** ** Time of day *)

Ltac push_inject :=
  unfold Z.sub;
  repeat (rewrite inject_Z_plus || rewrite inject_Z_mult || rewrite inject_Z_opp).

Lemma clock_fields (h mi s k : Z) :
  0 <= h <= 23 -> 0 <= mi <= 59 -> 0 <= s <= 59 ->
  k = (3600 * h + 60 * mi + s - 43200) mod 86400 ->
  (C.rem (C.div k (60 * 60) + 12) 24, C.rem (C.div k 60) 60, C.rem k 60)
  = (h, mi, s).
Proof.
  intros Hh Hmi Hs Hk.
  assert (Hb : 0 <= k < 86400) by (subst k; apply Z.mod_pos_bound; lia).
  change (60 * 60) with 3600.
  assert (Hq : 0 <= k / 3600) by zdiv.
  assert (Hq' : 0 <= k / 60) by zdiv.
  rewrite !cdiv_nonneg by lia.
  rewrite !crem_nonneg by lia.
  f_equal; [f_equal |]; zdiv.
Qed.

Lemma minutes_per_day : (Binary64.mul 24.0 60.0 == 1440)%Q.
Proof. vm_compute. reflexivity. Qed.

Lemma seconds_per_day :
  (Binary64.mul (Binary64.mul 24.0 60.0) 60.0 == 86400)%Q.
Proof. vm_compute. reflexivity. Qed.


Ltac eval_pow2 :=
  repeat match goal with
         | H : context [pow2 ?k] |- _ =>
             let v := eval vm_compute in (pow2 k) in
             change (pow2 k) with v in H
         end.

(** [rnd] of a value of magnitude below [2 ^ k], with the bound written
    out. *)
Ltac round_step x k H :=
  let Hr := fresh "Hr" in
  assert (Hr : (- pow2 k < x < pow2 k)%Q);
  [ let v := eval vm_compute in (pow2 k) in
    change (pow2 k) with v; split; lra
  | pose proof (rnd_within x k Hr) as H; clear Hr; eval_pow2 ].

Lemma inject_Z_bounds (z lo hi : Z) :
  lo <= z <= hi -> (lo # 1 <= inject_Z z <= hi # 1)%Q.
Proof. intros H. change (lo # 1)%Q with (inject_Z lo). change (hi # 1)%Q with (inject_Z hi). rewrite <- !Zle_Qle. exact H. Qed.

(** The time of day as a fraction of a day, counted from noon: the error
    of the six roundings is below [2 ^ -50]. *)
Lemma deltaTime_near (h mi s : Z) :
  0 <= h <= 23 -> 0 <= mi <= 59 -> 0 <= s <= 59 ->
  let D := (inject_Z (3600 * h + 60 * mi + s - 43200) * (1 # 86400))%Q in
  (D - (1 # 1125899906842624) <= deltaTime h mi s
   <= D + (1 # 1125899906842624))%Q.
Proof.
  intros Hh Hmi Hs D. unfold deltaTime, Binary64.add, Binary64.sub, Binary64.div.
  rewrite seconds_per_day, minutes_per_day. unfold C.of_int.
  pose proof (inject_Z_bounds h 0 23 Hh) as Bh.
  pose proof (inject_Z_bounds mi 0 59 Hmi) as Bmi.
  pose proof (inject_Z_bounds s 0 59 Hs) as Bs.
  assert (HD : (D == inject_Z h * (1 # 24) + inject_Z mi * (1 # 1440)
                     + inject_Z s * (1 # 86400) - (1 # 2))%Q).
  { unfold D. unfold Z.sub.
    rewrite !inject_Z_plus, !inject_Z_mult, inject_Z_opp. field. }
  unfold Qdiv.
  change (/ 24.0)%Q with (10 # 240)%Q. change (/ 1440)%Q with (1 # 1440)%Q.
  change (/ 86400)%Q with (1 # 86400)%Q.
  set (H := inject_Z h) in *. set (M := inject_Z mi) in *.
  set (S := inject_Z s) in *. clearbody H M S.
  round_step (H * (10 # 240))%Q 0 Ea.
  set (a := rnd (H * (10 # 240))) in *. clearbody a.
  round_step (M * (1 # 1440))%Q 0 Eb.
  set (b := rnd (M * (1 # 1440))) in *. clearbody b.
  round_step (S * (1 # 86400))%Q 0 Ec.
  set (c := rnd (S * (1 # 86400))) in *. clearbody c.
  round_step (a + b)%Q 1 E1.
  set (s1 := rnd (a + b)) in *. clearbody s1.
  round_step (s1 + c)%Q 1 E2.
  set (s2 := rnd (s1 + c)) in *. clearbody s2.
  round_step (s2 - 0.5)%Q 1 E3.
  set (dt := rnd (s2 - 0.5)) in *. clearbody dt.
  lra.
Qed.

(** The rounded time of day is never before midnight, and not before noon
    from 12 hours on. *)
Lemma deltaTime_floor (h mi s : Z) :
  0 <= h -> 0 <= mi -> 0 <= s ->
  (- (1 # 2) <= deltaTime h mi s)%Q
  /\ (12 <= h -> (0 <= deltaTime h mi s)%Q).
Proof.
  intros Hh Hmi Hs.
  unfold deltaTime, Binary64.add, Binary64.sub, Binary64.div.
  rewrite seconds_per_day, minutes_per_day. unfold C.of_int.
  assert (Bh : (0 <= inject_Z h)%Q) by (change 0%Q with (inject_Z 0); rewrite <- Zle_Qle; exact Hh).
  assert (Bmi : (0 <= inject_Z mi)%Q) by (change 0%Q with (inject_Z 0); rewrite <- Zle_Qle; exact Hmi).
  assert (Bs : (0 <= inject_Z s)%Q) by (change 0%Q with (inject_Z 0); rewrite <- Zle_Qle; exact Hs).
  unfold Qdiv.
  change (/ 24.0)%Q with (10 # 240)%Q. change (/ 1440)%Q with (1 # 1440)%Q.
  change (/ 86400)%Q with (1 # 86400)%Q.
  assert (R0 : forall x, (0 <= x)%Q -> (0 <= rnd x)%Q).
  { intros x Hx. rewrite <- (rnd_zero 0 (Qeq_refl 0)) at 1.
    apply rnd_mono. exact Hx. }
  assert (Rh : forall x, (1 # 2 <= x)%Q -> (1 # 2 <= rnd x)%Q).
  { intros x Hx.
    assert (E : (rnd (1 # 2) == 1 # 2)%Q) by (vm_compute; reflexivity).
    rewrite <- E at 1. apply rnd_mono. exact Hx. }
  assert (Rm : forall x, (- (1 # 2) <= x)%Q -> (- (1 # 2) <= rnd x)%Q).
  { intros x Hx.
    assert (E : (rnd (- (1 # 2)) == - (1 # 2))%Q) by (vm_compute; reflexivity).
    rewrite <- E at 1. apply rnd_mono. exact Hx. }
  pose proof (R0 (inject_Z mi * (1 # 1440))%Q ltac:(lra)) as Hb.
  pose proof (R0 (inject_Z s * (1 # 86400))%Q ltac:(lra)) as Hc.
  pose proof (R0 (inject_Z h * (10 # 240))%Q ltac:(lra)) as Ha.
  set (a := rnd (inject_Z h * (10 # 240))) in *.
  set (b := rnd (inject_Z mi * (1 # 1440))) in *.
  set (c := rnd (inject_Z s * (1 # 86400))) in *.
  split.
  - apply Rm.
    pose proof (R0 (a + b)%Q ltac:(lra)) as H1.
    pose proof (R0 (rnd (a + b) + c)%Q ltac:(lra)) as H2.
    lra.
  - intros H12.
    assert (Bh' : (12 <= inject_Z h)%Q)
      by (change 12%Q with (inject_Z 12); rewrite <- Zle_Qle; exact H12).
    pose proof (Rh (inject_Z h * (10 # 240))%Q ltac:(lra)) as Ha'.
    fold a in Ha'.
    pose proof (Rh (a + b)%Q ltac:(lra)) as H1.
    pose proof (Rh (rnd (a + b) + c)%Q ltac:(lra)) as H2.
    apply R0. lra.
Qed.

(** The Julian Day of day [n] lies in the day, for the first [2 ^ 35]
    days on either side. *)
Lemma jdOf_in_day (n h mi s : Z) :
  - DATE_LIMIT < n < DATE_LIMIT ->
  0 <= h <= 23 -> 0 <= mi <= 59 -> 0 <= s <= 59 ->
  (inject_Z n - (1 # 2) <= jdOf n h mi s
   <= inject_Z n + (1 # 2) - (1 # 131072))%Q
  /\ (12 <= h -> (inject_Z n <= jdOf n h mi s)%Q).
Proof.
  intros Hn Hh Hmi Hs. unfold DATE_LIMIT in Hn.
  destruct (deltaTime_floor h mi s ltac:(lia) ltac:(lia) ltac:(lia))
    as [Hlo Hnoon].
  pose proof (deltaTime_near h mi s Hh Hmi Hs) as [_ Hhi]. cbv zeta in Hhi.
  assert (HT : (inject_Z (3600 * h + 60 * mi + s - 43200) <= 43199)%Q)
    by (change 43199%Q with (inject_Z 43199); rewrite <- Zle_Qle; lia).
  unfold jdOf, Binary64.add, Binary64.of_Z.
  rewrite (rnd_integer n) by (change (2 ^ 53) with 9007199254740992; lia).
  set (dt := deltaTime h mi s) in *. clearbody dt.
  assert (Elo : (rnd (inject_Z n - (1 # 2)) == inject_Z n - (1 # 2))%Q).
  { apply (rnd_exact _ (2 * n - 1) (-1)).
    - change (2 ^ 53) with 9007199254740992. lia.
    - change (pow2 (-1)) with (1 # 2)%Q. unfold Z.sub.
      rewrite inject_Z_plus, inject_Z_mult. change (inject_Z (- (1))) with (- (1))%Q.
      change (inject_Z 2) with 2%Q. ring. }
  assert (Ehi : (rnd (inject_Z n + (1 # 2) - (1 # 131072))
                 == inject_Z n + (1 # 2) - (1 # 131072))%Q).
  { apply (rnd_exact _ (131072 * n + 65535) (-17)).
    - change (2 ^ 53) with 9007199254740992. lia.
    - change (pow2 (-17)) with (1 # 131072)%Q.
      rewrite inject_Z_plus, inject_Z_mult.
      change (inject_Z 131072) with 131072%Q.
      change (inject_Z 65535) with 65535%Q. ring. }
  assert (En : (rnd (inject_Z n) == inject_Z n)%Q)
    by (apply rnd_integer; change (2 ^ 53) with 9007199254740992; lia).
  split; [split |].
  - rewrite <- Elo. apply rnd_mono. lra.
  - rewrite <- Ehi. apply rnd_mono. lra.
  - intros H12. specialize (Hnoon H12). rewrite <- En at 1.
    apply rnd_mono. lra.
Qed.

Lemma julianOf_jdOf (n h mi s : Z) :
  - DATE_LIMIT < n < DATE_LIMIT ->
  0 <= h <= 23 -> 0 <= mi <= 59 -> 0 <= s <= 59 ->
  julianOf (jdOf n h mi s) = n.
Proof.
  intros Hn Hh Hmi Hs.
  destruct (jdOf_in_day n h mi s Hn Hh Hmi Hs) as [[Hlo Hhi] _].
  unfold DATE_LIMIT in Hn.
  set (J := jdOf n h mi s) in *. clearbody J.
  unfold julianOf, Binary64.add. apply Qfloor_unique.
  assert (En : (rnd (inject_Z n) == inject_Z n)%Q)
    by (apply rnd_integer; change (2 ^ 53) with 9007199254740992; lia).
  assert (Ehi : (rnd (inject_Z n + 1 - (1 # 131072))
                 == inject_Z n + 1 - (1 # 131072))%Q).
  { apply (rnd_exact _ (131072 * n + 131071) (-17)).
    - change (2 ^ 53) with 9007199254740992. lia.
    - change (pow2 (-17)) with (1 # 131072)%Q.
      rewrite inject_Z_plus, inject_Z_mult.
      change (inject_Z 131072) with 131072%Q.
      change (inject_Z 131071) with 131071%Q. ring. }
  assert (H1 : (rnd (inject_Z n) <= rnd (J + 0.5))%Q)
    by (apply rnd_mono; lra).
  assert (H2 : (rnd (J + 0.5) <= rnd (inject_Z n + 1 - (1 # 131072)))%Q)
    by (apply rnd_mono; lra).
  split; lra.
Qed.

(** The seconds [getTimeFromJulianDay] counts for a fraction of a day that
    is within [2 ^ -29] of a whole number [tau] of seconds. *)
Lemma seconds_of_fraction (frac0 : Q) (tau : Z) :
  0 <= tau <= 86399 ->
  (0 <= frac0 < 1)%Q ->
  (inject_Z tau * (1 # 86400) - (1 # 1000000000) <= frac0
   <= inject_Z tau * (1 # 86400) + (1 # 1000000000))%Q ->
  Qfloor (Binary64.add
            (Binary64.mul
               (Binary64.mul (Binary64.mul (rnd frac0) 24.0) 60.0) 60.0)
            (Binary64.literal 0.0001)) = tau.
Proof.
  intros Htau Hfrac Hnear.
  pose proof (inject_Z_bounds tau 0 86399 Htau) as Bt.
  set (t := inject_Z tau) in *. 
  unfold Binary64.add, Binary64.mul, Binary64.literal.
  apply Qfloor_unique. fold t. clearbody t.
  round_step frac0 0 E0.
  set (f := rnd frac0) in *. clearbody f.
  round_step (f * 24.0)%Q 5 E1.
  set (x1 := rnd (f * 24.0)) in *. clearbody x1.
  round_step (x1 * 60.0)%Q 11 E2.
  set (x2 := rnd (x1 * 60.0)) in *. clearbody x2.
  round_step (x2 * 60.0)%Q 17 E3.
  set (x3 := rnd (x2 * 60.0)) in *. clearbody x3.
  round_step (0.0001)%Q (-13) E4.
  set (c := rnd 0.0001) in *. clearbody c.
  round_step (x3 + c)%Q 17 E5.
  set (x4 := rnd (x3 + c)) in *. clearbody x4.
  split; lra.
Qed.

(** Within [2 ^ 24] days of day zero the rounded Julian Day is less than
    [10 ^ -9] day from the instant it stands for. *)
Lemma jdOf_near (n h mi s : Z) :
  - TIME_LIMIT < n < TIME_LIMIT ->
  0 <= h <= 23 -> 0 <= mi <= 59 -> 0 <= s <= 59 ->
  let D := (inject_Z (3600 * h + 60 * mi + s - 43200) * (1 # 86400))%Q in
  (inject_Z n + D - (1 # 1000000000) <= jdOf n h mi s
   <= inject_Z n + D + (1 # 1000000000))%Q.
Proof.
  intros Hn Hh Hmi Hs D. unfold TIME_LIMIT in Hn.
  pose proof (deltaTime_near h mi s Hh Hmi Hs) as Hdt. cbv zeta in Hdt.
  fold D in Hdt.
  pose proof (inject_Z_bounds (3600 * h + 60 * mi + s - 43200) (-43200) 43199
                ltac:(lia)) as HT.
  pose proof (inject_Z_bounds n (-16777215) 16777215 ltac:(lia)) as Bn.
  unfold jdOf, Binary64.add, Binary64.of_Z.
  rewrite (rnd_integer n) by (change (2 ^ 53) with 9007199254740992; lia).
  set (T := inject_Z (3600 * h + 60 * mi + s - 43200)) in *.
  set (N := inject_Z n) in *. set (dt := deltaTime h mi s) in *.
  subst D. clearbody T N dt.
  round_step (N + dt)%Q 24 E. lra.
Qed.

Theorem getTimeFromJulianDay_jdOf (n h mi s : Z) :
  - TIME_LIMIT < n < TIME_LIMIT ->
  0 <= h <= 23 -> 0 <= mi <= 59 -> 0 <= s <= 59 ->
  getTimeFromJulianDay (jdOf n h mi s) = (h, mi, s).
Proof.
  intros Hn Hh Hmi Hs.
  pose proof (jdOf_near n h mi s Hn Hh Hmi Hs) as Hnear. cbv zeta in Hnear.
  assert (Hn' : - DATE_LIMIT < n < DATE_LIMIT)
    by (unfold TIME_LIMIT, DATE_LIMIT in *; lia).
  destruct (jdOf_in_day n h mi s Hn' Hh Hmi Hs) as [[Hlo Hhi] Hnoon].
  set (J := jdOf n h mi s) in *. clearbody J.
  set (T := 3600 * h + 60 * mi + s) in *.
  assert (HT : 0 <= T <= 86399) by (unfold T; lia).
  unfold getTimeFromJulianDay. cbv zeta. unfold Binary64.sub.
  destruct (Z_le_gt_dec 12 h) as [H12 | H11].
  - (* from noon on: the day number is the integer part *)
    specialize (Hnoon H12).
    assert (Hfl : Qfloor J = n) by (apply Qfloor_unique; split; lra).
    rewrite Hfl.
    rewrite (seconds_of_fraction (J - inject_Z n) (T - 43200)).
    + apply clock_fields; try assumption. fold T.
      rewrite Z.mod_small; lia.
    + unfold T. lia.
    + split; lra.
    + lra.
  - (* before noon: the integer part is the day before *)
    assert (HTq : (inject_Z (T - 43200) <= - (1 # 1))%Q)
      by (change (- (1 # 1))%Q with (inject_Z (-1)); rewrite <- Zle_Qle;
          unfold T; lia).
    assert (Hfl : Qfloor J = n - 1).
    { apply Qfloor_unique. unfold Z.sub. rewrite inject_Z_plus.
      change (inject_Z (- (1))) with (- (1))%Q. split; lra. }
    rewrite Hfl.
    rewrite (seconds_of_fraction (J - inject_Z (n - 1)) (T + 43200)).
    + apply clock_fields; try assumption. fold T.
      replace (T - 43200) with (T + 43200 + (-1) * 86400) by lia.
      rewrite Z.mod_add by lia. rewrite Z.mod_small; lia.
    + unfold T. lia.
    + unfold Z.sub. rewrite inject_Z_plus.
      change (inject_Z (- (1))) with (- (1))%Q. split; lra.
    + unfold Z.sub in *. rewrite !inject_Z_plus in *.
      change (inject_Z (- (1))) with (- (1))%Q.
      change (inject_Z (- (43200))) with (- (43200))%Q in *.
      change (inject_Z 43200) with 43200%Q. lra.
Qed.

Lemma to_int_seconds (sec : Q) :
  (0 <= sec < 60)%Q ->
  0 <= C.to_int sec <= 59
  /\ (inject_Z (C.to_int sec) <= sec < inject_Z (C.to_int sec) + 1)%Q.
Proof.
  intros [H0 H60]. unfold C.to_int.
  replace (Qle_bool 0 sec) with true by (symmetry; apply Qle_bool_iff; exact H0).
  pose proof (Qfloor_le sec) as Hle.
  pose proof (Qlt_floor sec) as Hlt.
  rewrite inject_Z_plus in Hlt.
  repeat split; try assumption.
  - change 0 with (Qfloor (inject_Z 0)). apply Qfloor_resp_le. exact H0.
  - assert (Hz : (inject_Z (Qfloor sec) < inject_Z 60)%Q)
      by (eapply Qle_lt_trans; [exact Hle | exact H60]).
    rewrite <- Zlt_Qlt in Hz. lia.
Qed.

Lemma days_at_most_31 (m y : Z) :
  1 <= m <= 12 -> numberOfDaysInMonthInYear m y <= 31.
Proof.
  intros Hm. rewrite days_monthLength by exact Hm. unfold monthLength.
  each_month Hm; try lia.
  destruct (if 1582 <? y then gregorianLeap y else julianLeap y); lia.
Qed.

(** With a [QDate] that agrees with the fallback arithmetic, the Julian
    Day is the rounded sum of the day number and the time of day. *)
Lemma getJDFromDate_jdOf (qd : QDateApi) (y m d h mi s : Z) :
  QDate_agrees qd y m d ->
  getJDFromDate qd y m d h mi s = (true, jdOf (ljulOf y m d) h mi s).
Proof.
  intros Hqd. unfold getJDFromDate, jdOf.
  destruct (QDate_isValid qd (qdateYear y) m d) eqn:Hv.
  - rewrite (Hqd Hv). reflexivity.
  - reflexivity.
Qed.

(** From 1583 to the year 40000 the day number stays below [2 ^ 24]. *)
Lemma ljulOf_civil_range (y m d : Z) :
  1582 < y <= 40000 -> 1 <= m <= 12 -> 1 <= d <= 31 ->
  0 < ljulOf y m d < TIME_LIMIT.
Proof.
  intros Hy Hm Hd. rewrite ljulOf_gregorian by lia. cbv zeta.
  unfold marchCount, lbbOf, TIME_LIMIT.
  destruct (Z.ltb_spec 2 m); zdiv.
Qed.

(** The narrowing to [int] does nothing to a date whose year fits. *)
Lemma to_int32_fits (a : Z) : INT_MIN <= a <= INT_MAX -> C.to_int32 a = a.
Proof. unfold INT_MIN, INT_MAX, C.to_int32. intros H. zdiv. Qed.

Lemma to_int32_add (a b : Z) :
  C.to_int32 (C.to_int32 a + b) = C.to_int32 (a + b).
Proof. unfold C.to_int32. zdiv. Qed.

Lemma date_of_ta_fields (julian ta y m d : Z) :
  dateFields julian ta = (y, m, d) ->
  1 <= m <= 12 -> INT_MIN <= d <= INT_MAX -> INT_MIN <= y < INT_MAX ->
  date_of_ta julian ta = (y, m, d).
Proof.
  unfold dateFields, date_of_ta. cbv zeta.
  set (tb := ta + 1524).
  set (tc := if tb <=? JB_MAX_WITHOUT_OVERFLOW then _ else _).
  set (td := 365 * tc + C.div tc 4).
  set (te := C.div ((tb - td) * 10000) 306001).
  set (dd := tb - td - C.div (306001 * te) 10000).
  set (corr := 100 * (1 - C.div julian 36525)).
  clearbody dd corr tc te.
  destruct (Z.ltb_spec julian 0) as [Hneg | Hpos]; intros H Hm Hd Hy;
    apply pair_equal_spec in H; destruct H as [H Hdd];
    apply pair_equal_spec in H; destruct H as [Hyy Hmm];
    assert (Hte : 1 <= te - 1 <= 24)
      by (destruct (Z.ltb_spec 12 (te - 1)); lia);
    rewrite (to_int32_fits (te - 1)) by (unfold INT_MIN, INT_MAX; lia);
    rewrite Hmm in *; rewrite Hdd, (to_int32_fits d Hd).
  - replace (if 2 <? m then C.to_int32 (tc - 4715) - 1
             else C.to_int32 (tc - 4715))
      with (C.to_int32 (tc - 4715) + (if 2 <? m then -1 else 0))
      by (destruct (2 <? m); lia).
    replace (C.to_int32 (tc - 4715) + (if 2 <? m then -1 else 0) - corr)
      with (C.to_int32 (tc - 4715) + ((if 2 <? m then -1 else 0) - corr))
      by lia.
    rewrite to_int32_add.
    replace (tc - 4715 + ((if 2 <? m then -1 else 0) - corr))
      with y by (destruct (2 <? m); lia).
    rewrite (to_int32_fits y) by lia. reflexivity.
  - rewrite (to_int32_fits (tc - 4715)) by (destruct (2 <? m); lia).
    rewrite Hyy. reflexivity.
Qed.

(** C1, as stated, fails: on 15 June of the year 1000000000 at 23:59:59
    the Julian Day is 365244221226.5 after rounding, which is the next
    day. *)
Lemma C1_date_lost_in_year_1000000000 :
  ~ (forall (qd : QDateApi) (y m d h mi : Z) (sec : Q),
        1582 < y <= INT_MAX ->
        1 <= m <= 12 ->
        1 <= d <= numberOfDaysInMonthInYear m y ->
        0 <= h <= 23 ->
        0 <= mi <= 59 ->
        (0 <= sec < 60)%Q ->
        QDate_agrees qd y m d ->
        getDateFromJulianDay
          (snd (getJDFromDate qd y m d h mi (C.to_int sec)))
        = (y, m, d)).
Proof.
  intros H.
  specialize (H QDate4 1000000000 6 15 23 59 59%Q).
  assert (Hdate : getDateFromJulianDay
                    (snd (getJDFromDate QDate4 1000000000 6 15 23 59
                            (C.to_int 59)))
                  = (1000000000, 6, 16)) by (vm_compute; reflexivity).
  rewrite Hdate in H.
  assert (Habs : (1000000000, 6, 16) = (1000000000, 6, 15)).
  { apply H.
    - unfold INT_MAX. lia.
    - lia.
    - vm_compute. split; discriminate.
    - lia.
    - lia.
    - split; [discriminate | reflexivity].
    - intros _. reflexivity. }
  discriminate Habs.
Qed.

(** C1, amended: up to the year 40000 a valid date and time after 1582
    survives the trip through the Julian Day: the date comes back exactly,
    the hour and minute too, and the second differs by less than one
    second from the one given. *)
Theorem C1_civil_roundtrip (qd : QDateApi) (y m d h mi : Z) (sec : Q) :
  1582 < y <= 40000 ->
  1 <= m <= 12 ->
  1 <= d <= numberOfDaysInMonthInYear m y ->
  0 <= h <= 23 ->
  0 <= mi <= 59 ->
  (0 <= sec < 60)%Q ->
  QDate_agrees qd y m d ->
  let jd := snd (getJDFromDate qd y m d h mi (C.to_int sec)) in
  fst (getJDFromDate qd y m d h mi (C.to_int sec)) = true
  /\ getDateFromJulianDay jd = (y, m, d)
  /\ (let '(hour, minute, second) := getTimeFromJulianDay jd in
      hour = h /\ minute = mi
      /\ (inject_Z second <= sec < inject_Z second + 1)%Q).
Proof.
  intros Hy Hm Hd Hh Hmi Hsec Hqd jd.
  destruct (to_int_seconds sec Hsec) as [Hs Hnear].
  unfold jd. rewrite (getJDFromDate_jdOf qd y m d h mi _ Hqd). cbn [fst snd].
  pose proof (days_at_most_31 m y Hm) as Hlen.
  pose proof (ljulOf_civil_range y m d Hy Hm ltac:(lia)) as Hn.
  split; [reflexivity |]. split.
  - unfold getDateFromJulianDay.
    rewrite julianOf_jdOf
      by (unfold DATE_LIMIT, TIME_LIMIT in *; try assumption; lia).
    unfold dateOfJulian.
    apply date_of_ta_fields; [| lia | unfold INT_MIN, INT_MAX; lia
                              | unfold INT_MIN, INT_MAX; lia].
    apply fieldsOfJulian_ljulOf; [unfold INT_MAX; lia | assumption..].
  - rewrite getTimeFromJulianDay_jdOf
      by (unfold TIME_LIMIT in *; try assumption; lia).
    repeat split; apply Hnear.
Qed.

Lemma C1_civil_roundtrip_witness :
  let jd := snd (getJDFromDate QDate4 2000 2 29 23 59 (C.to_int 59.5)) in
  fst (getJDFromDate QDate4 2000 2 29 23 59 (C.to_int 59.5)) = true
  /\ getDateFromJulianDay jd = (2000, 2, 29)
  /\ (let '(hour, minute, second) := getTimeFromJulianDay jd in
      hour = 23 /\ minute = 59
      /\ (inject_Z second <= 59.5 < inject_Z second + 1)%Q).
Proof.
  apply (C1_civil_roundtrip QDate4 2000 2 29 23 59 59.5).
  - lia.
  - lia.
  - vm_compute. split; discriminate.
  - lia.
  - lia.
  - split; [discriminate | reflexivity].
  - intros _. reflexivity.
Defined.

(** ** The hole of October 1582 *)

Ltac zquot := Z.quot_rem_to_equations; Z.div_mod_to_equations; lia.


Lemma gregorian_ta_lower (julian : Z) :
  JD_GREG_CAL <= julian -> 2299171 <= gregorian_ta julian.
Proof.
  unfold JD_GREG_CAL, gregorian_ta, C.div. intros H. zquot.
Qed.



(** ** Running the loops *)


Section WhileRule.

Variables (cond : Rollover -> bool) (body : Rollover -> Rollover).
Variable Inv : Rollover -> Prop.
Variable measure : Rollover -> nat.

Hypothesis step :
  forall st, Inv st -> cond st = true ->
             Inv (body st) /\ (measure (body st) < measure st)%nat.

(** A loop whose body keeps [Inv] and lowers [measure] exits, in a state
    where [Inv] holds and the condition fails. *)
Lemma while_settles (st : Rollover) :
  Inv st ->
  exists st', settles (fun fuel => while fuel cond body st) st'
              /\ Inv st' /\ cond st' = false.
Proof.
  remember (measure st) as k eqn:Hk.
  revert st Hk.
  induction k as [k IH] using lt_wf_ind.
  intros st Hk Hinv.
  destruct (cond st) eqn:Hc.
  - destruct (step st Hinv Hc) as [Hinv' Hlt].
    destruct (IH (measure (body st)) ltac:(lia) (body st) eq_refl Hinv')
      as (st' & [n Hn] & Hst' & Hexit).
    exists st'. split; [| split; assumption].
    exists (S n). intros fuel Hfuel.
    destruct fuel as [| fuel]; [lia |].
    cbn [while]. rewrite Hc. apply Hn. lia.
  - exists st. split; [| split; assumption].
    exists 1%nat. intros fuel Hfuel.
    destruct fuel as [| fuel]; [lia |].
    cbn [while]. rewrite Hc. reflexivity.
Qed.

End WhileRule.

Lemma runLoops_cons (cond : Rollover -> bool) (body : Rollover -> Rollover)
      (ls : list ((Rollover -> bool) * (Rollover -> Rollover)))
      (st st1 st2 : Rollover) :
  settles (fun fuel => while fuel cond body st) st1 ->
  settles (fun fuel => runLoops fuel ls st1) st2 ->
  settles (fun fuel => runLoops fuel ((cond, body) :: ls) st) st2.
Proof.
  intros [n Hn] [k Hk]. exists (Nat.max n k). intros fuel Hfuel.
  cbn [runLoops]. rewrite Hn by lia. apply Hk. lia.
Qed.

Lemma runLoops_nil (st : Rollover) :
  settles (fun fuel => runLoops fuel [] st) st.
Proof. exists 0%nat. intros fuel _. reflexivity. Qed.

(** ** The month lengths the loops see *)

Lemma days_outside (m y : Z) :
  m < 0 \/ 13 < m -> numberOfDaysInMonthInYear m y = 0.
Proof.
  intros Hm. destruct m as [| p | p]; [lia | | reflexivity].
  do 4 (destruct p as [p | p |]; try lia; try reflexivity).
Qed.

Lemma days_inside (m y : Z) :
  0 <= m <= 13 -> 28 <= numberOfDaysInMonthInYear m y <= 31.
Proof.
  intros Hm.
  assert (Hc : m = 0 \/ m = 13 \/ 1 <= m <= 12) by lia.
  destruct Hc as [-> | [-> | Hc]]; [cbn; lia | cbn; lia |].
  rewrite days_monthLength by exact Hc. unfold monthLength.
  each_month Hc; try lia.
  destruct (if 1582 <? y then gregorianLeap y else julianLeap y); lia.
Qed.

Lemma days_nonneg (m y : Z) : 0 <= numberOfDaysInMonthInYear m y.
Proof.
  destruct (Z_lt_le_dec m 0) as [Hneg | Hpos].
  - rewrite days_outside by lia. lia.
  - destruct (Z_lt_le_dec 13 m) as [Hbig | Hsmall].
    + rewrite days_outside by lia. lia.
    + pose proof (days_inside m y ltac:(lia)). lia.
Qed.

Lemma days_positive_month (m y : Z) :
  0 < numberOfDaysInMonthInYear m y -> 0 <= m <= 13.
Proof.
  intros Hpos.
  destruct (Z_lt_le_dec m 0) as [Hneg | Hge];
    [rewrite days_outside in Hpos by lia; lia |].
  destruct (Z_lt_le_dec 13 m) as [Hbig | Hsmall];
    [rewrite days_outside in Hpos by lia; lia |].
  lia.
Qed.

Lemma days_alias_december (y : Z) :
  numberOfDaysInMonthInYear 0 y = numberOfDaysInMonthInYear 12 (y - 1).
Proof. reflexivity. Qed.

Lemma days_alias_january (y : Z) :
  numberOfDaysInMonthInYear 13 y = numberOfDaysInMonthInYear 1 (y + 1).
Proof. reflexivity. Qed.

(** ** What the passes establish *)

Ltac loop_step :=
  let st := fresh "st" in
  let Hinv := fresh "Hinv" in
  let Hc := fresh "Hc" in
  intros st Hinv Hc;
  destruct st as [y m d h mi s c];
  unfold clockOK, secondsOK, minutesOK, hoursOK, dayFits,
    secCarry, secBorrow, minCarry, minBorrow, hourCarry, hourBorrow,
    monthCarry, monthBorrow in *;
  cbn [oy om od oh omin os change] in *.

(** The six loops on seconds, minutes and hours exit, with the clock
    fields in range and the year and month untouched. *)
Lemma clock_passes_settle (st : Rollover) :
  exists st', settles (fun fuel => runLoops fuel (firstn 6 loops) st) st'
              /\ clockOK st'
              /\ oy st' = oy st /\ om st' = om st.
Proof.
  destruct (while_settles (fun st => 59 <? os st) secCarry
              (fun st' => oy st' = oy st /\ om st' = om st)
              (fun st => Z.to_nat (os st))) with (st := st)
    as (s1 & Hs1 & Hinv1 & Hexit1).
  { loop_step. apply Z.ltb_lt in Hc. lia. }
  { split; reflexivity. }
  destruct (while_settles (fun st => os st <? 0) secBorrow
              (fun st' => (oy st' = oy st /\ om st' = om st) /\ os st' <= 59)
              (fun st => Z.to_nat (- os st))) with (st := s1)
    as (s2 & Hs2 & Hinv2 & Hexit2).
  { loop_step. apply Z.ltb_lt in Hc. lia. }
  { apply Z.ltb_ge in Hexit1. lia. }
  destruct (while_settles (fun st => 59 <? omin st) minCarry
              (fun st' => (oy st' = oy st /\ om st' = om st)
                          /\ 0 <= os st' <= 59)
              (fun st => Z.to_nat (omin st))) with (st := s2)
    as (s3 & Hs3 & Hinv3 & Hexit3).
  { loop_step. apply Z.ltb_lt in Hc. lia. }
  { apply Z.ltb_ge in Hexit2. lia. }
  destruct (while_settles (fun st => omin st <? 0) minBorrow
              (fun st' => (oy st' = oy st /\ om st' = om st)
                          /\ 0 <= os st' <= 59 /\ omin st' <= 59)
              (fun st => Z.to_nat (- omin st))) with (st := s3)
    as (s4 & Hs4 & Hinv4 & Hexit4).
  { loop_step. apply Z.ltb_lt in Hc. lia. }
  { apply Z.ltb_ge in Hexit3. lia. }
  destruct (while_settles (fun st => 23 <? oh st) hourCarry
              (fun st' => (oy st' = oy st /\ om st' = om st)
                          /\ 0 <= os st' <= 59 /\ 0 <= omin st' <= 59)
              (fun st => Z.to_nat (oh st))) with (st := s4)
    as (s5 & Hs5 & Hinv5 & Hexit5).
  { loop_step. apply Z.ltb_lt in Hc. lia. }
  { apply Z.ltb_ge in Hexit4. lia. }
  destruct (while_settles (fun st => oh st <? 0) hourBorrow
              (fun st' => (oy st' = oy st /\ om st' = om st)
                          /\ 0 <= os st' <= 59 /\ 0 <= omin st' <= 59
                          /\ oh st' <= 23)
              (fun st => Z.to_nat (- oh st))) with (st := s5)
    as (s6 & Hs6 & Hinv6 & Hexit6).
  { loop_step. apply Z.ltb_lt in Hc. lia. }
  { apply Z.ltb_ge in Hexit5. lia. }
  exists s6. split.
  - cbn [firstn loops].
    repeat (eapply runLoops_cons; [eassumption |]).
    apply runLoops_nil.
  - apply Z.ltb_ge in Hexit6.
    unfold clockOK, secondsOK, minutesOK, hoursOK. lia.
Qed.

Lemma dayCarry_step (st : Rollover) :
  clockOK st ->
  (numberOfDaysInMonthInYear (om st) (oy st) <? od st) = true ->
  clockOK (dayCarry st)
  /\ (Z.to_nat (od (dayCarry st)) + monthOvershoot (om (dayCarry st))
      < Z.to_nat (od st) + monthOvershoot (om st))%nat.
Proof.
  revert st. loop_step. apply Z.ltb_lt in Hc.
  unfold dayCarry. cbn [oy om od oh omin os change].
  pose proof (days_nonneg m y) as Hnn.
  destruct (Z.ltb_spec 12 (m + 1)) as [Hwrap | Hstay];
    cbn [oy om od oh omin os change];
    (split; [exact Hinv |]).
  - destruct (Z_lt_le_dec 13 m) as [Hbig | Hsmall].
    + rewrite days_outside in * by lia.
      unfold monthOvershoot.
      destruct (Z.ltb_spec 13 (m + 1 - 12)); destruct (Z.ltb_spec 13 m);
        destruct (Z.ltb_spec (m + 1 - 12) 0); lia.
    + pose proof (days_inside m y ltac:(lia)) as Hin.
      unfold monthOvershoot.
      destruct (Z.ltb_spec 13 (m + 1 - 12)); destruct (Z.ltb_spec 13 m);
        destruct (Z.ltb_spec (m + 1 - 12) 0); destruct (Z.ltb_spec m 0); lia.
  - destruct (Z_lt_le_dec m 0) as [Hneg | Hpos].
    + rewrite days_outside in * by lia.
      unfold monthOvershoot.
      destruct (Z.ltb_spec 13 (m + 1)); destruct (Z.ltb_spec 13 m);
        destruct (Z.ltb_spec (m + 1) 0); destruct (Z.ltb_spec m 0); lia.
    + pose proof (days_inside m y ltac:(lia)) as Hin.
      unfold monthOvershoot.
      destruct (Z.ltb_spec 13 (m + 1)); destruct (Z.ltb_spec 13 m);
        destruct (Z.ltb_spec (m + 1) 0); destruct (Z.ltb_spec m 0); lia.
Qed.

Lemma dayBorrow_step (st : Rollover) :
  clockOK st /\ dayFits st ->
  (od st <? 1) = true ->
  (clockOK (dayBorrow st) /\ dayFits (dayBorrow st))
  /\ (Z.to_nat (1 - od (dayBorrow st)) + monthOvershoot (om (dayBorrow st) - 1)
      < Z.to_nat (1 - od st) + monthOvershoot (om st - 1))%nat.
Proof.
  revert st. loop_step. apply Z.ltb_lt in Hc.
  destruct Hinv as [Hclock Hfit].
  unfold dayBorrow. cbn [oy om od oh omin os change].
  pose proof (days_nonneg (m - 1) y) as Hnn.
  destruct (Z.ltb_spec (m - 1) 1) as [Hwrap | Hstay];
    cbn [oy om od oh omin os change].
  - destruct (Z.eq_dec (m - 1) 0) as [Hz | Hnz].
    + assert (m = 1) by lia. subst m.
      change (1 - 1) with 0. change (0 + 12) with 12.
      change (numberOfDaysInMonthInYear 0 y) with 31.
      change (numberOfDaysInMonthInYear 12 (y - 1)) with 31.
      change (monthOvershoot (12 - 1)) with 0%nat.
      change (monthOvershoot 0) with 0%nat.
      split; [split; [exact Hclock | lia] | lia].
    + rewrite days_outside by lia.
      pose proof (days_nonneg (m - 1 + 12) (y - 1)) as Hnn'.
      split; [split; [exact Hclock | lia] |].
      unfold monthOvershoot.
      destruct (Z.ltb_spec 13 (m - 1 + 12 - 1)); destruct (Z.ltb_spec 13 (m - 1));
        destruct (Z.ltb_spec (m - 1 + 12 - 1) 0); destruct (Z.ltb_spec (m - 1) 0);
        lia.
  - split; [split; [exact Hclock | lia] |].
    destruct (Z_lt_le_dec 13 (m - 1)) as [Hbig | Hsmall].
    + rewrite days_outside by lia.
      unfold monthOvershoot.
      destruct (Z.ltb_spec 13 (m - 1 - 1)); destruct (Z.ltb_spec 13 (m - 1));
        destruct (Z.ltb_spec (m - 1 - 1) 0); destruct (Z.ltb_spec (m - 1) 0);
        lia.
    + pose proof (days_inside (m - 1) y ltac:(lia)) as Hin.
      unfold monthOvershoot.
      destruct (Z.ltb_spec 13 (m - 1 - 1)); destruct (Z.ltb_spec 13 (m - 1));
        destruct (Z.ltb_spec (m - 1 - 1) 0); destruct (Z.ltb_spec (m - 1) 0);
        lia.
Qed.

(** The four loops on the day and the month exit, on a valid date. *)
Lemma calendar_passes_settle (st : Rollover) :
  clockOK st ->
  exists st', settles (fun fuel => runLoops fuel (skipn 6 loops) st) st'
              /\ normalised st'.
Proof.
  intros Hclock.
  destruct (while_settles
              (fun st => numberOfDaysInMonthInYear (om st) (oy st) <? od st)
              dayCarry clockOK
              (fun st => (Z.to_nat (od st) + monthOvershoot (om st))%nat))
    with (st := st) as (s7 & Hs7 & Hinv7 & Hexit7).
  { exact dayCarry_step. }
  { exact Hclock. }
  destruct (while_settles (fun st => od st <? 1) dayBorrow
              (fun st => clockOK st /\ dayFits st)
              (fun st => (Z.to_nat (1 - od st)
                          + monthOvershoot (om st - 1))%nat))
    with (st := s7) as (s8 & Hs8 & Hinv8 & Hexit8).
  { exact dayBorrow_step. }
  { apply Z.ltb_ge in Hexit7. split; assumption. }
  destruct (while_settles (fun st => 12 <? om st) monthCarry
              (fun st => clockOK st /\ 1 <= od st /\ dayFits st)
              (fun st => Z.to_nat (om st)))
    with (st := s8) as (s9 & Hs9 & Hinv9 & Hexit9).
  { loop_step. apply Z.ltb_lt in Hc.
    destruct Hinv as (Hck & Hd1 & Hfit).
    pose proof (days_positive_month m y ltac:(lia)) as Hm.
    assert (m = 13) by lia. subst m.
    change (13 - 12) with 1. rewrite days_alias_january in Hfit.
    repeat split; try apply Hck; try lia. }
  { apply Z.ltb_ge in Hexit8. destruct Hinv8 as [Hck Hfit].
    split; [exact Hck | split; [lia | exact Hfit]]. }
  destruct (while_settles (fun st => om st <? 1) monthBorrow
              (fun st => clockOK st /\ 1 <= od st /\ dayFits st /\ om st <= 12)
              (fun st => Z.to_nat (1 - om st)))
    with (st := s9) as (s10 & Hs10 & Hinv10 & Hexit10).
  { loop_step. apply Z.ltb_lt in Hc.
    destruct Hinv as (Hck & Hd1 & Hfit & Hm12).
    pose proof (days_positive_month m y ltac:(lia)) as Hm.
    assert (m = 0) by lia. subst m.
    change (0 + 12) with 12. rewrite days_alias_december in Hfit.
    repeat split; try apply Hck; try lia. }
  { apply Z.ltb_ge in Hexit9. destruct Hinv9 as (Hck & Hd1 & Hfit).
    split; [exact Hck | split; [exact Hd1 | split; [exact Hfit | lia]]]. }
  exists s10. split.
  - cbn [skipn loops].
    repeat (eapply runLoops_cons; [eassumption |]).
    apply runLoops_nil.
  - apply Z.ltb_ge in Hexit10. destruct Hinv10 as (Hck & Hd1 & Hfit & Hm12).
    unfold normalised, dayFits in *. repeat split; try apply Hck; lia.
Qed.

Lemma runLoops_app (l1 l2 : list ((Rollover -> bool) * (Rollover -> Rollover)))
      (st st1 st2 : Rollover) :
  settles (fun fuel => runLoops fuel l1 st) st1 ->
  settles (fun fuel => runLoops fuel l2 st1) st2 ->
  settles (fun fuel => runLoops fuel (l1 ++ l2) st) st2.
Proof.
  intros [n Hn] [k Hk]. exists (Nat.max n k). intros fuel Hfuel.
  specialize (Hn fuel ltac:(lia)). specialize (Hk fuel ltac:(lia)).
  clear Hfuel. revert st Hn.
  induction l1 as [| [cond body] l1 IH]; intros st Hn; cbn [runLoops app] in *.
  - injection Hn as ->. exact Hk.
  - destruct (while fuel cond body st) as [st' |]; [| discriminate].
    apply IH. exact Hn.
Qed.

(** All ten loops exit, whatever the six integers are, and leave a valid
    date and time. *)
Lemma passes_settle (st : Rollover) :
  exists st', settles (fun fuel => runLoops fuel loops st) st' /\ normalised st'.
Proof.
  destruct (clock_passes_settle st) as (s6 & Hs6 & Hclock & _).
  destruct (calendar_passes_settle s6 Hclock) as (s10 & Hs10 & Hnorm).
  exists s10. split; [| exact Hnorm].
  rewrite <- (firstn_skipn 6 loops).
  eapply runLoops_app; eassumption.
Qed.

(** ** More fuel changes nothing *)

Lemma while_more_fuel (cond : Rollover -> bool) (body : Rollover -> Rollover)
      (fuel fuel' : nat) (st st' : Rollover) :
  while fuel cond body st = Some st' -> (fuel <= fuel')%nat ->
  while fuel' cond body st = Some st'.
Proof.
  revert fuel' st. induction fuel as [| fuel IH]; intros fuel' st Hrun Hle.
  - discriminate.
  - destruct fuel' as [| fuel']; [lia |].
    cbn [while] in *. destruct (cond st); [| exact Hrun].
    apply IH; [exact Hrun | lia].
Qed.

Lemma runLoops_more_fuel (ls : list ((Rollover -> bool) * (Rollover -> Rollover)))
      (fuel fuel' : nat) (st st' : Rollover) :
  runLoops fuel ls st = Some st' -> (fuel <= fuel')%nat ->
  runLoops fuel' ls st = Some st'.
Proof.
  revert st. induction ls as [| [cond body] ls IH]; intros st Hrun Hle;
    cbn [runLoops] in *.
  - exact Hrun.
  - destruct (while fuel cond body st) as [s1 |] eqn:Hw; [| discriminate].
    rewrite (while_more_fuel _ _ _ _ _ _ Hw Hle). apply IH; assumption.
Qed.

Lemma rollover_more_fuel (fuel fuel' : nat) (y m d h mi s : Z) (out : Outputs)
      (res : bool * Outputs) :
  changeDateTimeForRollover fuel y m d h mi s out = Some res ->
  (fuel <= fuel')%nat ->
  changeDateTimeForRollover fuel' y m d h mi s out = Some res.
Proof.
  unfold changeDateTimeForRollover, rolloverLocals. intros Hrun Hle.
  destruct (runLoops fuel loops _) as [st |] eqn:Hl; [| discriminate].
  rewrite (runLoops_more_fuel _ _ _ _ _ Hl Hle). exact Hrun.
Qed.

(** ** The result of the call *)

Lemma epochHole_normalised (st : Rollover) :
  normalised st -> normalised (epochHole st).
Proof.
  unfold epochHole.
  destruct ((oy st =? 1582) && (om st =? 10) && ((4 <? od st) && (od st <? 15)))
    eqn:Hhole; [| trivial].
  apply andb_prop in Hhole. destruct Hhole as [Hym _].
  apply andb_prop in Hym. destruct Hym as [Hy Hm].
  apply Z.eqb_eq in Hy. apply Z.eqb_eq in Hm.
  unfold normalised, clockOK, secondsOK, minutesOK, hoursOK.
  cbn [oy om od oh omin os]. rewrite Hy, Hm.
  change (numberOfDaysInMonthInYear 10 1582) with 31. lia.
Qed.

Lemma writeBack_changed (st : Rollover) (out : Outputs) :
  change st = true ->
  writeBack st out = mkOutputs (oy st) (om st) (od st) (oh st) (omin st) (os st).
Proof. intros Hc. unfold writeBack, writes. rewrite Hc. reflexivity. Qed.

Lemma writeBack_unchanged (st : Rollover) (out : Outputs) :
  change st = false -> writeBack st out = out.
Proof. intros Hc. unfold writeBack, writes. rewrite Hc. reflexivity. Qed.

(** ** The run with [int] locals *)

Lemma int_value (z v : Z) :
  Checked.int z = Some v -> v = z /\ INT_MIN <= z <= INT_MAX.
Proof.
  unfold Checked.int.
  destruct (Z.leb_spec INT_MIN z) as [Hlo | Hlo];
    destruct (Z.leb_spec z INT_MAX) as [Hhi | Hhi];
    cbn [andb]; intros H; try discriminate H.
  injection H as <-. lia.
Qed.

Lemma checked_days (month year v : Z) :
  Checked.numberOfDaysInMonthInYear month year = Some v ->
  v = numberOfDaysInMonthInYear month year.
Proof.
  unfold Checked.numberOfDaysInMonthInYear, numberOfDaysInMonthInYear.
  destruct month as [| p | p]; unfold Checked.bind.
  - destruct (Checked.int (year - 1)) as [y' |] eqn:E; [| discriminate].
    apply int_value in E. destruct E as [-> _]. congruence.
  - destruct (Pos.eq_dec p 13) as [-> | Hne].
    + destruct (Checked.int (year + 1)) as [y' |] eqn:E; [| discriminate].
      apply int_value in E. destruct E as [-> _]. congruence.
    + do 4 (destruct p as [p | p |]; try congruence).
  - congruence.
Qed.

Lemma checked_days_proper (m y : Z) :
  1 <= m <= 12 ->
  Checked.numberOfDaysInMonthInYear m y
  = Some (numberOfDaysInMonthInYear m y).
Proof. intros Hm. each_month Hm; reflexivity. Qed.

Ltac unbind H :=
  unfold Checked.bind in H;
  repeat match type of H with
         | match ?e with _ => _ end = Some _ =>
             let E := fresh "E" in
             destruct e eqn:E; [| discriminate H]
         end.

Ltac int_values :=
  repeat match goal with
         | E : Checked.int _ = Some _ |- _ =>
             apply int_value in E; destruct E as [-> _]
         | E : Checked.numberOfDaysInMonthInYear _ _ = Some _ |- _ =>
             apply checked_days in E; subst
         end.

Lemma loops_agree : Forall2 agrees Checked.loops loops.
Proof.
  unfold Checked.loops, loops.
  repeat (apply Forall2_cons; [split; cbn [fst snd] |]);
    try apply Forall2_nil;
    try (intros st v H; congruence).
  - intros st st' H. unfold Checked.secCarry in H. unbind H. int_values.
    injection H as <-. reflexivity.
  - intros st st' H. unfold Checked.secBorrow in H. unbind H. int_values.
    injection H as <-. reflexivity.
  - intros st st' H. unfold Checked.minCarry in H. unbind H. int_values.
    injection H as <-. reflexivity.
  - intros st st' H. unfold Checked.minBorrow in H. unbind H. int_values.
    injection H as <-. reflexivity.
  - intros st st' H. unfold Checked.hourCarry in H. unbind H. int_values.
    injection H as <-. reflexivity.
  - intros st st' H. unfold Checked.hourBorrow in H. unbind H. int_values.
    injection H as <-. reflexivity.
  - intros st v H. unbind H. int_values. congruence.
  - intros st st' H. unfold Checked.dayCarry, dayCarry in *.
    unfold Checked.bind in H.
    destruct (Checked.numberOfDaysInMonthInYear (om st) (oy st)) eqn:E1;
      [| discriminate H].
    destruct (Checked.int (od st - z)) eqn:E2; [| discriminate H].
    destruct (Checked.int (om st + 1)) eqn:E3; [| discriminate H].
    int_values. cbv zeta.
    destruct (12 <? om st + 1).
    + destruct (Checked.int (om st + 1 - 12)) eqn:E4; [| discriminate H].
      destruct (Checked.int (oy st + 1)) eqn:E5; [| discriminate H].
      int_values. congruence.
    + congruence.
  - intros st st' H. unfold Checked.dayBorrow, dayBorrow in *.
    unfold Checked.bind in H.
    destruct (Checked.int (om st - 1)) eqn:E0; [| discriminate H].
    apply int_value in E0. destruct E0 as [-> _].
    destruct (Checked.numberOfDaysInMonthInYear (om st - 1) (oy st)) eqn:E1;
      [| discriminate H].
    destruct (Checked.int (od st + z)) eqn:E2; [| discriminate H].
    int_values. cbv zeta.
    destruct (om st - 1 <? 1).
    + destruct (Checked.int (om st - 1 + 12)) eqn:E4; [| discriminate H].
      destruct (Checked.int (oy st - 1)) eqn:E5; [| discriminate H].
      int_values. congruence.
    + congruence.
  - intros st st' H. unfold Checked.monthCarry in H. unbind H. int_values.
    injection H as <-. reflexivity.
  - intros st st' H. unfold Checked.monthBorrow in H. unbind H. int_values.
    injection H as <-. reflexivity.
Qed.

(** A loop that returns with [int] locals returns the same state on the
    integers; a loop that returns on the integers returns the same state
    or overflows with [int] locals. *)
Lemma while_checked (fuel : nat)
      (cI : Rollover -> option bool) (bI : Rollover -> option Rollover)
      (c : Rollover -> bool) (b : Rollover -> Rollover) :
  agrees (cI, bI) (c, b) ->
  forall st : Rollover,
    (forall st', Checked.while fuel cI bI st = Some (Returns st') ->
                 while fuel c b st = Some st')
    /\ (forall st', while fuel c b st = Some st' ->
                    Checked.while fuel cI bI st = Some (Returns st')
                    \/ Checked.while fuel cI bI st = Some Overflow).
Proof.
  intros [Hc Hb]. cbn [fst snd] in Hc, Hb.
  induction fuel as [| fuel IH]; intros st; [split; discriminate |].
  cbn [Checked.while while].
  destruct (cI st) as [v |] eqn:Ec.
  - rewrite <- (Hc st v Ec). destruct v.
    + destruct (bI st) as [s1 |] eqn:Eb.
      * rewrite <- (Hb st s1 Eb). apply IH.
      * split; [discriminate | intros; right; reflexivity].
    + split; intros st' H.
      * congruence.
      * left. congruence.
  - split; [discriminate | intros; right; reflexivity].
Qed.

Lemma runLoops_checked (fuel : nat)
      (lsI : list ((Rollover -> option bool) * (Rollover -> option Rollover)))
      (ls : list ((Rollover -> bool) * (Rollover -> Rollover))) :
  Forall2 agrees lsI ls ->
  forall st : Rollover,
    (forall st', Checked.runLoops fuel lsI st = Some (Returns st') ->
                 runLoops fuel ls st = Some st')
    /\ (forall st', runLoops fuel ls st = Some st' ->
                    Checked.runLoops fuel lsI st = Some (Returns st')
                    \/ Checked.runLoops fuel lsI st = Some Overflow).
Proof.
  intros Hag.
  induction Hag as [| [cI bI] [c b] lsI ls Hpair Hrest IH]; intros st.
  - cbn [Checked.runLoops runLoops]. split; intros st' H.
    + congruence.
    + left. congruence.
  - cbn [Checked.runLoops runLoops].
    destruct (while_checked fuel cI bI c b Hpair st) as [Hto Hfrom].
    split; intros st' H.
    + destruct (Checked.while fuel cI bI st) as [[s1 |] |] eqn:Ew;
        try discriminate H.
      rewrite (Hto s1 eq_refl). apply IH. exact H.
    + destruct (while fuel c b st) as [s1 |] eqn:Ew; [| discriminate H].
      destruct (Hfrom s1 eq_refl) as [-> | ->].
      * apply IH. exact H.
      * right. reflexivity.
Qed.

(** What the call returns with [int] locals, it returns on the
    integers. *)
Lemma checked_returns (fuel : nat) (y m d h mi s : Z) (out : Outputs)
      (res : bool * Outputs) :
  Checked.changeDateTimeForRollover fuel y m d h mi s out
  = Some (Returns res) ->
  changeDateTimeForRollover fuel y m d h mi s out = Some res.
Proof.
  unfold Checked.changeDateTimeForRollover, changeDateTimeForRollover,
    rolloverLocals.
  intros H.
  destruct (Checked.runLoops fuel Checked.loops (mkRollover y m d h mi s false))
    as [[st |] |] eqn:E; try discriminate H.
  apply (runLoops_checked fuel _ _ loops_agree) in E. rewrite E.
  injection H as <-. reflexivity.
Qed.














(** C5: when the ten loops leave a day strictly between 4 and 15 of October
    1582, the call returns true and the day written is 15; so a date that
    the loops bring to 10 October 1582 comes out as 15 October 1582. *)
Theorem C5_epoch_hole_rounds_up_to_15 (fuel : nat) (y m d h mi s : Z)
        (out : Outputs) (st : Rollover) :
  runLoops fuel loops (mkRollover y m d h mi s false) = Some st ->
  oy st = 1582 -> om st = 10 -> 4 < od st < 15 ->
  changeDateTimeForRollover fuel y m d h mi s out
  = Some (true, mkOutputs 1582 10 15 (oh st) (omin st) (os st)).
Proof.
  intros Hrun Hy Hm Hd.
  unfold changeDateTimeForRollover, rolloverLocals. rewrite Hrun.
  unfold epochHole. rewrite Hy, Hm.
  replace (4 <? od st) with true by (symmetry; apply Z.ltb_lt; lia).
  replace (od st <? 15) with true by (symmetry; apply Z.ltb_lt; lia).
  reflexivity.
Qed.

Lemma C5_epoch_hole_rounds_up_to_15_witness :
  changeDateTimeForRollover 5 1582 9 40 23 59 59 (mkOutputs 0 0 0 0 0 0)
  = Some (true, mkOutputs 1582 10 15 23 59 59).
Proof.
  apply (C5_epoch_hole_rounds_up_to_15 5 1582 9 40 23 59 59
           (mkOutputs 0 0 0 0 0 0) (mkRollover 1582 10 10 23 59 59 true)).
  - reflexivity.
  - reflexivity.
  - reflexivity.
  - cbn. lia.
Defined.



(** ** Delta-T *)

Ltac qeq_false :=
  let H := fresh in cbv zeta; intros H; vm_compute in H; discriminate H.

(** C6 (the code departs from it): the decimal year of the Delta-T models
    is computed with the integer quotient [day/31].  On 16 January 2000
    (JD 2451560) the models work on 2000 exactly, not on
    2000 + (16/31 * 30.5)/366, and [getDeltaTByEspenakMeeus] returns the
    value of its polynomial at 2000; likewise on 14 September 763
    (JD 2000000), where [getDeltaTByStephensonMorrison1984] works on the
    decimal year of 1 September. *)
Theorem C6_decimal_year_uses_integer_quotient :
  getDateFromJulianDay 2451560 = (2000, 1, 16)
  /\ (yeardec 2000 1 16 == 2000)%Q
  /\ (specDecimalYear 2000 1 16 == 186004 # 93)%Q
  /\ ~ (yeardec 2000 1 16 == specDecimalYear 2000 1 16)%Q
  /\ (getDeltaTByEspenakMeeus 2451560 == decYear2DeltaT 2000)%Q
  /\ ~ (getDeltaTByEspenakMeeus 2451560
        == decYear2DeltaT (specDecimalYear 2000 1 16))%Q
  /\ getDateFromJulianDay 2000000 = (763, 9, 14)
  /\ (yeardec 763 9 14 == yeardec 763 9 1)%Q
  /\ ~ (yeardec 763 9 14 == specDecimalYear 763 9 14)%Q
  /\ (let u := ((yeardec 763 9 1 - 1800) / 100)%Q in
      getDeltaTByStephensonMorrison1984 2000000
      == 1360.0 + 320 * u + 44.3 * u ^ 2)%Q.
Proof.
  split; [reflexivity |].
  split; [reflexivity |].
  split; [reflexivity |].
  split; [qeq_false |].
  split; [reflexivity |].
  split; [qeq_false |].
  split; [reflexivity |].
  split; [reflexivity |].
  split; [qeq_false |].
  reflexivity.
Qed.

(** C9: for a year from 1900 to 1989 [getDeltaTByMeeusSimons] returns the
    value of its last polynomial, whose guard [1900 <= year <= 2000] holds
    too and is tested last; the polynomials of 1900-1940 and 1940-1990 do
    not reach the result (1 January 1920 and 23 May 1968 show it). *)
Theorem C9_meeus_simons_last_segment_wins (jDay : Q) (year month day : Z) :
  getDateFromJulianDay jDay = (year, month, day) ->
  1900 <= year < 1990 ->
  getDeltaTByMeeusSimons jDay = meeusSimonsLast (yeardec year month day)
  /\ (let u := (0.80 + (yeardec 1920 1 1 - 2000) / 100)%Q in
      ~ (getDeltaTByMeeusSimons 2422325
         == 21.4 + 67.0 * u + 443.0 * u ^ 2 + 19.0 * u ^ 3 + 4441.0 * u ^ 4)%Q)
  /\ (let u := (0.35 + (yeardec 1968 5 23 - 2000) / 100)%Q in
      ~ (getDeltaTByMeeusSimons 2440000
         == 36.2 + 74.0 * u + 189.0 * u ^ 2 - 140.0 * u ^ 3 - 1883.0 * u ^ 4)%Q).
Proof.
  intros Hdate Hyear. split; [| split; qeq_false].
  unfold getDeltaTByMeeusSimons. rewrite Hdate. cbv zeta.
  replace (1900 <=? year) with true by (symmetry; apply Z.leb_le; lia).
  replace (year <=? 2000) with true by (symmetry; apply Z.leb_le; lia).
  reflexivity.
Qed.

Lemma C9_meeus_simons_last_segment_wins_witness :
  getDeltaTByMeeusSimons 2422325 = meeusSimonsLast (yeardec 1920 1 1)
  /\ (let u := (0.80 + (yeardec 1920 1 1 - 2000) / 100)%Q in
      ~ (getDeltaTByMeeusSimons 2422325
         == 21.4 + 67.0 * u + 443.0 * u ^ 2 + 19.0 * u ^ 3 + 4441.0 * u ^ 4)%Q)
  /\ (let u := (0.35 + (yeardec 1968 5 23 - 2000) / 100)%Q in
      ~ (getDeltaTByMeeusSimons 2440000
         == 36.2 + 74.0 * u + 189.0 * u ^ 2 - 140.0 * u ^ 3 - 1883.0 * u ^ 4)%Q).
Proof.
  exact (C9_meeus_simons_last_segment_wins 2422325 1920 1 1 eq_refl
           ltac:(lia)).
Defined.

(** ** The language of a pattern *)

Lemma Matches_Empty (s : list ascii) : ~ Matches Empty s.
Proof. intros H. inversion H. Qed.

Lemma Matches_Eps (s : list ascii) : Matches Eps s -> s = [].
Proof. intros H. inversion H. reflexivity. Qed.

Lemma Matches_Class (p : ascii -> bool) (s : list ascii) :
  Matches (Class p) s -> exists c, s = [c] /\ p c = true.
Proof. intros H. inversion H; subst. eexists. split; [reflexivity | assumption]. Qed.

Lemma Matches_Seq (r1 r2 : regex) (s : list ascii) :
  Matches (Seq r1 r2) s ->
  exists s1 s2, s = s1 ++ s2 /\ Matches r1 s1 /\ Matches r2 s2.
Proof.
  intros H. inversion H; subst. do 2 eexists.
  split; [reflexivity | split; assumption].
Qed.

Lemma Matches_Alt (r1 r2 : regex) (s : list ascii) :
  Matches (Alt r1 r2) s -> Matches r1 s \/ Matches r2 s.
Proof. intros H. inversion H; subst; [left | right]; assumption. Qed.

Lemma Matches_Group (r : regex) (s : list ascii) :
  Matches (Group r) s -> Matches r s.
Proof. intros H. inversion H; subst. assumption. Qed.

Lemma nullable_Matches (r : regex) : nullable r = true <-> Matches r [].
Proof.
  induction r as [| | p | r1 IH1 r2 IH2 | r1 IH1 r2 IH2 | r IH | r IH];
    cbn [nullable].
  - split; [discriminate | intros H; destruct (Matches_Empty _ H)].
  - split; [intros _; constructor | reflexivity].
  - split; [discriminate |].
    intros H. apply Matches_Class in H. destruct H as (c & Hc & _).
    discriminate.
  - rewrite andb_true_iff, IH1, IH2. split.
    + intros [H1 H2]. exact (MSeq r1 r2 [] [] H1 H2).
    + intros H. apply Matches_Seq in H. destruct H as (s1 & s2 & Heq & H1 & H2).
      symmetry in Heq. apply app_eq_nil in Heq. destruct Heq; subst.
      split; assumption.
  - rewrite orb_true_iff, IH1, IH2. split.
    + intros [H | H]; [apply MAltL | apply MAltR]; exact H.
    + apply Matches_Alt.
  - split; [intros _; constructor | reflexivity].
  - rewrite IH. split; [apply MGroup | apply Matches_Group].
Qed.

(** A non-empty word of [r*] starts with a non-empty word of [r]. *)
Lemma star_cons (r : regex) (c : ascii) (s : list ascii) :
  Matches (Star r) (c :: s) ->
  exists s1 s2, s = s1 ++ s2 /\ Matches r (c :: s1) /\ Matches (Star r) s2.
Proof.
  intros H. remember (Star r) as r' eqn:Hr. remember (c :: s) as w eqn:Hw.
  revert c s Hr Hw.
  induction H as [| | | | | | r0 s1 s2 H1 _ H2 IH2 |]; intros a w Hr Hw;
    try discriminate.
  injection Hr as ->.
  destruct s1 as [| c1 s1].
  - cbn [app] in Hw. apply IH2; [reflexivity | exact Hw].
  - cbn [app] in Hw. injection Hw as Hc Hs. subst.
    exists s1, s2. repeat split; assumption.
Qed.

Lemma deriv_Matches (r : regex) (c : ascii) (s : list ascii) :
  Matches (deriv c r) s <-> Matches r (c :: s).
Proof.
  revert s.
  induction r as [| | p | r1 IH1 r2 IH2 | r1 IH1 r2 IH2 | r IH | r IH];
    intros s; cbn [deriv].
  - split; intros H; destruct (Matches_Empty _ H).
  - split; intros H; [destruct (Matches_Empty _ H) |].
    apply Matches_Eps in H. discriminate.
  - destruct (p c) eqn:Hp; split; intros H.
    + apply Matches_Eps in H. subst. constructor. exact Hp.
    + apply Matches_Class in H. destruct H as (c' & Heq & _).
      injection Heq as -> ->. constructor.
    + destruct (Matches_Empty _ H).
    + apply Matches_Class in H. destruct H as (c' & Heq & Hp').
      injection Heq as -> ->. congruence.
  - assert (Hseq : forall w, Matches (Seq (deriv c r1) r2) w ->
                             Matches (Seq r1 r2) (c :: w)).
    { intros w Hw. apply Matches_Seq in Hw.
      destruct Hw as (s1 & s2 & -> & H1 & H2).
      apply IH1 in H1. exact (MSeq r1 r2 (c :: s1) s2 H1 H2). }
    split.
    + intros H. destruct (nullable r1) eqn:Hn.
      * apply Matches_Alt in H. destruct H as [H | H].
        -- apply Hseq. exact H.
        -- apply nullable_Matches in Hn.
           apply (MSeq r1 r2 [] (c :: s) Hn). apply IH2. exact H.
      * apply Hseq. exact H.
    + intros H. apply Matches_Seq in H.
      destruct H as (s1 & s2 & Heq & H1 & H2).
      destruct s1 as [| c1 s1].
      * cbn [app] in Heq. subst s2.
        apply nullable_Matches in H1. rewrite H1.
        apply MAltR. apply IH2. exact H2.
      * cbn [app] in Heq. injection Heq as -> ->.
        apply IH1 in H1.
        destruct (nullable r1); [apply MAltL |]; constructor; assumption.
  - split; intros H; apply Matches_Alt in H; destruct H as [H | H].
    + apply MAltL. apply IH1. exact H.
    + apply MAltR. apply IH2. exact H.
    + apply MAltL. apply IH1. exact H.
    + apply MAltR. apply IH2. exact H.
  - split; intros H.
    + apply Matches_Seq in H. destruct H as (s1 & s2 & -> & H1 & H2).
      apply IH in H1. exact (MStarApp r (c :: s1) s2 H1 H2).
    + apply star_cons in H. destruct H as (s1 & s2 & -> & H1 & H2).
      constructor; [apply IH; exact H1 | exact H2].
  - split; intros H.
    + constructor. apply IH. exact H.
    + apply Matches_Group in H. apply IH. exact H.
Qed.

(** [exactMatch] decides the language of the pattern. *)
Lemma exactMatch_Matches (r : regex) (s : list ascii) :
  exactMatch r s = true <-> Matches r s.
Proof.
  revert r. induction s as [| c s IH]; intros r; cbn [exactMatch].
  - apply nullable_Matches.
  - rewrite IH. apply deriv_Matches.
Qed.

(** ** The texts the pattern accepts *)

Lemma Matches_digit (t : list ascii) :
  Matches digit t <-> nDigits 1 t = true.
Proof.
  unfold digit, nDigits, allDigits. split.
  - intros H. apply Matches_Class in H. destruct H as (c & -> & Hc).
    cbn. rewrite Hc. reflexivity.
  - intros H. destruct t as [| c [| c' t]]; try discriminate.
    cbn in H. rewrite andb_true_r in H. constructor. exact H.
Qed.

Lemma Matches_star_digit (t : list ascii) :
  Matches (Star digit) t <-> allDigits t = true.
Proof.
  split.
  - intros H. remember (Star digit) as r eqn:Hr.
    induction H as [| | | | | | r0 s1 s2 H1 _ H2 IH2 |]; try discriminate.
    + reflexivity.
    + injection Hr as ->. apply Matches_digit in H1.
      unfold nDigits in H1. apply andb_prop in H1. destruct H1 as [_ H1].
      unfold allDigits in *. rewrite forallb_app, H1. apply IH2. reflexivity.
  - induction t as [| c t IH]; intros H.
    + constructor.
    + cbn in H. apply andb_prop in H. destruct H as [Hc Ht].
      apply (MStarApp digit [c] t); [constructor; exact Hc | apply IH; exact Ht].
Qed.

Lemma Matches_plus_digit (t : list ascii) :
  Matches (Plus digit) t
  <-> negb (Nat.eqb (List.length t) 0) && allDigits t = true.
Proof.
  unfold Plus. split.
  - intros H. apply Matches_Seq in H. destruct H as (s1 & s2 & -> & H1 & H2).
    apply Matches_Class in H1. destruct H1 as (c & -> & Hc).
    apply Matches_star_digit in H2. cbn. rewrite Hc. exact H2.
  - intros H. destruct t as [| c t]; [discriminate |].
    cbn in H. apply andb_prop in H. destruct H as [Hc Ht].
    apply (MSeq digit (Star digit) [c] t); [constructor; exact Hc |].
    apply Matches_star_digit. exact Ht.
Qed.

Lemma Matches_two_digits (t : list ascii) :
  Matches reTwoDigits t <-> nDigits 2 t = true.
Proof.
  unfold reTwoDigits. split.
  - intros H. apply Matches_Seq in H. destruct H as (s1 & s2 & -> & H1 & H2).
    apply Matches_Class in H1. destruct H1 as (a & -> & Ha).
    apply Matches_Class in H2. destruct H2 as (b & -> & Hb).
    cbn. rewrite Ha, Hb. reflexivity.
  - intros H. destruct t as [| a [| b [| c t]]]; try discriminate.
    cbn in H. rewrite andb_true_r in H. apply andb_prop in H.
    destruct H as [Ha Hb].
    apply (MSeq digit digit [a] [b]); constructor; assumption.
Qed.

Lemma Matches_sign (t : list ascii) :
  Matches (Opt (Class isSign)) t <-> isSignText t = true.
Proof.
  unfold Opt. split.
  - intros H. apply Matches_Alt in H. destruct H as [H | H].
    + apply Matches_Class in H. destruct H as (c & -> & Hc). exact Hc.
    + apply Matches_Eps in H. subst. reflexivity.
  - intros H. destruct t as [| c [| c' t]]; try discriminate.
    + apply MAltR. constructor.
    + apply MAltL. constructor. exact H.
Qed.

Lemma Matches_year (t : list ascii) :
  Matches reYear t
  <-> exists sg yd, t = sg ++ yd /\ isSignText sg = true
                    /\ negb (Nat.eqb (List.length yd) 0) && allDigits yd = true.
Proof.
  unfold reYear. split.
  - intros H. apply Matches_Seq in H. destruct H as (s1 & s2 & -> & H1 & H2).
    exists s1, s2. split; [reflexivity |].
    split; [apply Matches_sign; exact H1 | apply Matches_plus_digit; exact H2].
  - intros (sg & yd & -> & Hsg & Hyd).
    constructor; [apply Matches_sign | apply Matches_plus_digit]; assumption.
Qed.

Lemma Matches_hour (t : list ascii) :
  Matches reHour t <-> nDigits 1 t || nDigits 2 t = true.
Proof.
  unfold reHour, Opt. split.
  - intros H. apply Matches_Seq in H. destruct H as (s1 & s2 & -> & H1 & H2).
    apply Matches_Class in H2. destruct H2 as (b & -> & Hb).
    apply Matches_Alt in H1. destruct H1 as [H1 | H1].
    + apply Matches_Class in H1. destruct H1 as (a & -> & Ha).
      cbn. rewrite Ha, Hb. reflexivity.
    + apply Matches_Eps in H1. subst. cbn. rewrite Hb. reflexivity.
  - intros H. apply orb_prop in H. destruct H as [H | H].
    + apply Matches_digit in H.
      apply (MSeq (Alt digit Eps) digit [] t); [apply MAltR; constructor | exact H].
    + destruct t as [| a [| b [| c t]]]; try discriminate.
      cbn in H. rewrite andb_true_r in H. apply andb_prop in H.
      destruct H as [Ha Hb].
      apply (MSeq (Alt digit Eps) digit [a] [b]);
        [apply MAltL |]; constructor; assumption.
Qed.

Lemma Matches_fraction (t : list ascii) :
  Matches (Opt (Seq (Chr ".") (Star digit))) t <-> isFractionText t = true.
Proof.
  unfold Opt, Chr. split.
  - intros H. apply Matches_Alt in H. destruct H as [H | H].
    + apply Matches_Seq in H. destruct H as (s1 & s2 & -> & H1 & H2).
      apply Matches_Class in H1. destruct H1 as (c & -> & Hc).
      apply Matches_star_digit in H2.
      cbn [app isFractionText]. rewrite Ascii.eqb_sym, Hc. exact H2.
    + apply Matches_Eps in H. subst. reflexivity.
  - intros H. destruct t as [| c fd]; [apply MAltR; constructor |].
    cbn [isFractionText] in H. apply andb_prop in H. destruct H as [Hc Hfd].
    apply MAltL.
    apply (MSeq (Class (Ascii.eqb ".")) (Star digit) [c] fd).
    + constructor. rewrite Ascii.eqb_sym. exact Hc.
    + apply Matches_star_digit. exact Hfd.
Qed.

Lemma Matches_seconds (t : list ascii) :
  Matches reSeconds t
  <-> exists sd fr, t = sd ++ fr /\ nDigits 2 sd = true
                    /\ isFractionText fr = true.
Proof.
  unfold reSeconds. split.
  - intros H. apply Matches_Seq in H. destruct H as (s1 & s2 & -> & H1 & H2).
    apply Matches_Seq in H2. destruct H2 as (s3 & s4 & -> & H3 & H4).
    exists (s1 ++ s3), s4. split; [apply app_assoc |]. split.
    + apply Matches_two_digits. constructor; assumption.
    + apply Matches_fraction. exact H4.
  - intros (sd & fr & -> & Hsd & Hfr).
    apply Matches_two_digits in Hsd. apply Matches_Seq in Hsd.
    destruct Hsd as (s1 & s2 & -> & H1 & H2).
    rewrite <- app_assoc. constructor; [exact H1 |].
    constructor; [exact H2 | apply Matches_fraction; exact Hfr].
Qed.

Lemma Matches_Chr (a : ascii) (t : list ascii) :
  Matches (Chr a) t <-> t = [a].
Proof.
  unfold Chr. split.
  - intros H. apply Matches_Class in H. destruct H as (c & -> & Hc).
    apply Ascii.eqb_eq in Hc. subst. reflexivity.
  - intros ->. constructor. apply Ascii.eqb_refl.
Qed.

(** The language of [finalRe], spelt out. *)
Lemma finalRe_parts (s : list ascii) :
  Matches finalRe s <-> exists p, wellFormed p = true /\ s = assemble p.
Proof.
  unfold finalRe. split.
  - intros H.
    apply Matches_Seq in H. destruct H as (g1 & u1 & -> & G1 & H).
    apply Matches_Seq in H. destruct H as (x1 & u2 & -> & X1 & H).
    apply Matches_Seq in H. destruct H as (g2 & u3 & -> & G2 & H).
    apply Matches_Seq in H. destruct H as (x2 & u4 & -> & X2 & H).
    apply Matches_Seq in H. destruct H as (g3 & u5 & -> & G3 & H).
    apply Matches_Seq in H. destruct H as (x3 & u6 & -> & X3 & H).
    apply Matches_Seq in H. destruct H as (g4 & u7 & -> & G4 & H).
    apply Matches_Seq in H. destruct H as (x4 & u8 & -> & X4 & H).
    apply Matches_Seq in H. destruct H as (g5 & u9 & -> & G5 & H).
    apply Matches_Seq in H. destruct H as (x5 & g6 & -> & X5 & G6).
    apply Matches_Group, Matches_year in G1.
    destruct G1 as (sg & yd & -> & Hsg & Hyd).
    apply Matches_Class in X1. destruct X1 as (c1 & -> & Hc1).
    apply Matches_Group, Matches_two_digits in G2.
    apply Matches_Class in X2. destruct X2 as (c2 & -> & Hc2).
    apply Matches_Group, Matches_two_digits in G3.
    apply Matches_Chr in X3. subst x3.
    apply Matches_Group, Matches_hour in G4.
    apply Matches_Chr in X4. subst x4.
    apply Matches_Group, Matches_two_digits in G5.
    apply Matches_Chr in X5. subst x5.
    apply Matches_Group, Matches_seconds in G6.
    destruct G6 as (sd & fr & -> & Hsd & Hfr).
    exists (mkIsoParts sg yd c1 g2 c2 g3 g4 g5 sd fr). split.
    + unfold wellFormed. cbn [pSign pYear pSep1 pMonth pSep2 pDay pHour
                                pMinute pSecond pFraction].
      rewrite Hsg, Hc1, G2, Hc2, G3, G4, G5, Hsd, Hfr.
      apply andb_prop in Hyd. destruct Hyd as [Hy1 Hy2]. rewrite Hy1, Hy2.
      reflexivity.
    + unfold assemble. cbn [pSign pYear pSep1 pMonth pSep2 pDay pHour
                              pMinute pSecond pFraction].
      cbn [app]. reflexivity.
  - intros (p & Hwf & ->). destruct p as [sg yd c1 mo c2 dd hh mi sd fr].
    unfold wellFormed, assemble in *.
    cbn [pSign pYear pSep1 pMonth pSep2 pDay pHour pMinute pSecond pFraction]
      in *.
    repeat match goal with
           | H : _ && _ = true |- _ =>
               let Ha := fresh "Ha" in
               let Hb := fresh "Hb" in
               apply andb_prop in H; destruct H as [Ha Hb]
           end.
    constructor.
    { constructor. apply Matches_year. exists sg, yd.
      split; [reflexivity |]. split; [assumption |].
      apply andb_true_intro. split; assumption. }
    apply (MSeq _ _ [c1]); [constructor; assumption |].
    constructor; [constructor; apply Matches_two_digits; assumption |].
    apply (MSeq _ _ [c2]); [constructor; assumption |].
    constructor; [constructor; apply Matches_two_digits; assumption |].
    apply (MSeq _ _ ["T"%char]); [apply Matches_Chr; reflexivity |].
    constructor; [constructor; apply Matches_hour; assumption |].
    apply (MSeq _ _ [":"%char]); [apply Matches_Chr; reflexivity |].
    constructor; [constructor; apply Matches_two_digits; assumption |].
    apply (MSeq _ _ [":"%char]); [apply Matches_Chr; reflexivity |].
    constructor. apply Matches_seconds. exists sd, fr.
    split; [reflexivity |]. split; assumption.
Qed.

(** ** The captured texts and their conversion *)

Lemma sep_not_digit (c : ascii) : isSep c = true -> isDigit c = false.
Proof.
  unfold isSep. intros H. apply orb_prop in H.
  destruct H as [H | H]; apply Ascii.eqb_eq in H; subst; reflexivity.
Qed.

Lemma sign_not_digit (c : ascii) : isSign c = true -> isDigit c = false.
Proof.
  unfold isSign. intros H. apply orb_prop in H.
  destruct H as [H | H]; apply Ascii.eqb_eq in H; subst; reflexivity.
Qed.

Lemma digit_not_sign (c : ascii) : isDigit c = true -> isSign c = false.
Proof.
  intros H. destruct (isSign c) eqn:Hs; [| reflexivity].
  apply sign_not_digit in Hs. congruence.
Qed.

Lemma spanDigits_app (ds rest : list ascii) :
  allDigits ds = true ->
  match rest with
  | c :: _ => isDigit c = false
  | [] => True
  end ->
  spanDigits (ds ++ rest) = (ds, rest).
Proof.
  intros Hds Hrest. induction ds as [| d ds IH]; cbn [app].
  - destruct rest as [| c rest]; [reflexivity |].
    cbn [spanDigits]. rewrite Hrest. reflexivity.
  - cbn in Hds. apply andb_prop in Hds. destruct Hds as [Hd Hds].
    cbn [spanDigits]. rewrite Hd, (IH Hds). reflexivity.
Qed.

Lemma two_digits_inv (t : list ascii) :
  nDigits 2 t = true ->
  exists a b, t = [a; b] /\ isDigit a = true /\ isDigit b = true.
Proof.
  intros H. destruct t as [| a [| b [| c t]]]; try discriminate.
  cbn in H. rewrite andb_true_r in H. apply andb_prop in H.
  exists a, b. split; [reflexivity | exact H].
Qed.

Lemma hour_digits (t : list ascii) :
  nDigits 1 t || nDigits 2 t = true ->
  allDigits t = true /\ (1 <= List.length t <= 2)%nat.
Proof.
  intros H. apply orb_prop in H. unfold nDigits in H.
  destruct H as [H | H]; apply andb_prop in H; destruct H as [Hl Hd];
    apply Nat.eqb_eq in Hl; split; [exact Hd | lia | exact Hd | lia].
Qed.

Lemma capturedTexts_assemble (p : IsoParts) :
  wellFormed p = true ->
  capturedTexts (assemble p)
  = [ assemble p; pSign p ++ pYear p; pMonth p; pDay p; pHour p;
      pMinute p; pSecond p ++ pFraction p ].
Proof.
  intros Hwf. destruct p as [sg yd c1 mo c2 dd hh mi sd fr].
  unfold wellFormed in Hwf.
  cbn [pSign pYear pSep1 pMonth pSep2 pDay pHour pMinute pSecond pFraction]
    in *.
  repeat match goal with
         | H : _ && _ = true |- _ =>
             let Ha := fresh "Ha" in
             let Hb := fresh "Hb" in
             apply andb_prop in H; destruct H as [Ha Hb]
         end.
  match goal with H : isSep c1 = true |- _ => pose proof (sep_not_digit c1 H) as Hn1 end.
  match goal with H : nDigits 2 mo = true |- _ =>
    apply two_digits_inv in H; destruct H as (m1 & m2 & -> & _ & _) end.
  match goal with H : nDigits 2 dd = true |- _ =>
    apply two_digits_inv in H; destruct H as (d1 & d2 & -> & _ & _) end.
  match goal with H : nDigits 2 mi = true |- _ =>
    apply two_digits_inv in H; destruct H as (i1 & i2 & -> & _ & _) end.
  match goal with H : _ || _ = true |- _ =>
    apply hour_digits in H; destruct H as [Hhh _] end.
  set (tail := c1 :: [m1; m2] ++ c2 :: [d1; d2] ++ "T"%char :: hh
                ++ ":"%char :: [i1; i2] ++ ":"%char :: sd ++ fr).
  assert (Hy : spanDigits (yd ++ tail) = (yd, tail))
    by (apply spanDigits_app; [assumption | exact Hn1]).
  assert (Hh : spanDigits (hh ++ ":"%char :: [i1; i2] ++ ":"%char :: sd ++ fr)
               = (hh, ":"%char :: [i1; i2] ++ ":"%char :: sd ++ fr))
    by (apply spanDigits_app; [assumption | reflexivity]).
  cbn [app] in Hh.
  unfold assemble.
  cbn [pSign pYear pSep1 pMonth pSep2 pDay pHour pMinute pSecond pFraction].
  fold tail. unfold capturedTexts.
  destruct sg as [| sc [| sc' sg]]; try discriminate.
  - destruct yd as [| y0 yd]; [discriminate |].
    cbn [app].
    assert (Hy0 : isSign y0 = false).
    { apply digit_not_sign.
      match goal with H : allDigits (y0 :: yd) = true |- _ =>
        cbn in H; apply andb_prop in H; apply H end. }
    rewrite Hy0. cbn [app] in Hy. rewrite Hy.
    unfold tail. cbn [skipn firstn app]. rewrite Hh. reflexivity.
  - cbn [app].
    match goal with H : isSignText [sc] = true |- _ =>
      cbn [isSignText] in H; rewrite H end.
    rewrite Hy. unfold tail. cbn [skipn firstn app]. rewrite Hh. reflexivity.
Qed.

Lemma not_sign_chars (c : ascii) :
  isSign c = false -> Ascii.eqb c "-" = false /\ Ascii.eqb c "+" = false.
Proof.
  unfold isSign. intros H. apply orb_false_elim in H. destruct H; split; assumption.
Qed.

(** A text of digits converts to its value when that fits an [int]. *)
Lemma toInt_digits (t : list ascii) :
  allDigits t = true -> t <> [] ->
  toInt t = if (INT_MIN <=? digitsValue t) && (digitsValue t <=? INT_MAX)
            then (digitsValue t, true) else (0, false).
Proof.
  intros Hd Hne. destruct t as [| c t]; [congruence |].
  assert (Hc : isDigit c = true) by (cbn in Hd; apply andb_prop in Hd; apply Hd).
  destruct (not_sign_chars c (digit_not_sign c Hc)) as [Hm Hp].
  unfold toInt. rewrite Hm, Hp.
  unfold allDigits in Hd. rewrite Hd. reflexivity.
Qed.

Lemma toInt_signed (sc : ascii) (t : list ascii) :
  isSign sc = true -> allDigits t = true -> t <> [] ->
  let v := if Ascii.eqb sc "-" then - digitsValue t else digitsValue t in
  toInt (sc :: t) = if (INT_MIN <=? v) && (v <=? INT_MAX)
                    then (v, true) else (0, false).
Proof.
  intros Hs Hd Hne v. unfold toInt.
  destruct t as [| c t]; [congruence |].
  unfold allDigits in Hd.
  destruct (Ascii.eqb sc "-") eqn:Hm.
  - rewrite Hd. reflexivity.
  - unfold isSign in Hs. rewrite Hm, orb_false_r in Hs. rewrite Hs, Hd.
    reflexivity.
Qed.

Lemma digitValue_range (c : ascii) :
  isDigit c = true -> 0 <= digitValue c <= 9.
Proof.
  unfold isDigit, digitValue. intros H. apply andb_prop in H.
  destruct H as [Hlo Hhi].
  apply N.leb_le in Hlo. apply N.leb_le in Hhi. lia.
Qed.

Lemma digitsValue_short (t : list ascii) :
  allDigits t = true -> (List.length t <= 2)%nat -> 0 <= digitsValue t <= 99.
Proof.
  intros Hd Hl. destruct t as [| a [| b [| c t]]]; cbn in Hl; try lia.
  - unfold digitsValue. cbn [fold_left]. lia.
  - cbn in Hd. rewrite andb_true_r in Hd.
    pose proof (digitValue_range a Hd).
    unfold digitsValue. cbn [fold_left]. lia.
  - cbn in Hd. rewrite andb_true_r in Hd. apply andb_prop in Hd.
    destruct Hd as [Ha Hb].
    pose proof (digitValue_range a Ha). pose proof (digitValue_range b Hb).
    unfold digitsValue. cbn [fold_left]. lia.
Qed.

(** One or two digits always convert. *)
Lemma toInt_short (t : list ascii) :
  allDigits t = true -> (1 <= List.length t <= 2)%nat ->
  toInt t = (digitsValue t, true).
Proof.
  intros Hd Hl.
  assert (Hne : t <> []) by (destruct t; [cbn in Hl; lia | discriminate]).
  rewrite (toInt_digits t Hd Hne).
  pose proof (digitsValue_short t Hd ltac:(lia)) as Hv.
  replace (INT_MIN <=? digitsValue t) with true
    by (symmetry; apply Z.leb_le; unfold INT_MIN; lia).
  replace (digitsValue t <=? INT_MAX) with true
    by (symmetry; apply Z.leb_le; unfold INT_MAX; lia).
  reflexivity.
Qed.

Lemma toInt_two_digits (t : list ascii) :
  nDigits 2 t = true -> toInt t = (digitsValue t, true).
Proof.
  unfold nDigits. intros H. apply andb_prop in H. destruct H as [Hl Hd].
  apply Nat.eqb_eq in Hl. apply toInt_short; [exact Hd | lia].
Qed.

Lemma toInt_year (p : IsoParts) :
  wellFormed p = true ->
  toInt (pSign p ++ pYear p)
  = if (INT_MIN <=? yearValue p) && (yearValue p <=? INT_MAX)
    then (yearValue p, true) else (0, false).
Proof.
  intros Hwf. destruct p as [sg yd c1 mo c2 dd hh mi sd fr].
  unfold wellFormed, yearValue in *.
  cbn [pSign pYear pSep1 pMonth pSep2 pDay pHour pMinute pSecond pFraction]
    in *.
  repeat match goal with
         | H : _ && _ = true |- _ =>
             let Ha := fresh "Ha" in
             let Hb := fresh "Hb" in
             apply andb_prop in H; destruct H as [Ha Hb]
         end.
  assert (Hne : yd <> []) by (destruct yd; [discriminate | discriminate]).
  destruct sg as [| sc [| sc' sg]]; try discriminate; cbn [app].
  - apply toInt_digits; assumption.
  - apply toInt_signed; assumption.
Qed.

(** The seconds always convert. *)
Lemma toFloat_seconds (sd fr : list ascii) :
  nDigits 2 sd = true -> isFractionText fr = true ->
  snd (toFloat (sd ++ fr)) = true.
Proof.
  intros Hsd Hfr. unfold toFloat.
  assert (Hd : allDigits sd = true)
    by (unfold nDigits in Hsd; apply andb_prop in Hsd; apply Hsd).
  rewrite spanDigits_app; [| exact Hd |].
  - apply two_digits_inv in Hsd. destruct Hsd as (a & b & -> & _ & _).
    destruct fr as [| c fd]; [reflexivity |].
    cbn [isFractionText] in Hfr. unfold allDigits in Hfr. rewrite Hfr.
    reflexivity.
  - destruct fr as [| c fd]; [exact I |].
    cbn [isFractionText] in Hfr. apply andb_prop in Hfr. destruct Hfr as [Hc _].
    apply Ascii.eqb_eq in Hc. subst. reflexivity.
Qed.

(** What the parser does with an assembled text: only the year can fail
    to convert. *)
Lemma getDateTime_assemble (p : IsoParts) :
  wellFormed p = true ->
  getDateTimeFromISO8601String (assemble p)
  = if (INT_MIN <=? yearValue p) && (yearValue p <=? INT_MAX)
    then Some (yearValue p, digitsValue (pMonth p), digitsValue (pDay p),
               digitsValue (pHour p), digitsValue (pMinute p), secondsValue p)
    else None.
Proof.
  intros Hwf. unfold getDateTimeFromISO8601String.
  assert (Hm : exactMatch finalRe (assemble p) = true).
  { apply exactMatch_Matches. apply finalRe_parts. exists p. split; trivial. }
  rewrite Hm. change (captureCount finalRe =? 6) with true. cbn [andb].
  rewrite (capturedTexts_assemble p Hwf). cbv zeta. unfold textAt. cbn [nth].
  rewrite (toInt_year p Hwf).
  pose proof Hwf as Hwf'. unfold wellFormed in Hwf'.
  repeat match goal with
         | H : _ && _ = true |- _ =>
             let Ha := fresh "Ha" in
             let Hb := fresh "Hb" in
             apply andb_prop in H; destruct H as [Ha Hb]
         end.
  match goal with H : _ || _ = true |- _ =>
    apply hour_digits in H; destruct H as [Hhd Hhl] end.
  rewrite (toInt_two_digits (pMonth p)) by assumption.
  rewrite (toInt_two_digits (pDay p)) by assumption.
  rewrite (toInt_short (pHour p)) by assumption.
  rewrite (toInt_two_digits (pMinute p)) by assumption.
  pose proof (toFloat_seconds (pSecond p) (pFraction p)
                ltac:(assumption) ltac:(assumption)) as Hsec.
  unfold secondsValue.
  destruct (toFloat (pSecond p ++ pFraction p)) as [sv ok].
  cbn [snd fst] in *. subst ok.
  destruct ((INT_MIN <=? yearValue p) && (yearValue p <=? INT_MAX));
    reflexivity.
Qed.

(** C8, as stated, fails: the text 2000-01-01T1:00:00 has a one-digit hour,
    so it is not of the pattern with two-digit fields, and the parser
    returns true on it. *)
Lemma C8_one_digit_hour_accepted :
  ~ (forall s : list ascii,
        isoAccepted s = true <-> exactMatch specIsoPattern s = true).
Proof.
  intros H.
  destruct (H (list_ascii_of_string "2000-01-01T1:00:00")) as [Hcode _].
  specialize (Hcode eq_refl). vm_compute in Hcode. discriminate Hcode.
Qed.

(** C8, amended: the parser returns true exactly on the texts made of an
    optional sign, one or more year digits whose signed value fits an
    [int], a separator, two month digits, a separator, two day digits, [T],
    one or two hour digits, a colon, two minute digits, a colon, two second
    digits and an optional point followed by digits; on every text it
    rejects, [getJulianDayFromISO8601String] returns 0.0 with its flag
    false. *)
Theorem C8_iso_texts_accepted (s : list ascii) :
  (isoAccepted s = true
   <-> exists p : IsoParts,
        wellFormed p = true /\ s = assemble p
        /\ INT_MIN <= yearValue p <= INT_MAX)
  /\ (forall qd : QDateApi,
         isoAccepted s = false ->
         getJulianDayFromISO8601String qd s = (0.0%Q, false)).
Proof.
  split.
  - split.
    + intros Hacc. unfold isoAccepted in Hacc.
      destruct (exactMatch finalRe s) eqn:Hm.
      * apply exactMatch_Matches, finalRe_parts in Hm.
        destruct Hm as (p & Hwf & ->). exists p.
        split; [exact Hwf |]. split; [reflexivity |].
        rewrite (getDateTime_assemble p Hwf) in Hacc.
        destruct ((INT_MIN <=? yearValue p) && (yearValue p <=? INT_MAX))
          eqn:Hr; [| discriminate].
        apply andb_prop in Hr. destruct Hr as [Hlo Hhi].
        apply Z.leb_le in Hlo. apply Z.leb_le in Hhi. lia.
      * unfold getDateTimeFromISO8601String in Hacc. rewrite Hm in Hacc.
        discriminate.
    + intros (p & Hwf & -> & Hlo & Hhi). unfold isoAccepted.
      rewrite (getDateTime_assemble p Hwf).
      replace (INT_MIN <=? yearValue p) with true
        by (symmetry; apply Z.leb_le; exact Hlo).
      replace (yearValue p <=? INT_MAX) with true
        by (symmetry; apply Z.leb_le; exact Hhi).
      reflexivity.
  - intros qd Hrej. unfold isoAccepted in Hrej.
    unfold getJulianDayFromISO8601String.
    destruct (getDateTimeFromISO8601String s); [discriminate | reflexivity].
Qed.

(** ** The Julian calendar and the years before the common era *)

(** [dateFields] on the day count of a date, for any [julian]. *)
Lemma dateFields_of_marchCount_shifted (julian jy jm d : Z) :
  0 <= marchCount jy jm d -> jy <= INT_MAX -> 4 <= jm <= 15 -> 1 <= d ->
  d <= lbbOf (jm + 1) - lbbOf jm ->
  (jm = 15 -> d <= 28 + (if (jy + 1) mod 4 =? 0 then 1 else 0)) ->
  dateFields julian (marchCount jy jm d)
  = ((if jm <=? 13 then jy else jy + 1) - centuryShift julian,
     if jm <=? 13 then jm - 1 else jm - 13,
     d).
Proof.
  intros Hta Hy Hm Hd Hlen Hfeb.
  assert (Hd31 : d <= 31) by (unfold lbbOf in Hlen; zdiv).
  unfold dateFields, INT_MAX, centuryShift in *.
  set (tb := marchCount jy jm d + 1524).
  assert (Hpos : 2442 <= tb * 20 < 18446744073709551616)
    by (unfold tb; unfold marchCount, lbbOf in *; zdiv).
  rewrite (tc_value tb Hpos). cbv zeta.
  assert (Htc : (tb * 20 - 2442) / 7305 = jy + 4716).
  { unfold tb. unfold marchCount in *.
    destruct (Z.eqb_spec ((jy + 1) mod 4) 0);
      each_shifted_month Hm; unfold lbbOf in *; zdiv. }
  rewrite Htc.
  assert (Hjy : 0 <= jy + 4716).
  { rewrite <- Htc. apply Z.div_pos; lia. }
  rewrite (cdiv_nonneg (jy + 4716)) by lia.
  assert (Hte : C.div ((tb - (365 * (jy + 4716) + (jy + 4716) / 4)) * 10000)
                      306001 = jm).
  { unfold tb. unfold marchCount in *.
    destruct (Z.eqb_spec ((jy + 1) mod 4) 0);
      each_shifted_month Hm; unfold lbbOf in *;
      rewrite cdiv_nonneg by zdiv; zdiv. }
  rewrite Hte.
  rewrite (cdiv_nonneg (306001 * jm)) by lia.
  fold (lbbOf jm).
  assert (Hdd : tb - (365 * (jy + 4716) + (jy + 4716) / 4) - lbbOf jm = d)
    by (unfold tb, marchCount; zdiv).
  rewrite Hdd.
  destruct (Z.leb_spec jm 13) as [H13 | H13].
  - replace (12 <? jm - 1) with false by (symmetry; apply Z.ltb_ge; lia).
    replace (2 <? jm - 1) with true by (symmetry; apply Z.ltb_lt; lia).
    destruct (julian <? 0); f_equal; f_equal; lia.
  - replace (12 <? jm - 1) with true by (symmetry; apply Z.ltb_lt; lia).
    replace (2 <? jm - 1 - 12) with false by (symmetry; apply Z.ltb_ge; lia).
    destruct (julian <? 0); f_equal; f_equal; lia.
Qed.

(** For a date before the reform [ljulOf] is the plain day count, also for
    the year zero and the years before it. *)
Lemma ljulOf_julian (y m d : Z) :
  beforeReform y m d -> 1 <= m <= 12 -> 1 <= d <= 31 ->
  let jy := if 2 <? m then y else y - 1 in
  let jm := if 2 <? m then m + 1 else m + 13 in
  ljulOf y m d = marchCount jy jm d.
Proof.
  intros Hb Hm Hd jy jm. unfold ljulOf, beforeReform in *.
  replace (if 2 <? m then (y, m + 1) else (y - 1, m + 13)) with (jy, jm)
    by (unfold jy, jm; destruct (2 <? m); reflexivity).
  cbv zeta.
  replace (IGREG2 <=? d + 31 * (m + 12 * y)) with false
    by (symmetry; apply Z.leb_gt; unfold IGREG2; lia).
  assert (Hjm : 4 <= jm) by (unfold jm; destruct (Z.ltb_spec 2 m); lia).
  rewrite (cdiv_nonneg (306001 * jm)) by lia.
  unfold marchCount, lbbOf. f_equal. f_equal. f_equal.
  unfold C.truthy, C.div, C.rem.
  destruct (Z.ltb_spec jy 0) as [Hneg | Hpos]; cbn [andb].
  - destruct (Z.eqb_spec (Z.rem jy 4) 0) as [Hr | Hr]; cbn [negb]; zquot.
  - zquot.
Qed.

Lemma days_julian_february (y d : Z) :
  y <= 1582 -> d <= numberOfDaysInMonthInYear 2 y ->
  d <= 28 + (if y mod 4 =? 0 then 1 else 0).
Proof.
  intros Hy Hd. rewrite february_length in Hd.
  replace (1582 <? y) with false in Hd by (symmetry; apply Z.ltb_ge; lia).
  unfold julianLeap in Hd. destruct (y mod 4 =? 0); lia.
Qed.

(** The integer core of the round trip for the Julian calendar. *)
Lemma fieldsOfJulian_ljulOf_julian (y m d : Z) :
  beforeReform y m d -> 1 <= m <= 12 ->
  1 <= d <= numberOfDaysInMonthInYear m y ->
  fieldsOfJulian (ljulOf y m d) = (y, m, d).
Proof.
  intros Hb Hm Hd.
  assert (Hy : y <= 1582) by (unfold beforeReform in Hb; lia).
  assert (Hd31 : 1 <= d <= 31).
  { pose proof (days_inside m y ltac:(lia)). lia. }
  rewrite ljulOf_julian by assumption. cbv zeta.
  set (jy := if 2 <? m then y else y - 1).
  set (jm := if 2 <? m then m + 1 else m + 13).
  assert (Hjy : jy <= 1582) by (unfold jy; destruct (2 <? m); lia).
  assert (Hjm : 4 <= jm <= 15)
    by (unfold jm; destruct (Z.ltb_spec 2 m); lia).
  assert (Hlen : d <= lbbOf (jm + 1) - lbbOf jm).
  { unfold jm. rewrite days_monthLength in Hd by exact Hm.
    unfold monthLength in Hd.
    each_month Hm; cbn [Z.ltb Z.compare Pos.compare Pos.compare_cont];
      try (vm_compute (lbbOf _ - lbbOf _); lia).
    vm_compute (lbbOf _ - lbbOf _).
    destruct (if 1582 <? y then gregorianLeap y else julianLeap y); lia. }
  assert (Hfeb : forall k, jm = 15 ->
                   d <= 28 + (if (jy + 100 * k + 1) mod 4 =? 0 then 1 else 0)).
  { intros k H15. unfold jm, jy in *.
    destruct (Z.ltb_spec 2 m) as [H2 | H2]; [lia |].
    assert (m = 2) by lia. subst m.
    replace ((y - 1 + 100 * k + 1) mod 4) with (y mod 4) by zdiv.
    apply days_julian_february; lia. }
  assert (Hbefore : marchCount jy jm d < JD_GREG_CAL).
  { unfold beforeReform in Hb. unfold JD_GREG_CAL, marchCount, jy, jm.
    destruct (Z.ltb_spec 2 m); unfold lbbOf; each_month Hm; zdiv. }
  set (J := marchCount jy jm d) in *.
  unfold fieldsOfJulian, ta_of.
  replace (JD_GREG_CAL <=? J) with false by (symmetry; apply Z.leb_gt; lia).
  unfold julian_ta.
  assert (Hresult : forall yr mo,
             (yr, mo) = (if 2 <? m then (jy, jm - 1) else (jy + 1, jm - 13)) ->
             (yr, mo, d) = (y, m, d)).
  { intros yr mo Heq. unfold jy, jm in Heq.
    destruct (Z.ltb_spec 2 m); injection Heq as -> ->; f_equal; f_equal; lia. }
  destruct (Z.ltb_spec J 0) as [Hneg | Hpos].
  - set (k := 1 - C.div J 36525).
    assert (Hk : 1 <= k /\ 0 < J + 36525 * k <= 36525)
      by (unfold k, C.div; zquot).
    replace (J + 36525 * k) with (marchCount (jy + 100 * k) jm d)
      by (unfold J, marchCount; zdiv).
    rewrite dateFields_of_marchCount_shifted; try lia.
    + unfold centuryShift.
      replace (J <? 0) with true by (symmetry; apply Z.ltb_lt; lia).
      fold k. apply Hresult. unfold jm.
      destruct (Z.ltb_spec 2 m) as [H2 | H2].
      * replace (m + 1 <=? 13) with true by (symmetry; apply Z.leb_le; lia).
        f_equal; lia.
      * replace (m + 13 <=? 13) with false by (symmetry; apply Z.leb_gt; lia).
        f_equal; lia.
    + replace (marchCount (jy + 100 * k) jm d) with (J + 36525 * k)
        by (unfold J, marchCount; zdiv).
      lia.
    + assert (Hsmall : marchCount (jy + 100 * k) jm d <= 36525).
      { replace (marchCount (jy + 100 * k) jm d) with (J + 36525 * k)
          by (unfold J, marchCount; zdiv). lia. }
      unfold INT_MAX. unfold marchCount, lbbOf in Hsmall. zdiv.
    + apply Hfeb.
  - change (dateFields J J) with (dateFields J (marchCount jy jm d)).
    rewrite dateFields_of_marchCount_shifted; try (unfold INT_MAX; lia).
    + unfold centuryShift.
      replace (J <? 0) with false by (symmetry; apply Z.ltb_ge; lia).
      apply Hresult. unfold jm.
      destruct (Z.ltb_spec 2 m) as [H2 | H2].
      * replace (m + 1 <=? 13) with true by (symmetry; apply Z.leb_le; lia).
        f_equal; lia.
      * replace (m + 13 <=? 13) with false by (symmetry; apply Z.leb_gt; lia).
        f_equal; lia.
    + intros H15. specialize (Hfeb 0 H15).
      replace (jy + 100 * 0 + 1) with (jy + 1) in Hfeb by lia. exact Hfeb.
Qed.

(** ** From a day number to a date and back *)

(** What [dateFields] returns is a date whose day count is [ta]. *)
Lemma dateFields_marchCount (julian ta : Z) :
  0 <= ta -> ta * 20 < 18446744073709000000 ->
  exists jy jm dd : Z,
    dateFields julian ta
    = ((if jm <=? 13 then jy else jy + 1) - centuryShift julian,
       if jm <=? 13 then jm - 1 else jm - 13,
       dd)
    /\ marchCount jy jm dd = ta
    /\ 4 <= jm <= 15 /\ 1 <= dd
    /\ dd <= lbbOf (jm + 1) - lbbOf jm
    /\ (jm = 15 -> dd <= 28 + (if (jy + 1) mod 4 =? 0 then 1 else 0)).
Proof.
  intros Hta Hbig. unfold dateFields.
  set (tb := ta + 1524).
  assert (Hpos : 2442 <= tb * 20 < 18446744073709551616) by (unfold tb; lia).
  rewrite (tc_value tb Hpos). cbv zeta.
  set (tc := (tb * 20 - 2442) / 7305).
  assert (Htc : 0 <= tc) by (unfold tc; apply Z.div_pos; lia).
  rewrite (cdiv_nonneg tc) by lia.
  set (td := 365 * tc + tc / 4).
  assert (Hspan : 123 <= tb - td <= 488) by (unfold td, tc; zdiv).
  rewrite (cdiv_nonneg ((tb - td) * 10000)) by lia.
  set (te := (tb - td) * 10000 / 306001).
  assert (Hte : 4 <= te <= 15) by (unfold te; zdiv).
  rewrite (cdiv_nonneg (306001 * te)) by lia.
  exists (tc - 4716), te, (tb - td - 306001 * te / 10000).
  split.
  { unfold centuryShift.
    destruct (Z.leb_spec te 13) as [H13 | H13].
    - replace (12 <? te - 1) with false by (symmetry; apply Z.ltb_ge; lia).
      replace (2 <? te - 1) with true by (symmetry; apply Z.ltb_lt; lia).
      destruct (julian <? 0); f_equal; f_equal; lia.
    - replace (12 <? te - 1) with true by (symmetry; apply Z.ltb_lt; lia).
      replace (2 <? te - 1 - 12) with false by (symmetry; apply Z.ltb_ge; lia).
      destruct (julian <? 0); f_equal; f_equal; lia. }
  split.
  { unfold marchCount, lbbOf, tb, td. zdiv. }
  split; [exact Hte |].
  assert (Hte' : te = (tb - td) * 10000 / 306001) by reflexivity.
  assert (Htd' : td = 365 * tc + tc / 4) by reflexivity.
  assert (Htc' : tc = (tb * 20 - 2442) / 7305) by reflexivity.
  clearbody te td tc. unfold lbbOf.
  split; [| split].
  - each_shifted_month Hte; zdiv.
  - each_shifted_month Hte; zdiv.
  - intros H15. subst te.
    replace ((tc - 4716 + 1) mod 4) with ((tc + 1) mod 4) by zdiv.
    destruct (Z.eqb_spec ((tc + 1) mod 4) 0); zdiv.
Qed.

(** In the Gregorian branch the century of the date is the one
    [gregorian_ta] worked with, and 29 February falls in Gregorian leap
    years only. *)
Lemma gregorian_ta_century (j jy jm dd : Z) :
  JD_GREG_CAL <= j ->
  marchCount jy jm dd = gregorian_ta j ->
  4 <= jm <= 15 -> 1 <= dd ->
  dd <= lbbOf (jm + 1) - lbbOf jm ->
  (jm = 15 -> dd <= 28 + (if (jy + 1) mod 4 =? 0 then 1 else 0)) ->
  jy / 100 = (4 * (j - 1867216) - 1) / 146097 + 4.
Proof.
  unfold JD_GREG_CAL, gregorian_ta.
  intros Hj Hcount Hjm Hdd Hlen Hfeb.
  rewrite cdiv_nonneg in Hcount by lia.
  set (jalpha := (4 * (j - 1867216) - 1) / 146097) in *.
  assert (Ha : 11 <= jalpha) by (unfold jalpha; zdiv).
  rewrite cdiv_nonneg in Hcount by lia.
  assert (Hja : jalpha = (4 * (j - 1867216) - 1) / 146097) by reflexivity.
  clearbody jalpha.
  unfold marchCount in Hcount.
  destruct (Z.eqb_spec ((jy + 1) mod 4) 0);
    each_shifted_month Hjm; unfold lbbOf in *; zdiv.
Qed.

Lemma gregorian_ta_february (j jy dd : Z) :
  JD_GREG_CAL <= j ->
  marchCount jy 15 dd = gregorian_ta j ->
  1 <= dd ->
  dd <= 28 + (if (jy + 1) mod 4 =? 0 then 1 else 0) ->
  dd <= 28 + (if gregorianLeap (jy + 1) then 1 else 0).
Proof.
  intros Hj Hcount Hdd Hfeb.
  pose proof (gregorian_ta_century j jy 15 dd Hj Hcount ltac:(lia) Hdd
                ltac:(vm_compute (lbbOf _ - lbbOf _);
                      destruct ((jy + 1) mod 4 =? 0); lia)
                ltac:(intros _; exact Hfeb)) as Hcent.
  unfold JD_GREG_CAL, gregorian_ta, gregorianLeap in *.
  rewrite cdiv_nonneg in Hcount by lia.
  set (jalpha := (4 * (j - 1867216) - 1) / 146097) in *.
  assert (Ha : 11 <= jalpha) by (unfold jalpha; zdiv).
  rewrite cdiv_nonneg in Hcount by lia.
  assert (Hja : jalpha = (4 * (j - 1867216) - 1) / 146097) by reflexivity.
  clearbody jalpha.
  unfold marchCount, lbbOf in Hcount.
  destruct (Z.eqb_spec ((jy + 1) mod 4) 0); cbn [andb]; [| exact Hfeb].
  destruct (Z.eqb_spec ((jy + 1) mod 100) 0); cbn [negb orb]; [| exact Hfeb].
  destruct (Z.eqb_spec ((jy + 1) mod 400) 0); [exact Hfeb |].
  zdiv.
Qed.

(** [ljulOf] in terms of the March-based year and the shifted month. *)
Lemma ljulOf_march (jy jm d : Z) :
  4 <= jm <= 15 ->
  let y := if jm <=? 13 then jy else jy + 1 in
  let m := if jm <=? 13 then jm - 1 else jm - 13 in
  ljulOf y m d
  = marchCount jy jm d
    + (if IGREG2 <=? d + 31 * (m + 12 * y)
       then 2 - jy / 100 + jy / 100 / 4 else 0).
Proof.
  intros Hjm y m. unfold ljulOf.
  replace (if 2 <? m then (y, m + 1) else (y - 1, m + 13)) with (jy, jm).
  2:{ unfold y, m. destruct (Z.leb_spec jm 13).
      - replace (2 <? jm - 1) with true by (symmetry; apply Z.ltb_lt; lia).
        f_equal; lia.
      - replace (2 <? jm - 13) with false by (symmetry; apply Z.ltb_ge; lia).
        f_equal; lia. }
  cbv zeta.
  rewrite (cdiv_nonneg (306001 * jm)) by lia.
  assert (Hlaa : (if (jy <? 0) && C.truthy (C.rem jy 4)
                  then C.div (1461 * jy) 4 - 1 else C.div (1461 * jy) 4)
                 = 1461 * jy / 4).
  { unfold C.truthy, C.div, C.rem.
    destruct (Z.ltb_spec jy 0); cbn [andb]; [| zquot].
    destruct (Z.eqb_spec (Z.rem jy 4) 0); cbn [negb]; zquot. }
  rewrite Hlaa.
  assert (Hlcc : (if (jy <? 0) && C.truthy (C.rem jy 100)
                  then C.div jy 100 - 1 else C.div jy 100)
                 = jy / 100).
  { unfold C.truthy, C.div, C.rem.
    destruct (Z.ltb_spec jy 0); cbn [andb]; [| zquot].
    destruct (Z.eqb_spec (Z.rem jy 100) 0); cbn [negb]; zquot. }
  rewrite Hlcc.
  assert (Hlee : (if (jy / 100 <? 0) && C.truthy (C.rem (jy / 100) 4)
                  then C.div (jy / 100) 4 - 1 else C.div (jy / 100) 4)
                 = jy / 100 / 4).
  { generalize (jy / 100). intros c.
    unfold C.truthy, C.div, C.rem.
    destruct (Z.ltb_spec c 0); cbn [andb]; [| zquot].
    destruct (Z.eqb_spec (Z.rem c 4) 0); cbn [negb]; zquot. }
  rewrite Hlee.
  unfold marchCount, lbbOf.
  destruct (IGREG2 <=? d + 31 * (m + 12 * y)); lia.
Qed.

Lemma month_of_shifted (jm : Z) :
  4 <= jm <= 15 -> 1 <= (if jm <=? 13 then jm - 1 else jm - 13) <= 12.
Proof. intros H. destruct (Z.leb_spec jm 13); lia. Qed.

(** The length of the month a shifted month stands for. *)
Lemma days_of_shifted (jy jm dd : Z) :
  4 <= jm <= 15 ->
  let y := if jm <=? 13 then jy else jy + 1 in
  let m := if jm <=? 13 then jm - 1 else jm - 13 in
  dd <= lbbOf (jm + 1) - lbbOf jm ->
  (jm = 15 ->
   dd <= 28 + (if (if 1582 <? y then gregorianLeap y else julianLeap y)
               then 1 else 0)) ->
  dd <= numberOfDaysInMonthInYear m y.
Proof.
  intros Hjm y m Hlen Hfeb.
  rewrite days_monthLength by (apply month_of_shifted; exact Hjm).
  unfold monthLength, m, y in *.
  each_shifted_month Hjm;
    cbn [Z.leb Z.compare Pos.compare Pos.compare_cont Z.sub Z.add Z.opp
         Z.pos_sub Pos.pred_double Z.succ_double Z.pred_double Z.double] in *;
    try (vm_compute (lbbOf _ - lbbOf _) in Hlen; lia).
  specialize (Hfeb eq_refl).
  destruct (if 1582 <? jy + 1 then gregorianLeap (jy + 1)
            else julianLeap (jy + 1)); lia.
Qed.

(** The heart of the matter: the date of a day number is a valid date of
    the calendar in force, and [ljulOf] maps it back to the day number. *)
Lemma fieldsOfJulian_inverse (j : Z) :
  j <= 700000000000 ->
  exists y m d : Z,
    fieldsOfJulian j = (y, m, d)
    /\ 1 <= m <= 12
    /\ 1 <= d <= numberOfDaysInMonthInYear m y
    /\ ljulOf y m d = j.
Proof.
  intros Hmax. unfold fieldsOfJulian, ta_of.
  destruct (Z.leb_spec JD_GREG_CAL j) as [Hg | Hjul].
  - (* Gregorian branch *)
    pose proof (gregorian_ta_lower j Hg) as Hlow.
    assert (Hup : gregorian_ta j * 20 < 18446744073709000000).
    { unfold gregorian_ta, JD_GREG_CAL, C.div in *. zquot. }
    destruct (dateFields_marchCount j (gregorian_ta j) ltac:(lia) Hup)
      as (jy & jm & dd & Hdate & Hcount & Hjm & Hdd & Hlen & Hfeb).
    pose proof (gregorian_ta_century j jy jm dd Hg Hcount Hjm Hdd Hlen Hfeb)
      as Hcent.
    assert (Hd31 : dd <= 31) by (unfold lbbOf in Hlen; zdiv).
    unfold centuryShift in Hdate.
    replace (j <? 0) with false in Hdate
      by (symmetry; apply Z.ltb_ge; unfold JD_GREG_CAL in Hg; lia).
    rewrite Z.sub_0_r in Hdate.
    eexists _, _, _. split; [exact Hdate |].
    split; [apply month_of_shifted; exact Hjm |].
    assert (Hreform : IGREG2 <= dd + 31 * ((if jm <=? 13 then jm - 1 else jm - 13)
                                 + 12 * (if jm <=? 13 then jy else jy + 1))).
    { unfold IGREG2. unfold marchCount in Hcount.
      each_shifted_month Hjm;
        cbn [Z.leb Z.compare Pos.compare Pos.compare_cont];
        unfold lbbOf in *; zdiv. }
    split; [split; [exact Hdd |] |].
    + apply days_of_shifted; try assumption.
      intros H15. subst jm.
      cbn [Z.leb Z.compare Pos.compare Pos.compare_cont] in *.
      replace (1582 <? jy + 1) with true
        by (symmetry; apply Z.ltb_lt; unfold IGREG2 in Hreform; lia).
      apply (gregorian_ta_february j); try assumption.
      apply Hfeb. reflexivity.
    + rewrite (ljulOf_march jy jm dd Hjm). cbv zeta.
      replace (IGREG2 <=? _) with true by (symmetry; apply Z.leb_le; exact Hreform).
      rewrite Hcount, Hcent.
      unfold gregorian_ta. unfold JD_GREG_CAL in Hg.
      rewrite cdiv_nonneg by lia.
      set (jalpha := (4 * (j - 1867216) - 1) / 146097).
      assert (Ha : 0 <= jalpha) by (unfold jalpha; zdiv).
      rewrite cdiv_nonneg by lia. zdiv.
  - (* Julian branch *)
    unfold JD_GREG_CAL in Hjul.
    set (ta := julian_ta j).
    assert (Hta : 0 <= ta <= 2299160 /\ ta = j + 36525 * (centuryShift j / 100)
                  /\ 0 <= centuryShift j).
    { unfold ta, julian_ta, centuryShift, C.div.
      destruct (Z.ltb_spec j 0); zquot. }
    destruct Hta as (Hta & Hshift & Hcs).
    destruct (dateFields_marchCount j ta ltac:(lia) ltac:(lia))
      as (jy & jm & dd & Hdate & Hcount & Hjm & Hdd & Hlen & Hfeb).
    assert (Hd31 : dd <= 31) by (unfold lbbOf in Hlen; zdiv).
    set (k := centuryShift j) in *.
    assert (Hk : k mod 100 = 0)
      by (unfold k, centuryShift; destruct (j <? 0); zdiv).
    assert (Hcount' : marchCount (jy - k) jm dd = j)
      by (unfold marchCount in *; zdiv).
    assert (Hneg : j < 0 \/ k = 0)
      by (unfold k, centuryShift; destruct (Z.ltb_spec j 0); lia).
    clearbody k ta.
    assert (Hold : ~ IGREG2 <= dd + 31 * ((if jm <=? 13 then jm - 1 else jm - 13)
                            + 12 * (if jm <=? 13 then jy - k else jy - k + 1))).
    { unfold IGREG2. unfold marchCount in Hcount, Hcount'.
      each_shifted_month Hjm;
        cbn [Z.leb Z.compare Pos.compare Pos.compare_cont];
        unfold lbbOf in *; zdiv. }
    exists ((if jm <=? 13 then jy - k else jy - k + 1)),
           (if jm <=? 13 then jm - 1 else jm - 13), dd.
    split; [rewrite Hdate; destruct (jm <=? 13); f_equal; f_equal; lia |].
    split; [apply month_of_shifted; exact Hjm |].
    split; [split; [exact Hdd |] |].
    + apply (days_of_shifted (jy - k) jm dd Hjm); [exact Hlen |].
      intros H15. subst jm.
      cbn [Z.leb Z.compare Pos.compare Pos.compare_cont] in *.
      replace (1582 <? jy - k + 1) with false
        by (symmetry; apply Z.ltb_ge; unfold IGREG2 in Hold; lia).
      unfold julianLeap.
      replace ((jy - k + 1) mod 4) with ((jy + 1) mod 4) by zdiv.
      apply Hfeb. reflexivity.
    + rewrite (ljulOf_march (jy - k) jm dd Hjm). cbv zeta.
      replace (IGREG2 <=? _) with false by (symmetry; apply Z.leb_gt; lia).
      lia.
Qed.

(** ** Round trips over the whole calendar *)

Lemma ljulOf_year_bound (y m d : Z) :
  1 <= m <= 12 -> 1 <= d <= 31 ->
  - JULIAN_LIMIT <= ljulOf y m d <= JULIAN_LIMIT ->
  - 2000000000 <= y <= 2000000000.
Proof.
  unfold JULIAN_LIMIT. intros Hm Hd Hj.
  assert (Hjm : 4 <= (if m <=? 2 then m + 13 else m + 1) <= 15)
    by (destruct (Z.leb_spec m 2); lia).
  pose proof (ljulOf_march (if m <=? 2 then y - 1 else y)
                (if m <=? 2 then m + 13 else m + 1) d Hjm) as Heq.
  cbv zeta in Heq.
  replace (if (if m <=? 2 then m + 13 else m + 1) <=? 13
           then if m <=? 2 then y - 1 else y
           else (if m <=? 2 then y - 1 else y) + 1) with y in Heq
    by (destruct (Z.leb_spec m 2);
        [replace (m + 13 <=? 13) with false by (symmetry; apply Z.leb_gt; lia)
        | replace (m + 1 <=? 13) with true by (symmetry; apply Z.leb_le; lia)];
        lia).
  replace (if (if m <=? 2 then m + 13 else m + 1) <=? 13
           then (if m <=? 2 then m + 13 else m + 1) - 1
           else (if m <=? 2 then m + 13 else m + 1) - 13) with m in Heq
    by (destruct (Z.leb_spec m 2);
        [replace (m + 13 <=? 13) with false by (symmetry; apply Z.leb_gt; lia)
        | replace (m + 1 <=? 13) with true by (symmetry; apply Z.leb_le; lia)];
        lia).
  rewrite Heq in Hj. unfold marchCount, lbbOf in Hj.
  destruct (IGREG2 <=? d + 31 * (m + 12 * y));
    destruct (Z.leb_spec m 2); zdiv.
Qed.

Lemma ljulOf_year_fits (y m d : Z) :
  1 <= m <= 12 -> 1 <= d <= 31 ->
  - JULIAN_LIMIT <= ljulOf y m d <= JULIAN_LIMIT ->
  INT_MIN <= y <= INT_MAX.
Proof.
  intros Hm Hd Hj. pose proof (ljulOf_year_bound y m d Hm Hd Hj).
  unfold INT_MIN, INT_MAX. lia.
Qed.

(** Within the limit the three fields fit their [int]s. *)
Lemma dateOfJulian_is_fields (j : Z) :
  - JULIAN_LIMIT <= j <= JULIAN_LIMIT -> dateOfJulian j = fieldsOfJulian j.
Proof.
  intros Hj.
  destruct (fieldsOfJulian_inverse j ltac:(unfold JULIAN_LIMIT in Hj; lia))
    as (y & m & d & Hf & Hm & Hd & Hl).
  pose proof (days_at_most_31 m y Hm) as Hlen.
  pose proof (ljulOf_year_bound y m d Hm ltac:(lia)
                ltac:(rewrite Hl; exact Hj)) as Hy.
  rewrite Hf. unfold dateOfJulian. apply date_of_ta_fields.
  - exact Hf.
  - exact Hm.
  - unfold INT_MIN, INT_MAX. lia.
  - unfold INT_MIN, INT_MAX. lia.
Qed.

(** The heart of the matter: the date of a day number is a valid date of
    the calendar in force, and [ljulOf] maps it back to the day number. *)
Lemma dateOfJulian_inverse (j : Z) :
  - JULIAN_LIMIT <= j <= JULIAN_LIMIT ->
  exists y m d : Z,
    dateOfJulian j = (y, m, d)
    /\ 1 <= m <= 12
    /\ 1 <= d <= numberOfDaysInMonthInYear m y
    /\ ljulOf y m d = j.
Proof.
  intros Hj. rewrite dateOfJulian_is_fields by exact Hj.
  apply fieldsOfJulian_inverse. unfold JULIAN_LIMIT in Hj. lia.
Qed.

(** ** The table of Meeus *)

(** The decimal year of a date lies within its year. *)
Lemma yeardec_in_year (year month day : Z) :
  1 <= month <= 12 -> 1 <= day <= 31 ->
  (inject_Z year <= yeardec year month day <= inject_Z year + 1)%Q.
Proof.
  intros Hm Hd. unfold yeardec, C.of_int.
  assert (Hq : 0 <= C.div day 31 <= 1)
    by (rewrite cdiv_nonneg by lia; zdiv).
  pose proof (inject_Z_bounds (month - 1) 0 11 ltac:(lia)) as Bm.
  pose proof (inject_Z_bounds (C.div day 31) 0 1 Hq) as Bd.
  set (qm := inject_Z (month - 1)) in *. clearbody qm.
  set (qd := inject_Z (C.div day 31)) in *. clearbody qd.
  set (qy := inject_Z year). clearbody qy.
  unfold Qdiv. change (/ 366)%Q with (1 # 366)%Q.
  split; lra.
Qed.

(** A value interpolated with a weight from 0 to 1 lies between the two
    ends. *)
Lemma lerp_between (a b w : Q) :
  (0 <= w <= 1)%Q ->
  ((a <= b -> a <= lerp a b w <= b) /\ (b <= a -> b <= lerp a b w <= a))%Q.
Proof.
  intros [Hw0 Hw1]. unfold lerp.
  assert (E : ((1 - w) * a + w * b == a + w * (b - a))%Q) by ring.
  assert (E' : ((1 - w) * a + w * b == b - (1 - w) * (b - a))%Q) by ring.
  split; intros Hab.
  - split.
    + rewrite E.
      pose proof (Qmult_le_0_compat w (b - a) Hw0 ltac:(lra)). lra.
    + rewrite E'.
      pose proof (Qmult_le_0_compat (1 - w) (b - a) ltac:(lra) ltac:(lra)).
      lra.
  - split.
    + rewrite E'.
      pose proof (Qmult_le_0_compat (1 - w) (a - b) ltac:(lra) ltac:(lra))
        as H.
      assert (((1 - w) * (a - b) == - ((1 - w) * (b - a)))%Q) by ring. lra.
    + rewrite E.
      pose proof (Qmult_le_0_compat w (a - b) Hw0 ltac:(lra)) as H.
      assert ((w * (a - b) == - (w * (b - a)))%Q) by ring. lra.
Qed.

(** C7: for a year from 1620 to 1999 [getDeltaTByMeeus] reads the table at
    [pos = (year - 1620)/2] and [pos + 1], both among its 191 entries, and
    returns the tenth of the value interpolated linearly between the two
    entries at the decimal year.  For a Julian Day whose day number is
    within the limit the weight of the interpolation is from 0 to 1, so
    the result lies between the tenths of the two entries.  For the year
    1700 [pos] is 40, the two entries are 70 and 70 and the result is 7
    seconds; on 1 July 1621, three quarters of the way from the entry
    1210 to the entry 1120, the result is 114.25 seconds. *)
Theorem C7_meeus_interpolates_table (jDay : Q) (year month day : Z) :
  getDateFromJulianDay jDay = (year, month, day) ->
  1620 <= year < 2000 ->
  let pos := (year - 1620) / 2 in
  let w := ((yeardec year month day - inject_Z (2 * pos + 1620)) / 2)%Q in
  C.div (year - 1620) 2 = pos
  /\ (0 <= pos /\ pos + 1 < Z.of_nat (List.length MeeusDeltaTTable))
  /\ nth_error MeeusDeltaTTable (Z.to_nat pos) = Some (tableAt pos)
  /\ nth_error MeeusDeltaTTable (Z.to_nat (pos + 1)) = Some (tableAt (pos + 1))
  /\ getDeltaTByMeeus jDay
     = ((C.of_int (tableAt pos)
         + (yeardec year month day - C.of_int (2 * pos + 1620)) * 0.5
           * C.of_int (tableAt (pos + 1) - tableAt pos)) / 10.0)%Q
  /\ (getDeltaTByMeeus jDay
      == lerp (inject_Z (tableAt pos) / 10) (inject_Z (tableAt (pos + 1)) / 10)
              w)%Q
  /\ (- JULIAN_LIMIT <= julianOf jDay <= JULIAN_LIMIT ->
      (0 <= w <= 1)%Q
      /\ (tableAt pos <= tableAt (pos + 1) ->
          (inject_Z (tableAt pos) / 10 <= getDeltaTByMeeus jDay
           <= inject_Z (tableAt (pos + 1)) / 10)%Q)
      /\ (tableAt (pos + 1) <= tableAt pos ->
          (inject_Z (tableAt (pos + 1)) / 10 <= getDeltaTByMeeus jDay
           <= inject_Z (tableAt pos) / 10)%Q))
  /\ (year = 1700 ->
      pos = 40 /\ tableAt pos = 70 /\ tableAt (pos + 1) = 70
      /\ (getDeltaTByMeeus jDay == 7)%Q)
  /\ getDateFromJulianDay 2313300 = (1621, 7, 1)
  /\ tableAt 0 = 1210 /\ tableAt 1 = 1120
  /\ (getDeltaTByMeeus 2313300 == 114.25)%Q.
Proof.
  intros Hdate Hyear pos w.
  assert (Hpos : C.div (year - 1620) 2 = pos)
    by (apply cdiv_nonneg; lia).
  assert (Hrange : 0 <= pos <= 189) by (unfold pos; zdiv).
  assert (Hcode : getDeltaTByMeeus jDay
     = ((C.of_int (tableAt pos)
         + (yeardec year month day - C.of_int (2 * pos + 1620)) * 0.5
           * C.of_int (tableAt (pos + 1) - tableAt pos)) / 10.0)%Q).
  { unfold getDeltaTByMeeus. rewrite Hdate.
    replace (year <? 948) with false by (symmetry; apply Z.ltb_ge; lia).
    replace (year <? 1620) with false by (symmetry; apply Z.ltb_ge; lia).
    replace (year <? 2000) with true by (symmetry; apply Z.ltb_lt; lia).
    cbv zeta. rewrite Hpos. reflexivity. }
  assert (Hlerp : (getDeltaTByMeeus jDay
      == lerp (inject_Z (tableAt pos) / 10) (inject_Z (tableAt (pos + 1)) / 10)
              w)%Q).
  { rewrite Hcode. unfold lerp, C.of_int, w.
    generalize (yeardec year month day) (2 * pos + 1620)
               (tableAt (pos + 1)) (tableAt pos).
    intros yd base b a.
    unfold Z.sub. rewrite inject_Z_plus, inject_Z_opp.
    field. }
  assert (Hentry : forall i, 0 <= i <= 190 ->
            nth_error MeeusDeltaTTable (Z.to_nat i) = Some (tableAt i)).
  { intros i Hi. unfold tableAt. apply nth_error_nth'.
    change (List.length MeeusDeltaTTable) with 191%nat. lia. }
  split; [exact Hpos |].
  split; [change (Z.of_nat (List.length MeeusDeltaTTable)) with 191; lia |].
  split; [apply Hentry; lia |].
  split; [apply Hentry; lia |].
  split; [exact Hcode |].
  split; [exact Hlerp |].
  split.
  { intros Hj.
    assert (Hw : (0 <= w <= 1)%Q).
    { unfold getDateFromJulianDay in Hdate.
      destruct (dateOfJulian_inverse (julianOf jDay) Hj)
        as (y' & m' & d' & Hdate' & Hm & Hd & _).
      rewrite Hdate' in Hdate. injection Hdate as -> -> ->.
      pose proof (days_at_most_31 month year Hm) as Hlen.
      pose proof (yeardec_in_year year month day Hm ltac:(lia)) as Hyd.
      pose proof (inject_Z_bounds (year - (2 * pos + 1620)) 0 1
                    ltac:(unfold pos; zdiv)) as Hb.
      assert (Eb : (inject_Z (year - (2 * pos + 1620))
                    == inject_Z year - inject_Z (2 * pos + 1620))%Q)
        by (unfold Z.sub; rewrite inject_Z_plus, inject_Z_opp; reflexivity).
      destruct Hb as [Hb0 Hb1]. rewrite Eb in Hb0, Hb1. clear Eb.
      unfold w.
      set (yd := yeardec year month day) in *. clearbody yd.
      set (qb := inject_Z (2 * pos + 1620)) in *. clearbody qb.
      set (qy := inject_Z year) in *. clearbody qy.
      unfold Qdiv. change (/ 2)%Q with (1 # 2)%Q. split; lra. }
    split; [exact Hw |].
    destruct (lerp_between (inject_Z (tableAt pos) / 10)
                (inject_Z (tableAt (pos + 1)) / 10) w Hw) as [Hup Hdown].
    assert (Hten : forall a b : Z, a <= b ->
               (inject_Z a / 10 <= inject_Z b / 10)%Q).
    { intros a b Hab. rewrite Zle_Qle in Hab.
      unfold Qdiv. change (/ 10)%Q with (1 # 10)%Q. lra. }
    split; intros Hord; rewrite Hlerp;
      [apply Hup | apply Hdown]; apply Hten; exact Hord. }
  split.
  { intros ->.
    assert (E40 : pos = 40) by reflexivity.
    split; [exact E40 |].
    split; [rewrite E40; reflexivity |].
    split; [rewrite E40; reflexivity |].
    rewrite Hlerp, E40. unfold lerp.
    change (tableAt 40) with 70. change (tableAt (40 + 1)) with 70.
    generalize w. intros v. unfold Qdiv. change (/ 10)%Q with (1 # 10)%Q.
    change (inject_Z 70) with 70%Q. lra. }
  split; [vm_compute; reflexivity |].
  split; [reflexivity |].
  split; [reflexivity |].
  vm_compute. reflexivity.
Qed.

Lemma C7_meeus_interpolates_table_witness :
  getDateFromJulianDay 2341973.25 = (1700, 1, 1)
  /\ (getDeltaTByMeeus 2341973.25 == 7)%Q.
Proof.
  split; [vm_compute; reflexivity |].
  pose proof (C7_meeus_interpolates_table 2341973.25 1700 1 1
                ltac:(vm_compute; reflexivity) ltac:(lia)) as H.
  cbv zeta in H.
  destruct H as (_ & _ & _ & _ & _ & _ & _ & H & _).
  exact (proj2 (proj2 (proj2 (H eq_refl)))).
Defined.

(** ** Round trips on the Julian side of the reform *)

(** From the year -50000 to the reform the day number stays above
    [- 2 ^ 24]. *)
Lemma ljulOf_julian_range (y m d : Z) :
  beforeReform y m d -> -50000 <= y -> 1 <= m <= 12 -> 1 <= d <= 31 ->
  - TIME_LIMIT < ljulOf y m d < TIME_LIMIT.
Proof.
  intros Hb Hy Hm Hd. rewrite ljulOf_julian by assumption. cbv zeta.
  unfold beforeReform in Hb. unfold marchCount, lbbOf, TIME_LIMIT.
  destruct (Z.ltb_spec 2 m); zdiv.
Qed.

(** X1: from the year -50000 on, a valid date of the Julian calendar (up
    to 4 October 1582, the year zero and the years before it included) and
    a time of day survive the trip through the Julian Day exactly. *)
Theorem X1_julian_calendar_roundtrip (qd : QDateApi) (y m d h mi s : Z) :
  beforeReform y m d ->
  -50000 <= y ->
  1 <= m <= 12 ->
  1 <= d <= numberOfDaysInMonthInYear m y ->
  0 <= h <= 23 -> 0 <= mi <= 59 -> 0 <= s <= 59 ->
  QDate_agrees qd y m d ->
  let jd := snd (getJDFromDate qd y m d h mi s) in
  getDateFromJulianDay jd = (y, m, d)
  /\ getTimeFromJulianDay jd = (h, mi, s).
Proof.
  intros Hb Hy Hm Hd Hh Hmi Hs Hqd jd.
  unfold jd. rewrite (getJDFromDate_jdOf qd y m d h mi s Hqd). cbn [snd].
  pose proof (days_at_most_31 m y Hm) as Hlen.
  pose proof (ljulOf_julian_range y m d Hb Hy Hm ltac:(lia)) as Hn.
  split.
  - unfold getDateFromJulianDay.
    rewrite julianOf_jdOf
      by (unfold DATE_LIMIT, TIME_LIMIT in *; try assumption; lia).
    rewrite dateOfJulian_is_fields
      by (unfold JULIAN_LIMIT, TIME_LIMIT in *; lia).
    apply fieldsOfJulian_ljulOf_julian; assumption.
  - apply getTimeFromJulianDay_jdOf; assumption.
Qed.

Lemma X1_julian_calendar_roundtrip_witness :
  let jd := snd (getJDFromDate QDate4 0 2 29 23 59 59) in
  getDateFromJulianDay jd = (0, 2, 29)
  /\ getTimeFromJulianDay jd = (23, 59, 59).
Proof.
  exact (X1_julian_calendar_roundtrip QDate4 0 2 29 23 59 59
           ltac:(unfold beforeReform; lia) ltac:(lia) ltac:(lia)
           ltac:(vm_compute; split; discriminate)
           ltac:(lia) ltac:(lia) ltac:(lia) (fun _ => eq_refl)).
Defined.

(** X2: the date [getDateFromJulianDay] returns is a date of the calendar:
    the month is between 1 and 12, the day between 1 and the length
    [numberOfDaysInMonthInYear] gives that month, and the year fits an
    [int]. *)
Theorem X2_julian_day_gives_valid_date (jd : Q) :
  - JULIAN_LIMIT <= julianOf jd <= JULIAN_LIMIT ->
  let '(y, m, d) := getDateFromJulianDay jd in
  INT_MIN <= y <= INT_MAX
  /\ 1 <= m <= 12
  /\ 1 <= d <= numberOfDaysInMonthInYear m y.
Proof.
  intros Hj. unfold getDateFromJulianDay.
  destruct (dateOfJulian_inverse (julianOf jd) Hj)
    as (y & m & d & -> & Hm & Hd & Hl).
  split; [| split; assumption].
  apply (ljulOf_year_fits y m d Hm).
  - pose proof (days_inside m y ltac:(lia)). lia.
  - rewrite Hl. exact Hj.
Qed.

Lemma X2_julian_day_gives_valid_date_witness :
  let '(y, m, d) := getDateFromJulianDay (-0.75) in
  INT_MIN <= y <= INT_MAX
  /\ 1 <= m <= 12
  /\ 1 <= d <= numberOfDaysInMonthInYear m y.
Proof.
  exact (X2_julian_day_gives_valid_date (-0.75)
           ltac:(vm_compute; split; discriminate)).
Defined.

(** X3: within [2 ^ 24] days of day zero, the Julian Day of a day number
    and a time of day in whole seconds (their rounded sum, as
    [getJDFromDate] forms it) is rebuilt exactly by [getJDFromDate] from
    the date and the time the two extraction functions give for it. *)
Theorem X3_julian_day_roundtrip (qd : QDateApi) (n h mi s : Z)
        (year month day : Z) :
  - TIME_LIMIT < n < TIME_LIMIT ->
  0 <= h <= 23 -> 0 <= mi <= 59 -> 0 <= s <= 59 ->
  getDateFromJulianDay (jdOf n h mi s) = (year, month, day) ->
  QDate_agrees qd year month day ->
  let jd := jdOf n h mi s in
  let '(hour, minute, second) := getTimeFromJulianDay jd in
  getJDFromDate qd year month day hour minute second = (true, jd).
Proof.
  intros Hn Hh Hmi Hs Hdate Hqd jd. unfold jd.
  unfold getDateFromJulianDay in Hdate.
  rewrite julianOf_jdOf in Hdate
    by (unfold DATE_LIMIT, TIME_LIMIT in *; try assumption; lia).
  rewrite getTimeFromJulianDay_jdOf by assumption.
  destruct (dateOfJulian_inverse n
              ltac:(unfold JULIAN_LIMIT, TIME_LIMIT in *; lia))
    as (y & m & d & Hdate' & Hm & Hd & Hl).
  rewrite Hdate' in Hdate. injection Hdate as -> -> ->.
  rewrite (getJDFromDate_jdOf qd year month day h mi s Hqd), Hl.
  reflexivity.
Qed.

Lemma X3_julian_day_roundtrip_witness :
  let jd := jdOf 2299160 23 59 59 in
  let '(hour, minute, second) := getTimeFromJulianDay jd in
  getJDFromDate QDate4 1582 10 4 hour minute second = (true, jd).
Proof.
  exact (X3_julian_day_roundtrip QDate4 2299160 23 59 59 1582 10 4
           ltac:(unfold TIME_LIMIT; lia) ltac:(lia) ltac:(lia) ltac:(lia)
           ltac:(vm_compute; reflexivity) (fun _ => eq_refl)).
Defined.

(** Rounding keeps a value between two [double]s. *)
Lemma rnd_between (lo hi x : Q) :
  (rnd lo == lo)%Q -> (rnd hi == hi)%Q ->
  (lo <= x <= hi)%Q -> (lo <= rnd x <= hi)%Q.
Proof.
  intros Elo Ehi [Hlo Hhi]. split.
  - rewrite <- Elo. apply rnd_mono. exact Hlo.
  - rewrite <- Ehi. apply rnd_mono. exact Hhi.
Qed.

(** The fraction of a day is below one and rounding is monotone, so the
    seconds count is at most 86400 and the three divisions stay in
    range. *)
Lemma time_of_any_day (julianDay : Q) :
  let '(hour, minute, second) := getTimeFromJulianDay julianDay in
  0 <= hour <= 23 /\ 0 <= minute <= 59 /\ 0 <= second <= 59.
Proof.
  unfold getTimeFromJulianDay. cbv zeta.
  unfold Binary64.sub, Binary64.mul, Binary64.add, Binary64.literal.
  set (frac0 := (julianDay - inject_Z (Qfloor julianDay))%Q).
  assert (Hfrac : (0 <= frac0 <= 1)%Q).
  { unfold frac0. pose proof (Qfloor_le julianDay) as Hle.
    pose proof (Qlt_floor julianDay) as Hlt.
    rewrite inject_Z_plus in Hlt. change (inject_Z 1) with 1%Q in Hlt.
    split; lra. }
  clearbody frac0.
  assert (E0 : (rnd 0 == 0)%Q) by reflexivity.
  pose proof (rnd_between 0 1 frac0 E0 ltac:(vm_compute; reflexivity) Hfrac)
    as Hf.
  set (f := rnd frac0) in *. clearbody f.
  pose proof (rnd_between 0 24 (f * 24.0) E0 ltac:(vm_compute; reflexivity)
                ltac:(split; lra)) as H1.
  set (x1 := rnd (f * 24.0)) in *. clearbody x1.
  pose proof (rnd_between 0 1440 (x1 * 60.0) E0 ltac:(vm_compute; reflexivity)
                ltac:(split; lra)) as H2.
  set (x2 := rnd (x1 * 60.0)) in *. clearbody x2.
  pose proof (rnd_between 0 86400 (x2 * 60.0) E0 ltac:(vm_compute; reflexivity)
                ltac:(split; lra)) as H3.
  set (x3 := rnd (x2 * 60.0)) in *. clearbody x3.
  pose proof (rnd_between 0 1 0.0001 E0 ltac:(vm_compute; reflexivity)
                ltac:(split; lra)) as Hc.
  set (c := rnd 0.0001) in *. clearbody c.
  pose proof (rnd_between 0 86401 (x3 + c) E0 ltac:(vm_compute; reflexivity)
                ltac:(split; lra)) as H4.
  set (x4 := rnd (x3 + c)) in *. clearbody x4.
  set (s := Qfloor x4).
  assert (Hs : 0 <= s <= 86401).
  { unfold s. split.
    - change 0 with (Qfloor (inject_Z 0)). apply Qfloor_resp_le.
      change (inject_Z 0) with 0%Q. lra.
    - change 86401 with (Qfloor (inject_Z 86401)). apply Qfloor_resp_le.
      change (inject_Z 86401) with 86401%Q. lra. }
  clearbody s. change (60 * 60) with 3600.
  assert (Hq : 0 <= s / 3600) by zdiv.
  assert (Hq' : 0 <= s / 60) by zdiv.
  rewrite !cdiv_nonneg by lia.
  rewrite !crem_nonneg by lia.
  repeat split; zdiv.
Qed.

(** X4: for every finite Julian Day, [getTimeFromJulianDay] returns an
    hour between 0 and 23 and a minute and a second between 0 and 59. *)
Theorem X4_time_fields_in_range (julianDay : Q) :
  let '(hour, minute, second) := getTimeFromJulianDay julianDay in
  0 <= hour <= 23 /\ 0 <= minute <= 59 /\ 0 <= second <= 59.
Proof.
  exact (time_of_any_day julianDay).
Qed.

(** ** The second day-number algorithm *)

(** The integer part of the formula. *)
Lemma alg2_day_number (y m d : Z) :
  alg2Range y m -> 1 <= m <= 12 -> 1 <= d ->
  ljulOf y m d
  = 367 * y - 7 * (y + (m + 9) / 12) / 4 + 275 * m / 9 + d + 1721014
    + (if 190003 <=? 100 * y + m then 0 else 1).
Proof.
  unfold alg2Range. intros Hr Hm Hd.
  rewrite ljulOf_gregorian by lia. cbv zeta.
  unfold marchCount, lbbOf.
  destruct (Z.leb_spec 190003 (100 * y + m));
    each_month Hm; cbn [Z.ltb Z.compare Pos.compare Pos.compare_cont]; zdiv.
Qed.

(** An integer below [2 ^ 53] in magnitude is computed exactly. *)
Lemma rnd_is_Z (x : Q) (n : Z) :
  (x == inject_Z n)%Q -> Z.abs n < 2 ^ 53 -> (rnd x == inject_Z n)%Q.
Proof. intros E H. rewrite E. apply rnd_integer. exact H. Qed.

(** The floor of a rounded quotient of small integers is their integer
    quotient: the rounding cannot reach the next integer. *)
Lemma floor_rnd_ratio (x : Q) (a b : Z) :
  0 < b <= 1024 -> Z.abs a < 2 ^ 40 ->
  (x == inject_Z a / inject_Z b)%Q ->
  floor (rnd x) = inject_Z (a / b).
Proof.
  intros Hb Ha Hx. unfold floor. f_equal. apply Qfloor_unique.
  set (k := a / b). set (r := a mod b).
  assert (Ea : a = b * k + r) by (apply Z.div_mod; lia).
  assert (Hr : 0 <= r <= b - 1)
    by (pose proof (Z.mod_pos_bound a b ltac:(lia)); unfold r; lia).
  assert (Hk : Z.abs k < 2 ^ 40).
  { change (2 ^ 40) with 1099511627776 in *. clearbody k r. nia. }
  assert (Bb : (0 < inject_Z b)%Q)
    by (change 0%Q with (inject_Z 0); rewrite <- Zlt_Qlt; lia).
  assert (Ex : (x == inject_Z k + inject_Z r / inject_Z b)%Q).
  { rewrite Hx, Ea. push_inject. field. intros Hz. rewrite Hz in Bb.
    discriminate Bb. }
  assert (Hfrac : (0 <= inject_Z r / inject_Z b <= 1023 # 1024)%Q).
  { pose proof (inject_Z_bounds b 1 1024 ltac:(lia)) as B1.
    assert (B2 : (0 <= inject_Z r)%Q)
      by (change 0%Q with (inject_Z 0); rewrite <- Zle_Qle; lia).
    assert (B3 : (inject_Z r <= inject_Z b - 1)%Q).
    { change 1%Q with (inject_Z 1).
      assert (E : (inject_Z b - inject_Z 1 == inject_Z (b - 1))%Q)
        by (push_inject; reflexivity).
      rewrite E, <- Zle_Qle. lia. }
    split.
    - apply Qle_shift_div_l; [exact Bb | lra].
    - apply Qle_shift_div_r; [exact Bb | lra]. }
  set (f := (inject_Z r / inject_Z b)%Q) in *. clearbody f.
  assert (Elo : (rnd (inject_Z k) == inject_Z k)%Q).
  { apply rnd_integer. change (2 ^ 40) with 1099511627776 in Hk.
    change (2 ^ 53) with 9007199254740992. lia. }
  assert (Ehi : (rnd (inject_Z k + (1023 # 1024))
                 == inject_Z k + (1023 # 1024))%Q).
  { apply (rnd_exact _ (1024 * k + 1023) (-10)).
    - change (2 ^ 40) with 1099511627776 in Hk.
      change (2 ^ 53) with 9007199254740992. lia.
    - change (pow2 (-10)) with (1 # 1024)%Q. push_inject.
      change (inject_Z 1024) with 1024%Q. change (inject_Z 1023) with 1023%Q.
      field. }
  pose proof (rnd_between (inject_Z k) (inject_Z k + (1023 # 1024)) x
                Elo Ehi ltac:(lra)) as [Hlo Hhi].
  split; lra.
Qed.

Ltac small := change (2 ^ 53) with 9007199254740992;
              change (2 ^ 40) with 1099511627776; lia.

(** The whole days of the second algorithm are computed exactly. *)
Lemma alg2_days (y m d : Z) :
  1800 <= y <= 2100 -> 1 <= m <= 12 -> 1 <= d <= 31 ->
  (add
     (add
        (sub (mul 367.0 (C.of_int y))
           (floor
              (div
                 (mul 7.0
                    (add (C.of_int y)
                       (floor (div (add (C.of_int m) 9.0) 12.0))))
                 4.0)))
        (floor (div (mul 275.0 (C.of_int m)) 9.0)))
     (C.of_int d)
   == inject_Z (367 * y - 7 * (y + (m + 9) / 12) / 4 + 275 * m / 9 + d))%Q.
Proof.
  intros Hy Hm Hd. unfold add, sub, mul, div, C.of_int.
  assert (K1 : 0 <= (m + 9) / 12 <= 1) by zdiv.
  assert (K2 : 0 <= 7 * (y + (m + 9) / 12) / 4 <= 4000) by zdiv.
  assert (K3 : 0 <= 275 * m / 9 <= 400) by zdiv.
  assert (E1 : (rnd (inject_Z m + 9.0) == inject_Z (m + 9))%Q)
    by (apply rnd_is_Z; [push_inject; ring | small]).
  rewrite (floor_rnd_ratio (rnd (inject_Z m + 9.0) / 12.0) (m + 9) 12)
    by (try lia; try small; rewrite E1; unfold Qdiv; apply Qmult_comp; reflexivity).
  set (k1 := (m + 9) / 12) in *.
  assert (E2 : (rnd (inject_Z y + inject_Z k1) == inject_Z (y + k1))%Q)
    by (apply rnd_is_Z; [push_inject; ring | small]).
  assert (E3 : (rnd (7.0 * rnd (inject_Z y + inject_Z k1))
                == inject_Z (7 * (y + k1)))%Q)
    by (apply rnd_is_Z; [rewrite E2; push_inject; ring | small]).
  rewrite (floor_rnd_ratio
             (rnd (7.0 * rnd (inject_Z y + inject_Z k1)) / 4.0)
             (7 * (y + k1)) 4)
    by (try lia; try small; rewrite E3; unfold Qdiv; apply Qmult_comp; reflexivity).
  set (k2 := 7 * (y + k1) / 4) in *.
  assert (E4 : (rnd (275.0 * inject_Z m) == inject_Z (275 * m))%Q)
    by (apply rnd_is_Z; [push_inject; ring | small]).
  rewrite (floor_rnd_ratio (rnd (275.0 * inject_Z m) / 9.0) (275 * m) 9)
    by (try lia; try small; rewrite E4; unfold Qdiv; apply Qmult_comp; reflexivity).
  set (k3 := 275 * m / 9) in *.
  clearbody k1 k2 k3.
  assert (E5 : (rnd (367.0 * inject_Z y) == inject_Z (367 * y))%Q)
    by (apply rnd_is_Z; [push_inject; ring | small]).
  assert (E6 : (rnd (rnd (367.0 * inject_Z y) - inject_Z k2)
                == inject_Z (367 * y - k2))%Q)
    by (apply rnd_is_Z; [rewrite E5; push_inject; ring | small]).
  assert (E7 : (rnd (rnd (rnd (367.0 * inject_Z y) - inject_Z k2)
                     + inject_Z k3)
                == inject_Z (367 * y - k2 + k3))%Q)
    by (apply rnd_is_Z; [rewrite E6; push_inject; ring | small]).
  apply rnd_is_Z; [rewrite E7; push_inject; ring | small].
Qed.

(** The time of day of the second algorithm, a fraction of a day counted
    from midnight: its five roundings err by less than [2 ^ -50]. *)
Lemma alg2_time (h mi s : Z) :
  0 <= h <= 23 -> 0 <= mi <= 59 -> 0 <= s <= 59 ->
  let T := (inject_Z (3600 * h + 60 * mi + s) * (1 # 86400))%Q in
  (T - (1 # 1125899906842624)
   <= div (add (C.of_int h)
             (div (add (C.of_int mi) (div (C.of_int s) 60.0)) 60))
          24.0
   <= T + (1 # 1125899906842624))%Q.
Proof.
  intros Hh Hmi Hs T. unfold add, div, C.of_int.
  pose proof (inject_Z_bounds h 0 23 Hh) as Bh.
  pose proof (inject_Z_bounds mi 0 59 Hmi) as Bmi.
  pose proof (inject_Z_bounds s 0 59 Hs) as Bs.
  assert (HT : (T == inject_Z h * (1 # 24) + inject_Z mi * (1 # 1440)
                     + inject_Z s * (1 # 86400))%Q).
  { unfold T. push_inject. field. }
  unfold Qdiv.
  change (/ 24.0)%Q with (10 # 240)%Q. change (/ 60.0)%Q with (10 # 600)%Q.
  change (/ 60)%Q with (1 # 60)%Q.
  set (H := inject_Z h) in *. set (M := inject_Z mi) in *.
  set (S := inject_Z s) in *. clearbody H M S.
  round_step (S * (10 # 600))%Q 0 Ea.
  set (a := rnd (S * (10 # 600))) in *. clearbody a.
  round_step (M + a)%Q 6 Eb.
  set (b := rnd (M + a)) in *. clearbody b.
  round_step (b * (1 # 60))%Q 0 Ec.
  set (c := rnd (b * (1 # 60))) in *. clearbody c.
  round_step (H + c)%Q 5 Ed.
  set (e := rnd (H + c)) in *. clearbody e.
  round_step (e * (10 # 240))%Q 0 Ee.
  set (t := rnd (e * (10 # 240))) in *. clearbody t.
  lra.
Qed.

(** The half day [0.5*extra/fabs(extra)] adds or takes away. *)
Lemma alg2_sign (y m : Z) :
  1800 <= y <= 2100 -> 1 <= m <= 12 ->
  let extra :=
    sub (add (mul 100.0 (C.of_int y)) (C.of_int m)) 190002.5 in
  (div (mul 0.5 extra) (fabs extra)
   == if 190003 <=? 100 * y + m then 1 # 2 else - (1 # 2))%Q.
Proof.
  intros Hy Hm extra. unfold fabs.
  set (N := 200 * y + 2 * m - 380005).
  assert (Hextra : (extra == inject_Z N / 2)%Q).
  { unfold extra, sub, add, mul, C.of_int.
    assert (E1 : (rnd (100.0 * inject_Z y) == inject_Z (100 * y))%Q)
      by (apply rnd_is_Z; [push_inject; ring | small]).
    assert (E2 : (rnd (rnd (100.0 * inject_Z y) + inject_Z m)
                  == inject_Z (100 * y + m))%Q)
      by (apply rnd_is_Z; [rewrite E1; push_inject; ring | small]).
    rewrite E2.
    assert (E3 : (inject_Z (100 * y + m) - 190002.5 == inject_Z N / 2)%Q)
      by (unfold N; push_inject; field).
    rewrite E3. apply rnd_halves. unfold N. small. }
  assert (Hhalf : (mul 0.5 extra == inject_Z N / 4)%Q).
  { unfold mul. rewrite Hextra.
    assert (E : (0.5 * (inject_Z N / 2) == inject_Z N / 4)%Q) by field.
    rewrite E. apply (rnd_exact _ N (-2)); [unfold N; small |].
    change (pow2 (-2)) with (1 # 4)%Q. field. }
  unfold div. rewrite Hhalf, Hextra.
  destruct (Z.leb_spec 190003 (100 * y + m)) as [Hpos | Hneg].
  - assert (H0 : (0 < inject_Z N / 2)%Q).
    { apply Qlt_shift_div_l; [reflexivity |].
      change (0 * 2)%Q with (inject_Z 0). rewrite <- Zlt_Qlt. unfold N. lia. }
    rewrite Qabs_pos by (apply Qlt_le_weak; exact H0).
    assert (E : (inject_Z N / 4 / (inject_Z N / 2) == inject_Z 1 / 2)%Q).
    { change (inject_Z 1) with 1%Q. field.
      intros Hz. rewrite Hz in H0. discriminate H0. }
    rewrite E, rnd_halves by small. reflexivity.
  - assert (H0 : (inject_Z N / 2 < 0)%Q).
    { apply Qlt_shift_div_r; [reflexivity |].
      change (0 * 2)%Q with (inject_Z 0). rewrite <- Zlt_Qlt. unfold N. lia. }
    rewrite Qabs_neg by (apply Qlt_le_weak; exact H0).
    assert (E : (inject_Z N / 4 / - (inject_Z N / 2) == inject_Z (-1) / 2)%Q).
    { change (inject_Z (-1)) with (-1)%Q. field.
      intros Hz. rewrite Hz in H0. discriminate H0. }
    rewrite E, rnd_halves by small. reflexivity.
Qed.

(** The two algorithms need not give the same [double]: on 13 March 1966
    at 20:03:04 they differ in the last place. *)
Lemma second_algorithm_last_place :
  (getJDFromDate_alg2 1966 3 13 20 3 4 == 1309534634908883 # 536870912)%Q
  /\ (snd (getJDFromDate QDate4 1966 3 13 20 3 4)
      == 5238138539635531 # 2147483648)%Q.
Proof. split; vm_compute; reflexivity. Qed.

(** X5: from 1 March 1800 to 28 February 2100, for a valid day and time of
    day, the Julian Day of [getJDFromDate_alg2] and the Julian Day of
    [getJDFromDate] differ by less than two billionths of a day (a fifth
    of a millisecond): both are the day number and the time of day up to
    the rounding of their [double] operations. *)
Theorem X5_second_algorithm_agrees (qd : QDateApi) (y m d h mi s : Z) :
  alg2Range y m -> 1 <= m <= 12 -> 1 <= d <= 31 ->
  0 <= h <= 23 -> 0 <= mi <= 59 -> 0 <= s <= 59 ->
  QDate_agrees qd y m d ->
  (Qabs (getJDFromDate_alg2 y m d h mi s
         - snd (getJDFromDate qd y m d h mi s)) <= 1 # 500000000)%Q.
Proof.
  intros Hr Hm Hd Hh Hmi Hs Hqd.
  assert (Hy : 1800 <= y <= 2100) by (unfold alg2Range in Hr; lia).
  rewrite (getJDFromDate_jdOf qd y m d h mi s Hqd). cbn [snd].
  pose proof (alg2_day_number y m d Hr Hm ltac:(lia)) as Hn.
  pose proof (jdOf_near (ljulOf y m d) h mi s
                ltac:(pose proof (ljulOf_civil_range y m d ltac:(lia) Hm Hd);
                      lia) Hh Hmi Hs) as Hjd.
  cbv zeta in Hjd.
  pose proof (alg2_days y m d Hy Hm Hd) as HD.
  pose proof (alg2_time h mi s Hh Hmi Hs) as HT. cbv zeta in HT.
  pose proof (alg2_sign y m Hy Hm) as HS. cbv zeta in HS.
  unfold getJDFromDate_alg2. cbv zeta.
  set (days := add (add (sub _ _) _) (C.of_int d)) in *.
  set (time := div (add (C.of_int h) _) 24.0) in *.
  set (sg := div (mul 0.5 _) (fabs _)) in *.
  clearbody days time sg.
  set (J := jdOf (ljulOf y m d) h mi s) in *. clearbody J.
  set (K := 367 * y - 7 * (y + (m + 9) / 12) / 4 + 275 * m / 9 + d) in *.
  assert (HK : 650000 <= K <= 800000) by (unfold K; zdiv).
  clearbody K.
  assert (ET : (inject_Z (3600 * h + 60 * mi + s - 43200) * (1 # 86400)
                == inject_Z (3600 * h + 60 * mi + s) * (1 # 86400) - (1 # 2))%Q).
  { set (t := 3600 * h + 60 * mi + s). unfold Z.sub.
    rewrite inject_Z_plus, inject_Z_opp.
    change (inject_Z 43200) with (43200 # 1)%Q.
    set (qt := inject_Z t). clearbody qt. lra. }
  rewrite ET in Hjd. clear ET.
  pose proof (inject_Z_bounds (3600 * h + 60 * mi + s) 0 86399 ltac:(lia))
    as BT.
  set (T := inject_Z (3600 * h + 60 * mi + s)) in *. clearbody T.
  assert (En : (inject_Z (ljulOf y m d)
                == inject_Z K + 1721014
                   + (if 190003 <=? 100 * y + m then 0 else 1))%Q).
  { rewrite Hn. destruct (190003 <=? 100 * y + m); push_inject; ring. }
  rewrite En in Hjd. clear En Hn.
  pose proof (inject_Z_bounds K 650000 800000 HK) as BK.
  unfold add, sub.
  assert (E0 : (rnd (days + time) == rnd (inject_Z K + time))%Q)
    by (rewrite HD; reflexivity).
  set (QK := inject_Z K) in *. clearbody QK.
  round_step (QK + time)%Q 20 E1.
  rewrite <- E0 in E1. clear E0.
  set (r1 := rnd (days + time)) in *. clearbody r1.
  round_step (r1 + 1721013.5)%Q 22 E2.
  set (r2 := rnd (r1 + 1721013.5)) in *. clearbody r2.
  destruct (190003 <=? 100 * y + m).
  - round_step (r2 - sg)%Q 22 E3.
    set (r3 := rnd (r2 - sg)) in *. clearbody r3.
    round_step (r3 + 0.5)%Q 22 E4.
    set (r4 := rnd (r3 + 0.5)) in *. clearbody r4.
    apply Qabs_Qle_condition. split; lra.
  - round_step (r2 - sg)%Q 22 E3.
    set (r3 := rnd (r2 - sg)) in *. clearbody r3.
    round_step (r3 + 0.5)%Q 22 E4.
    set (r4 := rnd (r3 + 0.5)) in *. clearbody r4.
    apply Qabs_Qle_condition. split; lra.
Qed.

Lemma X5_second_algorithm_agrees_witness :
  (Qabs (getJDFromDate_alg2 1966 3 13 20 3 4
         - snd (getJDFromDate QDate4 1966 3 13 20 3 4)) <= 1 # 500000000)%Q.
Proof.
  exact (X5_second_algorithm_agrees QDate4 1966 3 13 20 3 4
           ltac:(unfold alg2Range; lia) ltac:(lia) ltac:(lia)
           ltac:(lia) ltac:(lia) ltac:(lia)
           (fun _ => eq_refl)).
Defined.


(** ** What a finished run of the loops tells *)

(** A loop that has exited kept every invariant of its body. *)
Lemma while_invariant (cond : Rollover -> bool) (body : Rollover -> Rollover)
      (Inv : Rollover -> Prop) (fuel : nat) (st st' : Rollover) :
  (forall s, Inv s -> cond s = true -> Inv (body s)) ->
  while fuel cond body st = Some st' -> Inv st ->
  Inv st' /\ cond st' = false.
Proof.
  intros Hstep. revert st.
  induction fuel as [| fuel IH]; intros st Hrun Hinv; [discriminate |].
  cbn [while] in Hrun. destruct (cond st) eqn:Hc.
  - apply (IH (body st)); [exact Hrun | apply Hstep; assumption].
  - injection Hrun as <-. split; assumption.
Qed.

(** A loop whose condition fails at once does nothing. *)
Lemma while_skip (cond : Rollover -> bool) (body : Rollover -> Rollover)
      (fuel : nat) (st st' : Rollover) :
  while fuel cond body st = Some st' -> cond st = false -> st' = st.
Proof.
  destruct fuel as [| fuel]; [discriminate |].
  cbn [while]. intros Hrun Hc. rewrite Hc in Hrun. congruence.
Qed.

Lemma runLoops_step (fuel : nat) (cond : Rollover -> bool)
      (body : Rollover -> Rollover)
      (ls : list ((Rollover -> bool) * (Rollover -> Rollover)))
      (st st' : Rollover) :
  runLoops fuel ((cond, body) :: ls) st = Some st' ->
  exists s1, while fuel cond body st = Some s1 /\ runLoops fuel ls s1 = Some st'.
Proof.
  cbn [runLoops]. intros Hrun.
  destruct (while fuel cond body st) as [s1 |]; [| discriminate].
  exists s1. split; [reflexivity | exact Hrun].
Qed.

(** The flag never goes back to false, and a state that still has it false
    is the state the loop started from. *)
Lemma while_untouched (cond : Rollover -> bool) (body : Rollover -> Rollover)
      (fuel : nat) (st st' : Rollover) :
  (forall s, change (body s) = true) ->
  (forall s, change s = true -> change (body s) = true) ->
  while fuel cond body st = Some st' ->
  (change st = true -> change st' = true)
  /\ (change st' = false -> st' = st /\ cond st = false).
Proof.
  intros Hset Hkeep. revert st.
  induction fuel as [| fuel IH]; intros st Hrun; [discriminate |].
  cbn [while] in Hrun. destruct (cond st) eqn:Hc.
  - destruct (IH (body st) Hrun) as [Hup Hdown]. split.
    + intros _. apply Hup. apply Hset.
    + intros Hf. rewrite (Hup (Hset st)) in Hf. discriminate.
  - injection Hrun as <-. split; [trivial |]. intros _. split; trivial.
Qed.

Lemma runLoops_untouched (fuel : nat)
      (ls : list ((Rollover -> bool) * (Rollover -> Rollover)))
      (st st' : Rollover) :
  Forall (fun l => forall s, change (snd l s) = true) ls ->
  runLoops fuel ls st = Some st' ->
  change st' = false ->
  st' = st /\ Forall (fun l => fst l st = false) ls.
Proof.
  intros Hset. revert st.
  induction Hset as [| [cond body] ls Hb Hls IH]; intros st Hrun Hf.
  - cbn [runLoops] in Hrun. injection Hrun as <-. split; constructor.
  - apply runLoops_step in Hrun. destruct Hrun as (s1 & Hw & Hrest).
    destruct (IH s1 Hrest Hf) as [-> Hconds]. cbn [snd] in Hb.
    destruct (while_untouched cond body fuel st s1 Hb (fun s _ => Hb s) Hw)
      as [_ Hdown].
    destruct (Hdown Hf) as [-> Hc].
    split; [reflexivity |]. constructor; assumption.
Qed.

Lemma runLoops_skip (fuel : nat)
      (ls : list ((Rollover -> bool) * (Rollover -> Rollover)))
      (st st' : Rollover) :
  Forall (fun l => fst l st = false) ls ->
  runLoops fuel ls st = Some st' -> st' = st.
Proof.
  intros Hconds. induction Hconds as [| [cond body] ls Hc Hls IH]; intros Hrun.
  - cbn [runLoops] in Hrun. congruence.
  - apply runLoops_step in Hrun. destruct Hrun as (s1 & Hw & Hrest).
    cbn [fst] in Hc. rewrite (while_skip _ _ _ _ _ Hw Hc) in Hrest.
    apply IH. exact Hrest.
Qed.

Lemma loops_set_change :
  Forall (fun l => forall s, change (snd l s) = true) loops.
Proof.
  unfold loops. repeat constructor; cbn [snd]; intros s;
    try reflexivity.
  - unfold dayCarry. destruct (12 <? om s + 1); reflexivity.
  - unfold dayBorrow. destruct (om s - 1 <? 1); reflexivity.
Qed.

Lemma loops_conditions (y m d h mi s : Z) :
  Forall (fun l => fst l (mkRollover y m d h mi s false) = false) loops
  <-> inputValid y m d h mi s.
Proof.
  unfold loops, inputValid. split.
  - intros H.
    repeat match goal with
           | H : Forall _ (_ :: _) |- _ =>
               let Hh := fresh "Hh" in
               let Ht := fresh "Ht" in
               apply Forall_cons_iff in H; destruct H as [Hh Ht];
               cbn [fst oy om od oh omin os] in Hh
           end.
    repeat match goal with
           | H : (_ <? _) = false |- _ => apply Z.ltb_ge in H
           end.
    lia.
  - intros H.
    repeat (constructor; [cbn [fst oy om od oh omin os]; apply Z.ltb_ge; lia |]).
    constructor.
Qed.

(** X6: the call returns false exactly when the six integers are already
    a valid date and time of day outside the hole of October 1582; callers
    may take an unadjusted input for valid. *)
Theorem X6_unchanged_iff_valid (fuel : nat) (y m d h mi s : Z)
        (out out' : Outputs) (r : bool) :
  changeDateTimeForRollover fuel y m d h mi s out = Some (r, out') ->
  (r = false <-> inputValid y m d h mi s /\ ~ inEpochHole y m d).
Proof.
  unfold changeDateTimeForRollover, rolloverLocals. intros Hrun.
  destruct (runLoops fuel loops (mkRollover y m d h mi s false)) as [st |] eqn:Hl;
    [| discriminate].
  injection Hrun as Hr _. subst r. split.
  - intros Hf.
    assert (Hst : change st = false /\ epochHole st = st).
    { unfold epochHole in *.
      destruct ((oy st =? 1582) && (om st =? 10)
                && ((4 <? od st) && (od st <? 15)));
        [discriminate | split; [exact Hf | reflexivity]]. }
    destruct Hst as [Hc Hsame].
    destruct (runLoops_untouched fuel loops _ st loops_set_change Hl Hc)
      as [-> Hconds].
    split; [apply loops_conditions; exact Hconds |].
    intros (-> & -> & Hd). unfold epochHole in Hsame.
    cbn [oy om od oh omin os change] in Hsame.
    replace (4 <? d) with true in Hsame by (symmetry; apply Z.ltb_lt; lia).
    replace (d <? 15) with true in Hsame by (symmetry; apply Z.ltb_lt; lia).
    cbn in Hsame. discriminate.
  - intros [Hvalid Hhole].
    apply loops_conditions in Hvalid.
    rewrite (runLoops_skip fuel loops _ st Hvalid Hl).
    unfold epochHole. cbn [oy om od oh omin os change].
    destruct ((y =? 1582) && (m =? 10) && ((4 <? d) && (d <? 15))) eqn:Hh;
      [| reflexivity].
    exfalso. apply Hhole. unfold inEpochHole.
    apply andb_prop in Hh. destruct Hh as [Hym Hd].
    apply andb_prop in Hym. destruct Hym as [Hy Hm].
    apply andb_prop in Hd. destruct Hd as [Hd1 Hd2].
    apply Z.eqb_eq in Hy. apply Z.eqb_eq in Hm.
    apply Z.ltb_lt in Hd1. apply Z.ltb_lt in Hd2. lia.
Qed.

Lemma X6_unchanged_iff_valid_witness :
  false = false <-> inputValid 1600 2 29 23 59 59 /\ ~ inEpochHole 1600 2 29.
Proof.
  exact (X6_unchanged_iff_valid 1 1600 2 29 23 59 59
           (mkOutputs 0 0 0 0 0 0) (mkOutputs 0 0 0 0 0 0) false eq_refl).
Defined.

(** ** The carries in closed form *)

Ltac body_step :=
  let s0 := fresh "s" in
  let Hinv := fresh "Hinv" in
  let Hc := fresh "Hc" in
  intros s0 Hinv Hc; destruct s0 as [y0 m0 d0 h0 mi0 sec0 c0];
  unfold secCarry, secBorrow, minCarry, minBorrow, hourCarry, hourBorrow,
    monthCarry, monthBorrow in *;
  cbn [oy om od oh omin os change] in *;
  apply Z.ltb_lt in Hc.

(** The state after the six loops on the clock: the fields are the
    remainders, the quotients have moved up, and the day has received the
    days the hours amount to. *)
Lemma clock_passes_result (fuel : nat) (y m d h mi s : Z) (st : Rollover) :
  runLoops fuel loops (mkRollover y m d h mi s false) = Some st ->
  exists s6 : Rollover,
    runLoops fuel (skipn 6 loops) s6 = Some st
    /\ oy s6 = y /\ om s6 = m
    /\ os s6 = s mod 60
    /\ omin s6 = (mi + s / 60) mod 60
    /\ oh s6 = (h + (mi + s / 60) / 60) mod 24
    /\ od s6 = d + (h + (mi + s / 60) / 60) / 24.
Proof.
  unfold loops. intros Hrun.
  apply runLoops_step in Hrun. destruct Hrun as (s1 & W1 & Hrun).
  apply runLoops_step in Hrun. destruct Hrun as (s2 & W2 & Hrun).
  apply runLoops_step in Hrun. destruct Hrun as (s3 & W3 & Hrun).
  apply runLoops_step in Hrun. destruct Hrun as (s4 & W4 & Hrun).
  apply runLoops_step in Hrun. destruct Hrun as (s5 & W5 & Hrun).
  apply runLoops_step in Hrun. destruct Hrun as (s6 & W6 & Hrun).
  exists s6. split; [exact Hrun |].
  pose (keep := fun st => oy st = y /\ om st = m).
  apply (while_invariant _ _
           (fun st => keep st /\ od st = d /\ oh st = h
                      /\ os st + 60 * omin st = s + 60 * mi)) in W1;
    [| body_step; unfold keep in *; cbn [oy om] in *; lia
     | unfold keep; cbn [oy om od oh omin os]; lia].
  destruct W1 as [I1 E1]. apply Z.ltb_ge in E1.
  apply (while_invariant _ _
           (fun st => keep st /\ od st = d /\ oh st = h
                      /\ os st + 60 * omin st = s + 60 * mi
                      /\ os st <= 59)) in W2;
    [| body_step; unfold keep in *; cbn [oy om] in *; lia
     | cbv beta in *; intuition lia].
  destruct W2 as [I2 E2]. apply Z.ltb_ge in E2.
  assert (A2 : os s2 = s mod 60 /\ omin s2 = mi + s / 60)
    by (cbv beta in *; zdiv).
  apply (while_invariant _ _
           (fun st => keep st /\ od st = d /\ os st = s mod 60
                      /\ omin st + 60 * oh st = mi + s / 60 + 60 * h)) in W3;
    [| body_step; unfold keep in *; cbn [oy om] in *; lia
     | cbv beta in *; intuition lia].
  destruct W3 as [I3 E3]. apply Z.ltb_ge in E3.
  apply (while_invariant _ _
           (fun st => keep st /\ od st = d /\ os st = s mod 60
                      /\ omin st + 60 * oh st = mi + s / 60 + 60 * h
                      /\ omin st <= 59)) in W4;
    [| body_step; unfold keep in *; cbn [oy om] in *; lia
     | cbv beta in *; intuition lia].
  destruct W4 as [I4 E4]. apply Z.ltb_ge in E4.
  assert (A4 : omin s4 = (mi + s / 60) mod 60
               /\ oh s4 = h + (mi + s / 60) / 60)
    by (cbv beta in *; zdiv).
  apply (while_invariant _ _
           (fun st => keep st /\ os st = s mod 60
                      /\ omin st = (mi + s / 60) mod 60
                      /\ oh st + 24 * od st
                         = h + (mi + s / 60) / 60 + 24 * d)) in W5;
    [| body_step; unfold keep in *; cbn [oy om] in *; lia
     | cbv beta in *; intuition lia].
  destruct W5 as [I5 E5]. apply Z.ltb_ge in E5.
  apply (while_invariant _ _
           (fun st => keep st /\ os st = s mod 60
                      /\ omin st = (mi + s / 60) mod 60
                      /\ oh st + 24 * od st
                         = h + (mi + s / 60) / 60 + 24 * d
                      /\ oh st <= 23)) in W6;
    [| body_step; unfold keep in *; cbn [oy om] in *; lia
     | cbv beta in *; intuition lia].
  destruct W6 as [I6 E6]. apply Z.ltb_ge in E6.
  unfold keep in I6. cbv beta in *.
  repeat split; try apply I6; zdiv.
Qed.

(** The loops on the day and the month leave the clock alone. *)
Lemma calendar_passes_keep_clock (fuel : nat) (s6 st : Rollover) :
  runLoops fuel (skipn 6 loops) s6 = Some st ->
  oh st = oh s6 /\ omin st = omin s6 /\ os st = os s6.
Proof.
  cbn [skipn loops]. intros Hrun.
  pose (Inv := fun st => oh st = oh s6 /\ omin st = omin s6 /\ os st = os s6).
  apply runLoops_step in Hrun. destruct Hrun as (s7 & W7 & Hrun).
  apply runLoops_step in Hrun. destruct Hrun as (s8 & W8 & Hrun).
  apply runLoops_step in Hrun. destruct Hrun as (s9 & W9 & Hrun).
  apply runLoops_step in Hrun. destruct Hrun as (s10 & W10 & Hrun).
  cbn [runLoops] in Hrun. injection Hrun as <-.
  apply (while_invariant _ _ Inv) in W7;
    [| intros s Hi _; unfold Inv, dayCarry in *;
       destruct (12 <? om s + 1); exact Hi
     | unfold Inv; repeat split].
  apply (while_invariant _ _ Inv) in W8;
    [| intros s Hi _; unfold Inv, dayBorrow in *;
       destruct (om s - 1 <? 1); exact Hi
     | apply W7].
  apply (while_invariant _ _ Inv) in W9;
    [| intros s Hi _; exact Hi | apply W8].
  apply (while_invariant _ _ Inv) in W10;
    [| intros s Hi _; exact Hi | apply W9].
  apply W10.
Qed.

Lemma epochHole_keeps_clock (st : Rollover) :
  oh (epochHole st) = oh st /\ omin (epochHole st) = omin st
  /\ os (epochHole st) = os st.
Proof.
  unfold epochHole.
  destruct ((oy st =? 1582) && (om st =? 10) && ((4 <? od st) && (od st <? 15)));
    repeat split.
Qed.

(** The clock fields a call on the integers writes. *)
Lemma clock_fields_of_call (fuel : nat) (y m d h mi s : Z)
      (out out' : Outputs) :
  changeDateTimeForRollover fuel y m d h mi s out = Some (true, out') ->
  rs out' = s mod 60
  /\ rmin out' = (mi + s / 60) mod 60
  /\ rh out' = (h + (mi + s / 60) / 60) mod 24.
Proof.
  unfold changeDateTimeForRollover, rolloverLocals. intros Hrun.
  destruct (runLoops fuel loops (mkRollover y m d h mi s false)) as [st |] eqn:Hl;
    [| discriminate].
  injection Hrun as Hr Hout.
  rewrite writeBack_changed in Hout by exact Hr. subst out'.
  cbn [rs rmin rh].
  destruct (clock_passes_result fuel y m d h mi s st Hl)
    as (s6 & Hrest & _ & _ & Hs & Hmi & Hh & _).
  destruct (calendar_passes_keep_clock fuel s6 st Hrest) as (Kh & Kmi & Ks).
  destruct (epochHole_keeps_clock st) as (Eh & Emi & Es).
  rewrite Es, Emi, Eh, Ks, Kmi, Kh. repeat split; assumption.
Qed.

(** X7: when the call returns true (no carry having overflowed [int]), the
    second, minute and hour it writes are the remainders of the carries:
    the seconds modulo 60, the minutes plus the minutes in the seconds
    modulo 60, the hours plus the hours in those modulo 24 (floored
    division, so negative values borrow). *)
Theorem X7_clock_fields_are_remainders (fuel : nat) (y m d h mi s : Z)
        (out out' : Outputs) :
  Checked.changeDateTimeForRollover fuel y m d h mi s out
  = Some (Returns (true, out')) ->
  rs out' = s mod 60
  /\ rmin out' = (mi + s / 60) mod 60
  /\ rh out' = (h + (mi + s / 60) / 60) mod 24.
Proof.
  intros H. apply (clock_fields_of_call fuel y m d h mi s out).
  apply checked_returns. exact H.
Qed.

Lemma X7_clock_fields_are_remainders_witness :
  rs (mkOutputs 2023 12 31 22 58 59) = (-1) mod 60
  /\ rmin (mkOutputs 2023 12 31 22 58 59) = (-1 + -1 / 60) mod 60
  /\ rh (mkOutputs 2023 12 31 22 58 59) = (-1 + (-1 + -1 / 60) / 60) mod 24.
Proof.
  exact (X7_clock_fields_are_remainders 3 2024 1 1 (-1) (-1) (-1)
           (mkOutputs 0 0 0 0 0 0) (mkOutputs 2023 12 31 22 58 59) eq_refl).
Defined.

(** ** Carrying days keeps the day number *)

Ltac decide_ltb :=
  repeat match goal with
         | |- context [?a <? ?b] =>
             let v := eval vm_compute in (a <? b) in
             match v with
             | true => change (a <? b) with true
             | false => change (a <? b) with false
             end
         end;
  cbv iota.

(** Moving the days in excess of a month to the next month does not change
    the day number, after 1582. *)
Lemma ljulOf_next_month (y m d : Z) :
  1582 < y -> 1 <= m <= 12 -> numberOfDaysInMonthInYear m y < d ->
  ljulOf y m d
  = ljulOf (if 12 <? m + 1 then y + 1 else y)
           (if 12 <? m + 1 then m + 1 - 12 else m + 1)
           (d - numberOfDaysInMonthInYear m y).
Proof.
  intros Hy Hm Hd.
  pose proof (days_inside m y ltac:(lia)) as Hin.
  rewrite (ljulOf_gregorian y m d) by lia.
  rewrite days_monthLength in * by exact Hm.
  unfold monthLength in *.
  replace (1582 <? y) with true in * by (symmetry; apply Z.ltb_lt; lia).
  unfold gregorianLeap in *.
  destruct (Z.eqb_spec (y mod 4) 0); destruct (Z.eqb_spec (y mod 100) 0);
    destruct (Z.eqb_spec (y mod 400) 0); cbn [andb orb negb] in *;
    each_month Hm; decide_ltb;
    rewrite ljulOf_gregorian by lia;
    cbv zeta; decide_ltb; unfold marchCount, lbbOf; zdiv.
Qed.

(** After 1582 the day number is linear in the day. *)
Lemma ljulOf_add_days (y m d k : Z) :
  1582 < y -> 1 <= m <= 12 -> 1 <= d -> 0 <= k ->
  ljulOf y m (d + k) = ljulOf y m d + k.
Proof.
  intros Hy Hm Hd Hk. rewrite !ljulOf_gregorian by lia. cbv zeta.
  unfold marchCount. lia.
Qed.

(** The seconds since day zero, by the fallback arithmetic of
    [getJDFromDate], before and after a call on the integers. *)
Lemma carries_keep_instant (fuel : nat) (y m d h mi s : Z)
      (out out' : Outputs) :
  1582 < y -> 1 <= m <= 12 -> 1 <= d -> 0 <= h -> 0 <= mi -> 0 <= s ->
  changeDateTimeForRollover fuel y m d h mi s out = Some (true, out') ->
  86400 * ljulOf (ry out') (rm out') (rd out')
  + (3600 * rh out' + 60 * rmin out' + rs out')
  = 86400 * ljulOf y m d + (3600 * h + 60 * mi + s).
Proof.
  intros Hy Hm Hd Hh Hmi Hs Hcall.
  unfold changeDateTimeForRollover, rolloverLocals in Hcall.
  destruct (runLoops fuel loops (mkRollover y m d h mi s false)) as [st |] eqn:Hl;
    [| discriminate].
  injection Hcall as Hr Hout.
  rewrite writeBack_changed in Hout by exact Hr. subst out'.
  cbn [ry rm rd rh rmin rs].
  destruct (clock_passes_result fuel y m d h mi s st Hl)
    as (s6 & Hrest & Hy6 & Hm6 & Hs6 & Hmi6 & Hh6 & Hd6).
  destruct (calendar_passes_keep_clock fuel s6 st Hrest) as (Kh & Kmi & Ks).
  set (D := (h + (mi + s / 60) / 60) / 24) in *.
  assert (HD : 0 <= D) by (unfold D; zdiv).
  cbn [skipn loops] in Hrest.
  apply runLoops_step in Hrest. destruct Hrest as (s7 & W7 & Hrest).
  apply runLoops_step in Hrest. destruct Hrest as (s8 & W8 & Hrest).
  apply runLoops_step in Hrest. destruct Hrest as (s9 & W9 & Hrest).
  apply runLoops_step in Hrest. destruct Hrest as (s10 & W10 & Hrest).
  cbn [runLoops] in Hrest. injection Hrest as <-.
  apply (while_invariant _ _
           (fun st => 1582 < oy st /\ 1 <= om st <= 12 /\ 1 <= od st
                      /\ ljulOf (oy st) (om st) (od st) = ljulOf y m (d + D)))
    in W7.
  2:{ intros [y0 m0 d0 h0 mi0 sec0 c0] (Hy0 & Hm0 & Hd0 & Hj0) Hc.
      cbn [oy om od oh omin os] in *. apply Z.ltb_lt in Hc.
      pose proof (ljulOf_next_month y0 m0 d0 Hy0 Hm0 Hc) as Hnext.
      pose proof (days_inside m0 y0 ltac:(lia)) as Hin.
      unfold dayCarry. cbn [oy om od oh omin os].
      destruct (Z.ltb_spec 12 (m0 + 1)); cbn [oy om od oh omin os];
        repeat split; try lia; congruence. }
  2:{ cbv beta. rewrite Hy6, Hm6, Hd6. repeat split; lia. }
  cbv beta in W7. destruct W7 as [(Hy7 & Hm7 & Hd7 & Hj7) E7].
  rewrite (while_skip _ _ _ _ _ W8) in W9
    by (apply Z.ltb_ge; lia).
  rewrite (while_skip _ _ _ _ _ W9) in W10
    by (apply Z.ltb_ge; lia).
  rewrite (while_skip _ _ _ _ _ W10) in *
    by (apply Z.ltb_ge; lia).
  assert (Hhole : epochHole s7 = s7).
  { unfold epochHole.
    replace (oy s7 =? 1582) with false by (symmetry; apply Z.eqb_neq; lia).
    reflexivity. }
  rewrite Hhole, Hj7, Kh, Kmi, Ks, Hs6, Hmi6, Hh6.
  rewrite ljulOf_add_days by assumption.
  unfold D. zdiv.
Qed.

(** X8: after 1582, with a month from 1 to 12 and nothing to borrow (day at
    least 1, hour, minute and second not negative), the date and time the
    call writes when it returns true denote the same instant as its
    arguments: the day number of the fallback arithmetic of
    [getJDFromDate], counted in seconds together with the time of day, is
    the same for both. *)
Theorem X8_carries_keep_julian_day (fuel : nat) (y m d h mi s : Z)
        (out out' : Outputs) :
  1582 < y -> 1 <= m <= 12 -> 1 <= d -> 0 <= h -> 0 <= mi -> 0 <= s ->
  Checked.changeDateTimeForRollover fuel y m d h mi s out
  = Some (Returns (true, out')) ->
  86400 * ljulOf (ry out') (rm out') (rd out')
  + (3600 * rh out' + 60 * rmin out' + rs out')
  = 86400 * ljulOf y m d + (3600 * h + 60 * mi + s).
Proof.
  intros Hy Hm Hd Hh Hmi Hs H.
  apply (carries_keep_instant fuel y m d h mi s out); try assumption.
  apply checked_returns. exact H.
Qed.

Lemma X8_carries_keep_julian_day_witness :
  86400 * ljulOf 2025 1 1 + (3600 * 0 + 60 * 0 + 0)
  = 86400 * ljulOf 2024 12 31 + (3600 * 23 + 60 * 59 + 60).
Proof.
  exact (X8_carries_keep_julian_day 3 2024 12 31 23 59 60
           (mkOutputs 0 0 0 0 0 0) (mkOutputs 2025 1 1 0 0 0)
           ltac:(lia) ltac:(lia) ltac:(lia) ltac:(lia) ltac:(lia) ltac:(lia)
           eq_refl).
Defined.

(** ** Month lengths and day numbers *)

(** Month 13 is January of the next year for [ljulOf]. *)
Lemma ljulOf_month_13 (y d : Z) : ljulOf y 13 d = ljulOf (y + 1) 1 d.
Proof.
  unfold ljulOf. decide_ltb. cbv zeta.
  replace (y + 1 - 1) with y by lia.
  replace (d + 31 * (1 + 12 * (y + 1))) with (d + 31 * (13 + 12 * y)) by lia.
  reflexivity.
Qed.

Lemma month_length_is_day_number_step (y m : Z) :
  1 <= m <= 12 -> y <> 1582 ->
  ljulOf y (m + 1) 1 - ljulOf y m 1 = numberOfDaysInMonthInYear m y.
Proof.
  intros Hm Hy.
  rewrite days_monthLength by exact Hm. unfold monthLength.
  destruct (Z.ltb_spec 1582 y) as [Hg | Hj].
  - assert (Hnext : ljulOf y (m + 1) 1
                    = ljulOf (if 12 <? m + 1 then y + 1 else y)
                             (if 12 <? m + 1 then m + 1 - 12 else m + 1) 1).
    { destruct (Z.ltb_spec 12 (m + 1)); [| reflexivity].
      replace (m + 1) with 13 by lia. apply ljulOf_month_13. }
    rewrite Hnext.
    unfold gregorianLeap.
    destruct (Z.eqb_spec (y mod 4) 0); destruct (Z.eqb_spec (y mod 100) 0);
      destruct (Z.eqb_spec (y mod 400) 0); cbn [andb orb negb];
      each_month Hm; decide_ltb;
      rewrite !ljulOf_gregorian by lia;
      cbv zeta; decide_ltb; unfold marchCount, lbbOf; zdiv.
  - assert (Hnext : ljulOf y (m + 1) 1
                    = ljulOf (if 12 <? m + 1 then y + 1 else y)
                             (if 12 <? m + 1 then m + 1 - 12 else m + 1) 1).
    { destruct (Z.ltb_spec 12 (m + 1)); [| reflexivity].
      replace (m + 1) with 13 by lia. apply ljulOf_month_13. }
    rewrite Hnext.
    unfold julianLeap.
    destruct (Z.eqb_spec (y mod 4) 0);
      each_month Hm; decide_ltb;
      rewrite !ljulOf_julian by (unfold beforeReform; lia);
      cbv zeta; decide_ltb; unfold marchCount, lbbOf; zdiv.
Qed.

(** For ninety million years either way the day number stays below
    [2 ^ 35]. *)
Lemma ljulOf_date_range (y m d : Z) :
  1 <= m <= 12 -> 1 <= d <= 31 -> -90000000 <= y <= 90000000 ->
  - DATE_LIMIT < ljulOf y m d < DATE_LIMIT.
Proof.
  unfold DATE_LIMIT. intros Hm Hd Hy.
  assert (Hjm : 4 <= (if m <=? 2 then m + 13 else m + 1) <= 15)
    by (destruct (Z.leb_spec m 2); lia).
  pose proof (ljulOf_march (if m <=? 2 then y - 1 else y)
                (if m <=? 2 then m + 13 else m + 1) d Hjm) as Heq.
  cbv zeta in Heq.
  replace (if (if m <=? 2 then m + 13 else m + 1) <=? 13
           then if m <=? 2 then y - 1 else y
           else (if m <=? 2 then y - 1 else y) + 1) with y in Heq
    by (destruct (Z.leb_spec m 2);
        [replace (m + 13 <=? 13) with false by (symmetry; apply Z.leb_gt; lia)
        | replace (m + 1 <=? 13) with true by (symmetry; apply Z.leb_le; lia)];
        lia).
  replace (if (if m <=? 2 then m + 13 else m + 1) <=? 13
           then (if m <=? 2 then m + 13 else m + 1) - 1
           else (if m <=? 2 then m + 13 else m + 1) - 13) with m in Heq
    by (destruct (Z.leb_spec m 2);
        [replace (m + 13 <=? 13) with false by (symmetry; apply Z.leb_gt; lia)
        | replace (m + 1 <=? 13) with true by (symmetry; apply Z.leb_le; lia)];
        lia).
  rewrite Heq. unfold marchCount, lbbOf.
  destruct (IGREG2 <=? d + 31 * (m + 12 * y));
    destruct (Z.leb_spec m 2); zdiv.
Qed.

(** X9: outside 1582, for ninety million years either way and a time of
    day within range, the length [numberOfDaysInMonthInYear] gives a month
    is the number of days between the day numbers [getDateFromJulianDay]
    reads in the Julian Days [getJDFromDate] gives the first of that month
    and the first of the next (month 13 standing for January). *)
Theorem X9_month_length_matches_julian_days (qd : QDateApi)
        (y m h mi s : Z) :
  1 <= m <= 12 -> y <> 1582 -> -90000000 <= y < 90000000 ->
  0 <= h <= 23 -> 0 <= mi <= 59 -> 0 <= s <= 59 ->
  QDate_agrees qd y m 1 -> QDate_agrees qd y (m + 1) 1 ->
  julianOf (snd (getJDFromDate qd y (m + 1) 1 h mi s))
  - julianOf (snd (getJDFromDate qd y m 1 h mi s))
  = numberOfDaysInMonthInYear m y.
Proof.
  intros Hm Hy Hrange Hh Hmi Hs Hq1 Hq2.
  rewrite (getJDFromDate_jdOf qd y m 1 h mi s Hq1).
  rewrite (getJDFromDate_jdOf qd y (m + 1) 1 h mi s Hq2).
  cbn [snd].
  assert (R1 : - DATE_LIMIT < ljulOf y m 1 < DATE_LIMIT)
    by (apply ljulOf_date_range; lia).
  assert (R2 : - DATE_LIMIT < ljulOf y (m + 1) 1 < DATE_LIMIT).
  { destruct (Z.eq_dec m 12) as [-> | Hne].
    - change (12 + 1) with 13. rewrite ljulOf_month_13.
      apply ljulOf_date_range; lia.
    - apply ljulOf_date_range; lia. }
  rewrite !julianOf_jdOf by assumption.
  apply month_length_is_day_number_step; assumption.
Qed.

Lemma X9_month_length_matches_julian_days_witness :
  julianOf (snd (getJDFromDate QDate4 (-4) (2 + 1) 1 2 24 0))
  - julianOf (snd (getJDFromDate QDate4 (-4) 2 1 2 24 0))
  = numberOfDaysInMonthInYear 2 (-4).
Proof.
  exact (X9_month_length_matches_julian_days QDate4 (-4) 2 2 24 0
           ltac:(lia) ltac:(lia) ltac:(lia) ltac:(lia) ltac:(lia) ltac:(lia)
           (fun _ => eq_refl) (fun _ => eq_refl)).
Defined.

(** ** Powers of two *)

(** Every positive integer is a power of two times an odd number. *)
Lemma odd_part (v : Z) :
  0 < v -> exists k q, 0 <= k /\ 0 <= q /\ v = 2 ^ k * (2 * q + 1).
Proof.
  intros Hv. assert (H0 : 0 <= v) by lia. revert Hv.
  pattern v. apply Z_lt_induction; [| exact H0]. clear v H0.
  intros v IH Hpos.
  destruct (Z.eq_dec (v mod 2) 0) as [Heven | Hodd].
  - destruct (IH (v / 2) ltac:(zdiv) ltac:(zdiv)) as (k & q & Hk & Hq & Hv).
    exists (k + 1), q. split; [lia |]. split; [exact Hq |].
    rewrite Z.pow_add_r by lia. change (2 ^ 1) with 2.
    replace v with (2 * (v / 2)) at 1 by zdiv. rewrite Hv at 1. ring.
  - exists 0, (v / 2). split; [lia |]. split; [zdiv |].
    change (2 ^ 0) with 1. zdiv.
Qed.

Lemma land_odd_odd (a b : Z) :
  Z.land (2 * a + 1) (2 * b + 1) = 2 * Z.land a b + 1.
Proof.
  apply Z.bits_inj'. intros n Hn.
  rewrite Z.land_spec.
  destruct (Z.eq_dec n 0) as [-> | Hnz].
  - rewrite !Z.testbit_odd_0. reflexivity.
  - replace n with (Z.succ (n - 1)) by lia.
    rewrite !Z.testbit_odd_succ by lia.
    symmetry. apply Z.land_spec.
Qed.

(** [v & -v] is the lowest bit set in [v]. *)
Lemma land_opp_odd_part (k q : Z) :
  0 <= k ->
  Z.land (2 ^ k * (2 * q + 1)) (- (2 ^ k * (2 * q + 1))) = 2 ^ k.
Proof.
  intros Hk.
  replace (- (2 ^ k * (2 * q + 1))) with ((2 * (- q - 1) + 1) * 2 ^ k) by ring.
  replace (2 ^ k * (2 * q + 1)) with ((2 * q + 1) * 2 ^ k) by ring.
  rewrite <- !Z.shiftl_mul_pow2 by exact Hk.
  rewrite <- Z.shiftl_land, land_odd_odd.
  replace (- q - 1) with (Z.lnot q) by (unfold Z.lnot; lia).
  rewrite Z.land_lnot_diag.
  rewrite Z.shiftl_mul_pow2 by exact Hk. lia.
Qed.

(** X10: [isPowerOfTwo] accepts zero and the powers of two, and nothing
    else. *)
Theorem X10_isPowerOfTwo_exactly (value : Z) :
  INT_MIN < value <= INT_MAX ->
  (isPowerOfTwo value = true
   <-> value = 0 \/ exists k : Z, 0 <= k /\ value = 2 ^ k).
Proof.
  intros _. unfold isPowerOfTwo. rewrite Z.eqb_eq.
  destruct (Z.lt_trichotomy value 0) as [Hneg | [-> | Hpos]].
  - destruct (odd_part (- value) ltac:(lia)) as (k & q & Hk & Hq & Hv).
    assert (Hland : Z.land value (- value) = 2 ^ k).
    { rewrite Z.land_comm.
      replace value with (- (- value)) at 2 by lia.
      rewrite Hv. apply land_opp_odd_part. exact Hk. }
    rewrite Hland.
    pose proof (Z.pow_pos_nonneg 2 k ltac:(lia) Hk) as Hp.
    split; [lia |].
    intros [H0 | (j & Hj & Hvj)]; [lia |].
    pose proof (Z.pow_pos_nonneg 2 j ltac:(lia) Hj). lia.
  - split; [left; reflexivity | reflexivity].
  - destruct (odd_part value Hpos) as (k & q & Hk & Hq & Hv).
    assert (Hland : Z.land value (- value) = 2 ^ k)
      by (rewrite Hv; apply land_opp_odd_part; exact Hk).
    rewrite Hland. split.
    + intros Heq. right. exists k. split; [exact Hk | lia].
    + intros [H0 | (j & Hj & Hvj)]; [lia |].
      (* 2^j = 2^k * (2q+1) forces q = 0 *)
      assert (Hq0 : q = 0).
      { destruct (Z.eq_dec q 0) as [Hz | Hnz]; [exact Hz | exfalso].
        assert (Hodd : Z.odd (2 * q + 1) = true)
          by (rewrite Z.add_comm, Z.odd_add_mul_2; reflexivity).
        rewrite Hvj in Hv.
        destruct (Z.le_gt_cases j k) as [Hle | Hgt].
        - replace k with (j + (k - j)) in Hv by lia.
          rewrite Z.pow_add_r in Hv by lia.
          pose proof (Z.pow_pos_nonneg 2 j ltac:(lia) Hj).
          pose proof (Z.pow_pos_nonneg 2 (k - j) ltac:(lia) ltac:(lia)).
          nia.
        - replace j with (k + (j - k)) in Hv by lia.
          rewrite Z.pow_add_r in Hv by lia.
          pose proof (Z.pow_pos_nonneg 2 k ltac:(lia) Hk).
          assert (Hc : 2 ^ (j - k) = 2 * q + 1) by nia.
          replace (j - k) with (Z.succ (j - k - 1)) in Hc by lia.
          rewrite Z.pow_succ_r in Hc by lia. lia. }
      subst q. lia.
Qed.

Lemma X10_isPowerOfTwo_exactly_witness :
  isPowerOfTwo 96 = true <-> 96 = 0 \/ exists k : Z, 0 <= k /\ 96 = 2 ^ k.
Proof.
  exact (X10_isPowerOfTwo_exactly 96 ltac:(unfold INT_MIN, INT_MAX; lia)).
Defined.

(** The loop started at [2 ^ k] stops at the first power of two that is not
    below [value]; it needs at most [31 - k] evaluations of its condition. *)
Lemma potLoop_settles (n : nat) :
  forall k value : Z,
    0 <= k <= 30 -> 30 - k <= Z.of_nat n -> value <= 2 ^ 30 ->
    exists j : Z,
      k <= j <= 30 /\ value <= 2 ^ j /\ (j = k \/ 2 ^ (j - 1) < value) /\
      forall fuel : nat, (S n <= fuel)%nat ->
        potLoop fuel value (2 ^ k) = Some (2 ^ j).
Proof.
  induction n as [| n IH]; intros k value Hk Hn Hv.
  - assert (k = 30) by lia. subst k. exists 30.
    split; [lia |]. split; [exact Hv |]. split; [left; reflexivity |].
    intros [| fuel] Hfuel; [lia |]. cbn [potLoop].
    destruct (Z.ltb_spec (2 ^ 30) value); [lia | reflexivity].
  - destruct (Z.ltb_spec (2 ^ k) value) as [Hlt | Hge].
    + assert (Hk30 : k < 30).
      { destruct (Z.eq_dec k 30) as [-> | Hne]; lia. }
      destruct (IH (k + 1) value ltac:(lia) ltac:(lia) Hv)
        as (j & Hj & Hle & Hprev & Hrun).
      exists j. split; [lia |]. split; [exact Hle |]. split.
      * right. destruct Hprev as [-> | Hprev]; [| exact Hprev].
        replace (k + 1 - 1) with k by lia. exact Hlt.
      * intros [| fuel] Hfuel; [lia |]. cbn [potLoop].
        destruct (Z.ltb_spec (2 ^ k) value); [| lia].
        rewrite Z.shiftl_mul_pow2 by lia.
        rewrite <- Z.pow_add_r by lia. apply Hrun. lia.
    + exists k. split; [lia |]. split; [exact Hge |].
      split; [left; reflexivity |].
      intros [| fuel] Hfuel; [lia |]. cbn [potLoop].
      destruct (Z.ltb_spec (2 ^ k) value); [lia | reflexivity].
Qed.

(** X11: below the asserted limit of [2 ^ 30] the loop of
    [smallestPowerOfTwoGreaterOrEqualTo] terminates; the result is 0 for 0,
    1 for a negative value, and for a positive value the least power of two
    that is not below it. *)
Theorem X11_smallest_power_of_two (value : Z) :
  INT_MIN <= value <= 2 ^ 30 ->
  exists pot : Z,
    settles (fun fuel => smallestPowerOfTwoGreaterOrEqualTo fuel value) pot /\
    isPowerOfTwo pot = true /\
    0 <= pot <= 2 ^ 30 /\
    (value = 0 -> pot = 0) /\
    (value < 0 -> pot = 1) /\
    (0 < value ->
     exists k : Z, 0 <= k <= 30 /\ pot = 2 ^ k /\ value <= pot /\
       forall j : Z, 0 <= j -> value <= 2 ^ j -> pot <= 2 ^ j).
Proof.
  intros [_ Hv]. unfold smallestPowerOfTwoGreaterOrEqualTo.
  destruct (Z.eqb_spec value 0) as [-> | Hnz].
  - exists 0. split; [exists 0%nat; intros; reflexivity |].
    split; [reflexivity |]. repeat split; try lia.
  - destruct (potLoop_settles 30 0 value ltac:(lia) ltac:(lia) Hv)
      as (k & Hk & Hle & Hprev & Hrun).
    change (2 ^ 0) with 1 in Hrun.
    pose proof (Z.pow_pos_nonneg 2 k ltac:(lia) ltac:(lia)) as Hpos.
    exists (2 ^ k). split; [exists 31%nat; exact Hrun |].
    split.
    { unfold isPowerOfTwo. apply Z.eqb_eq.
      replace (2 ^ k) with (2 ^ k * (2 * 0 + 1)) at 1 2 by ring.
      apply land_opp_odd_part. lia. }
    split.
    { split; [lia |]. apply Z.pow_le_mono_r; lia. }
    split; [lia |]. split.
    + intros Hneg. destruct Hprev as [-> | Hprev]; [reflexivity |].
      pose proof (Z.pow_nonneg 2 (k - 1) ltac:(lia)). lia.
    + intros Hp. exists k. split; [lia |]. split; [reflexivity |].
      split; [exact Hle |].
      intros j Hj Hvj. destruct Hprev as [-> | Hprev].
      * change (2 ^ 0) with 1.
        pose proof (Z.pow_pos_nonneg 2 j ltac:(lia) Hj). lia.
      * destruct (Z.le_gt_cases k j) as [Hkj | Hjk].
        { apply Z.pow_le_mono_r; lia. }
        exfalso.
        assert (2 ^ j <= 2 ^ (k - 1)) by (apply Z.pow_le_mono_r; lia).
        lia.
Qed.

Lemma X11_smallest_power_of_two_witness :
  exists pot : Z,
    settles (fun fuel => smallestPowerOfTwoGreaterOrEqualTo fuel 600) pot /\
    isPowerOfTwo pot = true /\
    0 <= pot <= 2 ^ 30 /\
    (600 = 0 -> pot = 0) /\
    (600 < 0 -> pot = 1) /\
    (0 < 600 ->
     exists k : Z, 0 <= k <= 30 /\ pot = 2 ^ k /\ 600 <= pot /\
       forall j : Z, 0 <= j -> 600 <= 2 ^ j -> pot <= 2 ^ j).
Proof.
  exact (X11_smallest_power_of_two 600
           ltac:(unfold INT_MIN; cbn; lia)).
Defined.

(** ** The ISO 8601 text of a Julian Day *)

Lemma digitChar_digit (d : Z) :
  0 <= d <= 9 -> isDigit (digitChar d) = true /\ digitValue (digitChar d) = d.
Proof.
  intros Hd.
  assert (H : d = 0 \/ d = 1 \/ d = 2 \/ d = 3 \/ d = 4 \/ d = 5 \/ d = 6
              \/ d = 7 \/ d = 8 \/ d = 9) by lia.
  repeat (destruct H as [-> | H]; [split; reflexivity |]).
  subst d. split; reflexivity.
Qed.

Lemma digitsValue_from (ds : list ascii) (acc : Z) :
  fold_left (fun a c => 10 * a + digitValue c) ds acc
  = acc * 10 ^ Z.of_nat (List.length ds) + digitsValue ds.
Proof.
  unfold digitsValue. revert acc.
  induction ds as [| c ds IH]; intros acc.
  - cbn. lia.
  - cbn [fold_left List.length]. rewrite IH, (IH (10 * 0 + digitValue c)).
    rewrite Nat2Z.inj_succ, Z.pow_succ_r by lia. ring.
Qed.

Lemma digitsValue_snoc (ds : list ascii) (c : ascii) :
  digitsValue (ds ++ [c]) = 10 * digitsValue ds + digitValue c.
Proof.
  unfold digitsValue. rewrite fold_left_app. reflexivity.
Qed.

(** With enough fuel [decimal] writes the digits of [n], no more of them
    than a bound [10 ^ k] on [n] allows. *)
Lemma decimal_digits (fuel : nat) :
  forall (n : Z) (acc : list ascii),
    (1 <= fuel)%nat -> 0 <= n < 2 ^ Z.of_nat fuel ->
    exists ds : list ascii,
      decimal fuel n acc = ds ++ acc /\ ds <> [] /\ allDigits ds = true
      /\ digitsValue ds = n
      /\ forall k : nat, (1 <= k)%nat -> n < 10 ^ Z.of_nat k ->
                         (List.length ds <= k)%nat.
Proof.
  induction fuel as [| fuel IH]; intros n acc Hfuel Hn; [lia |].
  cbn [decimal].
  assert (Hr : 0 <= n mod 10 <= 9) by zdiv.
  destruct (digitChar_digit (n mod 10) Hr) as [Hdig Hval].
  destruct (Z.ltb_spec n 10) as [Hsmall | Hbig].
  - exists [digitChar (n mod 10)]. split; [reflexivity |].
    split; [discriminate |]. split; [cbn; rewrite Hdig; reflexivity |].
    split.
    + unfold digitsValue. cbn [fold_left]. rewrite Hval. zdiv.
    + intros k Hk _. cbn. lia.
  - rewrite Nat2Z.inj_succ, Z.pow_succ_r in Hn by lia.
    assert (Hpos : (1 <= fuel)%nat).
    { destruct fuel as [| fuel']; [cbn in Hn; lia | lia]. }
    destruct (IH (n / 10) (digitChar (n mod 10) :: acc) Hpos ltac:(zdiv))
      as (ds & Heq & Hne & Hall & Hv & Hlen).
    exists (ds ++ [digitChar (n mod 10)]).
    split; [rewrite Heq, <- app_assoc; reflexivity |].
    split; [destruct ds; discriminate |].
    split.
    { unfold allDigits in *. rewrite forallb_app, Hall. cbn.
      rewrite Hdig. reflexivity. }
    split.
    { rewrite digitsValue_snoc, Hv, Hval. zdiv. }
    intros k Hk Hnk. rewrite length_app. cbn [List.length].
    destruct k as [| [| k]]; [lia | cbn in Hnk; lia |].
    assert (List.length ds <= S k)%nat; [| lia].
    apply Hlen; [lia |].
    rewrite Nat2Z.inj_succ, Z.pow_succ_r in Hnk by lia. zdiv.
Qed.

Lemma number_digits (n : Z) :
  0 <= n ->
  number n <> [] /\ allDigits (number n) = true
  /\ digitsValue (number n) = n
  /\ forall k : nat, (1 <= k)%nat -> n < 10 ^ Z.of_nat k ->
                     (List.length (number n) <= k)%nat.
Proof.
  intros Hn. unfold number.
  replace (n <? 0) with false by (symmetry; apply Z.ltb_ge; exact Hn).
  assert (Hfuel : 0 <= n < 2 ^ Z.of_nat (S (Z.to_nat (Z.log2 n)))).
  { rewrite Nat2Z.inj_succ, Z2Nat.id by apply Z.log2_nonneg.
    destruct (Z.eq_dec n 0) as [-> | Hnz]; [cbn; lia |].
    pose proof (Z.log2_spec n ltac:(lia)). lia. }
  destruct (decimal_digits (S (Z.to_nat (Z.log2 n))) n [] ltac:(lia) Hfuel)
    as (ds & Heq & Hne & Hall & Hv & Hlen).
  rewrite app_nil_r in Heq. rewrite Heq. repeat split; assumption.
Qed.

Lemma zeros_digits (k : nat) (ds : list ascii) :
  allDigits ds = true ->
  allDigits (repeat "0"%char k ++ ds) = true
  /\ digitsValue (repeat "0"%char k ++ ds) = digitsValue ds.
Proof.
  intros Hds. induction k as [| k [IHa IHv]]; [split; [exact Hds | reflexivity] |].
  cbn [repeat app]. split.
  - cbn. exact IHa.
  - unfold digitsValue in *. cbn [fold_left]. exact IHv.
Qed.

(** A field of width [w] filled with zeros: at least [w] digits, exactly
    [w] when the value has no more, and the value is kept. *)
Lemma arg_digits (a : Z) (w : nat) :
  0 <= a ->
  allDigits (arg a w "0") = true
  /\ digitsValue (arg a w "0") = a
  /\ arg a w "0" <> []
  /\ ((1 <= w)%nat -> a < 10 ^ Z.of_nat w -> List.length (arg a w "0") = w).
Proof.
  intros Ha. destruct (number_digits a Ha) as (Hne & Hall & Hv & Hlen).
  unfold arg. cbv zeta.
  destruct (zeros_digits (w - List.length (number a)) (number a) Hall)
    as [Hza Hzv].
  split; [exact Hza |]. split; [rewrite Hzv; exact Hv |]. split.
  - intros Habs. apply app_eq_nil in Habs. destruct Habs as [_ Habs].
    exact (Hne Habs).
  - intros Hw Hlt. rewrite length_app, repeat_length.
    pose proof (Hlen w Hw Hlt). lia.
Qed.

Lemma arg_two_digits (a : Z) :
  0 <= a <= 99 ->
  nDigits 2 (arg a 2 "0") = true /\ digitsValue (arg a 2 "0") = a.
Proof.
  intros Ha. destruct (arg_digits a 2 ltac:(lia)) as (Hall & Hv & _ & Hlen).
  split; [| exact Hv].
  unfold nDigits. rewrite Hall, (Hlen ltac:(lia) ltac:(cbn; lia)). reflexivity.
Qed.

Lemma textParts_wellFormed (year month day hour minute second : Z) :
  0 <= month <= 99 -> 0 <= day <= 99 -> 0 <= hour <= 99 ->
  0 <= minute <= 99 -> 0 <= second <= 99 ->
  wellFormed (textParts year month day hour minute second) = true.
Proof.
  intros Hm Hd Hh Hmi Hs. unfold wellFormed, textParts.
  cbn [pSign pYear pSep1 pMonth pSep2 pDay pHour pMinute pSecond pFraction].
  destruct (arg_digits (if 0 <=? year then year else -1 * year) 4
              ltac:(destruct (Z.leb_spec 0 year); lia))
    as (Hya & _ & Hyne & _).
  rewrite Hya.
  rewrite (proj1 (arg_two_digits month Hm)), (proj1 (arg_two_digits day Hd)),
    (proj1 (arg_two_digits hour Hh)), (proj1 (arg_two_digits minute Hmi)),
    (proj1 (arg_two_digits second Hs)).
  replace (isSignText (if year <? 0 then ["-"%char] else [])) with true
    by (destruct (year <? 0); reflexivity).
  destruct (arg (if 0 <=? year then year else -1 * year) 4 "0");
    [congruence |].
  rewrite orb_true_r. reflexivity.
Qed.

Lemma textParts_year (year month day hour minute second : Z) :
  yearValue (textParts year month day hour minute second) = year.
Proof.
  unfold yearValue, textParts. cbn [pSign pYear].
  destruct (Z.ltb_spec year 0) as [Hneg | Hpos].
  - replace (0 <=? year) with false by (symmetry; apply Z.leb_gt; lia).
    change (Ascii.eqb "-" "-") with true. cbv iota.
    destruct (arg_digits (-1 * year) 4 ltac:(lia)) as (_ & Hv & _).
    rewrite Hv. lia.
  - replace (0 <=? year) with true by (symmetry; apply Z.leb_le; lia).
    destruct (arg_digits year 4 Hpos) as (_ & Hv & _). exact Hv.
Qed.

Lemma textParts_seconds (year month day hour minute second : Z) :
  0 <= second <= 99 ->
  secondsValue (textParts year month day hour minute second)
  = inject_Z second.
Proof.
  intros Hs. unfold secondsValue, textParts. cbn [pSecond pFraction].
  destruct (arg_two_digits second Hs) as [Hn Hv].
  unfold toFloat. rewrite spanDigits_app;
    [| unfold nDigits in Hn; apply andb_prop in Hn; apply Hn | exact I].
  destruct (two_digits_inv _ Hn) as (a & b & Heq & _ & _).
  rewrite Heq in *. cbn [fst]. rewrite Hv. reflexivity.
Qed.

(** The parser on the text of six fields. *)
Lemma parse_text_of_fields (year month day hour minute second : Z) :
  INT_MIN <= year <= INT_MAX ->
  0 <= month <= 99 -> 0 <= day <= 99 -> 0 <= hour <= 99 ->
  0 <= minute <= 99 -> 0 <= second <= 99 ->
  getDateTimeFromISO8601String
    (assemble (textParts year month day hour minute second))
  = Some (year, month, day, hour, minute, inject_Z second).
Proof.
  intros Hy Hm Hd Hh Hmi Hs.
  rewrite getDateTime_assemble by (apply textParts_wellFormed; assumption).
  rewrite textParts_year, textParts_seconds by assumption.
  replace (INT_MIN <=? year) with true by (symmetry; apply Z.leb_le; lia).
  replace (year <=? INT_MAX) with true by (symmetry; apply Z.leb_le; lia).
  cbn [andb]. unfold textParts.
  cbn [pMonth pDay pHour pMinute].
  rewrite (proj2 (arg_two_digits month Hm)), (proj2 (arg_two_digits day Hd)),
    (proj2 (arg_two_digits hour Hh)), (proj2 (arg_two_digits minute Hmi)).
  reflexivity.
Qed.

Lemma julianDayToISO8601String_parts (jd : Q) :
  julianDayToISO8601String jd
  = let '(year, month, day) := getDateFromJulianDay jd in
    let '(hour, minute, second) := getTimeFromJulianDay jd in
    assemble (textParts year month day hour minute second).
Proof.
  unfold julianDayToISO8601String.
  destruct (getDateFromJulianDay jd) as [[year month] day].
  destruct (getTimeFromJulianDay jd) as [[hour minute] second].
  unfold assemble, textParts.
  cbn [pSign pYear pSep1 pMonth pSep2 pDay pHour pMinute pSecond pFraction].
  rewrite app_nil_r. cbv zeta.
  destruct (year <? 0); cbn [app]; rewrite <- ?app_assoc; reflexivity.
Qed.

(** The fields of a Julian Day within the limit are fit for the text. *)
Lemma fields_of_julian_day (jd : Q) :
  - JULIAN_LIMIT <= julianOf jd <= JULIAN_LIMIT ->
  let '(year, month, day) := getDateFromJulianDay jd in
  - 2000000000 <= year <= 2000000000 /\ 1 <= month <= 12 /\ 1 <= day <= 31.
Proof.
  intros Hj. unfold getDateFromJulianDay.
  destruct (dateOfJulian_inverse (julianOf jd) Hj)
    as (y & m & d & -> & Hm & Hd & Hl).
  pose proof (days_inside m y ltac:(lia)) as Hlen.
  split; [| split; [exact Hm | lia]].
  apply (ljulOf_year_bound y m d Hm); [lia |].
  rewrite Hl. exact Hj.
Qed.

(** X12: the text [julianDayToISO8601String] writes for a Julian Day is
    accepted by [getDateTimeFromISO8601String], which reads from it the
    very date and time of day the text was written from, years before the
    common era and years of more than four digits included. *)
Theorem X12_iso_text_reads_back (jd : Q) :
  - JULIAN_LIMIT <= julianOf jd <= JULIAN_LIMIT ->
  let '(year, month, day) := getDateFromJulianDay jd in
  let '(hour, minute, second) := getTimeFromJulianDay jd in
  getDateTimeFromISO8601String (julianDayToISO8601String jd)
  = Some (year, month, day, hour, minute, C.of_int second).
Proof.
  intros Hj. rewrite julianDayToISO8601String_parts.
  pose proof (fields_of_julian_day jd Hj) as Hdate.
  pose proof (time_of_any_day jd) as Htime.
  destruct (getDateFromJulianDay jd) as [[year month] day].
  destruct (getTimeFromJulianDay jd) as [[hour minute] second].
  destruct Hdate as (Hy & Hm & Hd). destruct Htime as (Hh & Hmi & Hs).
  apply parse_text_of_fields; unfold INT_MIN, INT_MAX; lia.
Qed.

Lemma X12_iso_text_reads_back_witness :
  getDateTimeFromISO8601String
    (julianDayToISO8601String (C.of_int 1705426 + deltaTime 6 7 8))
  = Some (-43, 3, 15, 6, 7, 8%Q).
Proof.
  exact (X12_iso_text_reads_back (C.of_int 1705426 + deltaTime 6 7 8)
           ltac:(vm_compute; split; discriminate)).
Defined.

Lemma to_int_of_int (n : Z) : C.to_int (C.of_int n) = n.
Proof.
  unfold C.to_int, C.of_int.
  destruct (Qle_bool 0 (inject_Z n)).
  - apply Qfloor_Z.
  - apply Qceiling_Z.
Qed.

(** X13: a Julian Day made of a day number within [2 ^ 24] of day zero
    and a time of day in whole seconds, as [getJDFromDate] rounds their
    sum, survives the trip through its ISO 8601 text:
    [getJulianDayFromISO8601String] reads the text of
    [julianDayToISO8601String] back to the same Julian Day, and sets its
    flag. *)
Theorem X13_julian_day_survives_text (qd : QDateApi) (n h mi s : Z)
        (year month day : Z) :
  - TIME_LIMIT < n < TIME_LIMIT ->
  0 <= h <= 23 -> 0 <= mi <= 59 -> 0 <= s <= 59 ->
  getDateFromJulianDay (jdOf n h mi s) = (year, month, day) ->
  QDate_agrees qd year month day ->
  let jd := jdOf n h mi s in
  getJulianDayFromISO8601String qd (julianDayToISO8601String jd) = (jd, true).
Proof.
  intros Hn Hh Hmi Hs Hdate Hqd jd. unfold jd.
  assert (Hn' : - DATE_LIMIT < n < DATE_LIMIT)
    by (unfold TIME_LIMIT, DATE_LIMIT in *; lia).
  assert (Hj : - JULIAN_LIMIT <= n <= JULIAN_LIMIT)
    by (unfold TIME_LIMIT, JULIAN_LIMIT in *; lia).
  unfold getJulianDayFromISO8601String.
  rewrite julianDayToISO8601String_parts.
  pose proof (fields_of_julian_day (jdOf n h mi s)) as Hf.
  rewrite julianOf_jdOf in Hf by assumption. specialize (Hf Hj).
  rewrite Hdate in *.
  rewrite getTimeFromJulianDay_jdOf by assumption.
  destruct Hf as (Hy & Hm & Hd).
  rewrite parse_text_of_fields by (unfold INT_MIN, INT_MAX; lia).
  change (inject_Z s) with (C.of_int s). rewrite to_int_of_int.
  unfold getDateFromJulianDay in Hdate.
  rewrite julianOf_jdOf in Hdate by assumption.
  destruct (dateOfJulian_inverse n Hj)
    as (y' & m' & d' & Hdate' & _ & _ & Hl).
  rewrite Hdate' in Hdate. injection Hdate as -> -> ->.
  rewrite (getJDFromDate_jdOf qd year month day h mi s Hqd), Hl.
  reflexivity.
Qed.

Lemma X13_julian_day_survives_text_witness :
  let jd := jdOf 2460000 18 30 15 in
  getJulianDayFromISO8601String QDate4 (julianDayToISO8601String jd)
  = (jd, true).
Proof.
  exact (X13_julian_day_survives_text QDate4 2460000 18 30 15 2023 2 24
           ltac:(unfold TIME_LIMIT; lia) ltac:(lia) ltac:(lia) ltac:(lia)
           ltac:(vm_compute; reflexivity) (fun _ => eq_refl)).
Defined.

(** ** A second call *)

(** The state the ten loops reach is a date and a time of day. *)
Lemma runLoops_normalised (fuel : nat) (st st' : Rollover) :
  runLoops fuel loops st = Some st' -> normalised st'.
Proof.
  intros Hrun.
  destruct (passes_settle st) as (st0 & [n Hn] & Hnorm).
  pose proof (runLoops_more_fuel loops fuel (Nat.max fuel n) st st' Hrun
                (Nat.le_max_l fuel n)) as H1.
  rewrite (Hn (Nat.max fuel n) (Nat.le_max_r fuel n)) in H1.
  injection H1 as <-. exact Hnorm.
Qed.

Lemma epochHole_leaves_hole (st : Rollover) :
  ~ inEpochHole (oy (epochHole st)) (om (epochHole st)) (od (epochHole st)).
Proof.
  unfold epochHole, inEpochHole.
  destruct ((oy st =? 1582) && (om st =? 10) && ((4 <? od st) && (od st <? 15)))
    eqn:Hh; cbn [oy om od]; [lia |].
  intros (Hy & Hm & Hd).
  rewrite Hy, Hm in Hh. cbn in Hh.
  replace (4 <? od st) with true in Hh by (symmetry; apply Z.ltb_lt; lia).
  replace (od st <? 15) with true in Hh by (symmetry; apply Z.ltb_lt; lia).
  discriminate Hh.
Qed.

(** With [int] locals too, a valid date and time passes the ten loops at
    once. *)
Lemma checked_runLoops_pass (fuel : nat) (y m d h mi s : Z) (c : bool) :
  inputValid y m d h mi s ->
  Checked.runLoops (S fuel) Checked.loops (mkRollover y m d h mi s c)
  = Some (Returns (mkRollover y m d h mi s c)).
Proof.
  intros (Hs & Hmi & Hh & Hm & Hd).
  assert (Hdays : Checked.numberOfDaysInMonthInYear m y
                  = Some (numberOfDaysInMonthInYear m y))
    by (apply checked_days_proper; lia).
  pose proof (days_inside m y ltac:(lia)) as Hlen.
  unfold Checked.loops.
  cbn [Checked.runLoops Checked.while oy om od oh omin os Checked.bind].
  repeat (first
            [ rewrite Hdays
            | match goal with
              | |- context [?a <? ?b] =>
                  replace (a <? b) with false
                    by (symmetry; apply Z.ltb_ge; lia)
              end ];
          cbn [Checked.runLoops Checked.while oy om od oh omin os
               Checked.bind]).
  reflexivity.
Qed.

(** X14: the adjustment is done in one call: when
    [changeDateTimeForRollover] has returned true, a further call on the
    six values it wrote returns false and writes nothing. *)
Theorem X14_second_call_changes_nothing (fuel : nat) (y m d h mi s : Z)
        (out out' : Outputs) :
  Checked.changeDateTimeForRollover fuel y m d h mi s out
  = Some (Returns (true, out')) ->
  forall (fuel' : nat) (cells : Outputs),
    Checked.changeDateTimeForRollover
      (S fuel') (ry out') (rm out') (rd out') (rh out') (rmin out') (rs out')
      cells
    = Some (Returns (false, cells)).
Proof.
  intros Hrun. apply checked_returns in Hrun.
  unfold changeDateTimeForRollover, rolloverLocals in Hrun.
  destruct (runLoops fuel loops (mkRollover y m d h mi s false)) as [st |] eqn:Hl;
    [| discriminate].
  injection Hrun as Hc Hout.
  rewrite (writeBack_changed _ _ Hc) in Hout. subst out'.
  cbn [ry rm rd rh rmin rs].
  pose proof (epochHole_normalised st (runLoops_normalised _ _ _ Hl)) as Hnorm.
  pose proof (epochHole_leaves_hole st) as Hhole.
  set (e := epochHole st) in *. clearbody e.
  intros fuel' cells.
  assert (Hvalid : inputValid (oy e) (om e) (od e) (oh e) (omin e) (os e)).
  { unfold normalised, clockOK, secondsOK, minutesOK, hoursOK in Hnorm.
    unfold inputValid. lia. }
  unfold Checked.changeDateTimeForRollover.
  rewrite checked_runLoops_pass by exact Hvalid.
  unfold epochHole. cbn [oy om od oh omin os change].
  destruct ((oy e =? 1582) && (om e =? 10) && ((4 <? od e) && (od e <? 15)))
    eqn:Hh.
  - exfalso. apply Hhole. unfold inEpochHole.
    apply andb_prop in Hh. destruct Hh as [Hym Hd].
    apply andb_prop in Hym. destruct Hym as [Hy Hm].
    apply andb_prop in Hd. destruct Hd as [Hd1 Hd2].
    apply Z.eqb_eq in Hy. apply Z.eqb_eq in Hm.
    apply Z.ltb_lt in Hd1. apply Z.ltb_lt in Hd2. lia.
  - reflexivity.
Qed.

Lemma X14_second_call_changes_nothing_witness :
  Checked.changeDateTimeForRollover
    1 2025 2 2 2 2 1 (mkOutputs 2025 2 2 2 2 1)
  = Some (Returns (false, mkOutputs 2025 2 2 2 2 1)).
Proof.
  exact (X14_second_call_changes_nothing 3 2024 13 32 25 61 61
           (mkOutputs 0 0 0 0 0 0) (mkOutputs 2025 2 2 2 2 1) eq_refl
           0%nat (mkOutputs 2025 2 2 2 2 1)).
Defined.

(** ** The order of the dates *)

Lemma ljulOf_shifted (y m d : Z) :
  1 <= m <= 12 ->
  let jy := if 2 <? m then y else y - 1 in
  let jm := if 2 <? m then m + 1 else m + 13 in
  ljulOf y m d
  = marchCount jy jm d + centuryTerm (IGREG2 <=? d + 31 * (m + 12 * y)) jy.
Proof.
  intros Hm jy jm.
  assert (Hjm : 4 <= jm <= 15) by (unfold jm; destruct (Z.ltb_spec 2 m); lia).
  pose proof (ljulOf_march jy jm d Hjm) as Heq. cbv zeta in Heq.
  replace (if jm <=? 13 then jy else jy + 1) with y in Heq
    by (unfold jy, jm; destruct (Z.ltb_spec 2 m);
        [replace (m + 1 <=? 13) with true by (symmetry; apply Z.leb_le; lia)
        | replace (m + 13 <=? 13) with false by (symmetry; apply Z.leb_gt; lia)];
        lia).
  replace (if jm <=? 13 then jm - 1 else jm - 13) with m in Heq
    by (unfold jy, jm; destruct (Z.ltb_spec 2 m);
        [replace (m + 1 <=? 13) with true by (symmetry; apply Z.leb_le; lia)
        | replace (m + 13 <=? 13) with false by (symmetry; apply Z.leb_gt; lia)];
        lia).
  rewrite Heq. unfold centuryTerm. reflexivity.
Qed.

(** The days of a month end where the next shifted month begins. *)
Lemma shifted_of_days (y m d : Z) :
  1 <= m <= 12 -> d <= numberOfDaysInMonthInYear m y ->
  let jm := if 2 <? m then m + 1 else m + 13 in
  lbbOf jm + d <= lbbOf (jm + 1)
  /\ (m = 2 ->
      d <= 28 + (if leapIn (1582 <? y) y then 1 else 0)).
Proof.
  intros Hm Hd. rewrite days_monthLength in Hd by exact Hm.
  unfold monthLength, leapIn in *.
  each_month Hm; cbv zeta; cbn [Z.ltb Z.compare Pos.compare Pos.compare_cont];
    (split; [| intros Hfeb; try discriminate Hfeb]);
    try (vm_compute; vm_compute in Hd; lia);
    try (vm_compute (lbbOf _); lia).
  - vm_compute (lbbOf _).
    destruct (if 1582 <? y then gregorianLeap y else julianLeap y); lia.
  - destruct (if 1582 <? y then gregorianLeap y else julianLeap y); lia.
Qed.

(** From one March to the next there are 365 days, and one more when the
    February in between has 29. *)
Lemma march_year_length (g : bool) (jy : Z) :
  1461 * (jy + 1) / 4 + centuryTerm g (jy + 1)
  = 1461 * jy / 4 + centuryTerm g jy
    + 365 + (if leapIn g (jy + 1) then 1 else 0).
Proof.
  unfold centuryTerm, leapIn, gregorianLeap, julianLeap.
  destruct g.
  - destruct (Z.eqb_spec ((jy + 1) mod 4) 0);
      destruct (Z.eqb_spec ((jy + 1) mod 100) 0);
      destruct (Z.eqb_spec ((jy + 1) mod 400) 0);
      cbn [andb orb negb]; zdiv.
  - destruct (Z.eqb_spec ((jy + 1) mod 4) 0); zdiv.
Qed.

Lemma march_years_grow (g : bool) (jy jy' : Z) :
  jy <= jy' ->
  1461 * jy / 4 + centuryTerm g jy <= 1461 * jy' / 4 + centuryTerm g jy'.
Proof.
  intros Hle. unfold centuryTerm. destruct g; zdiv.
Qed.

(** Within one calendar the day count grows with the date. *)
Lemma count_grows (g : bool) (jy jm d jy' jm' d' : Z) :
  4 <= jm <= 15 -> 4 <= jm' <= 15 -> 1 <= d' ->
  lbbOf jm + d <= lbbOf (jm + 1) ->
  (jm = 15 -> d <= 28 + (if leapIn g (jy + 1) then 1 else 0)) ->
  jy < jy' \/ (jy = jy' /\ (jm < jm' \/ (jm = jm' /\ d < d'))) ->
  marchCount jy jm d + centuryTerm g jy
  < marchCount jy' jm' d' + centuryTerm g jy'.
Proof.
  intros Hjm Hjm' Hd' Hend Hfeb [Hy | [<- [Hm | [<- Hd]]]].
  - pose proof (march_year_length g jy) as Hstep.
    pose proof (march_years_grow g (jy + 1) jy' ltac:(lia)) as Hgrow.
    assert (Hoff : lbbOf jm + d
                   <= 487 + (if leapIn g (jy + 1) then 1 else 0)).
    { destruct (Z.eq_dec jm 15) as [-> | Hne].
      - specialize (Hfeb eq_refl). change (lbbOf 15) with 459. lia.
      - assert (lbbOf (jm + 1) <= 459) by (unfold lbbOf; zdiv).
        destruct (leapIn g (jy + 1)); lia. }
    assert (Hfirst : 122 <= lbbOf jm') by (unfold lbbOf; zdiv).
    unfold marchCount. lia.
  - assert (lbbOf (jm + 1) <= lbbOf jm') by (unfold lbbOf; zdiv).
    unfold marchCount. lia.
  - unfold marchCount. lia.
Qed.

(** The civil date in shifted months. *)
Lemma shifted_order (y m d y' m' d' : Z) :
  1 <= m <= 12 -> 1 <= m' <= 12 ->
  dateBefore y m d y' m' d' ->
  let jy := if 2 <? m then y else y - 1 in
  let jm := if 2 <? m then m + 1 else m + 13 in
  let jy' := if 2 <? m' then y' else y' - 1 in
  let jm' := if 2 <? m' then m' + 1 else m' + 13 in
  jy < jy' \/ (jy = jy' /\ (jm < jm' \/ (jm = jm' /\ d < d'))).
Proof.
  unfold dateBefore. intros Hm Hm' Hlt. cbv zeta.
  destruct (Z.ltb_spec 2 m); destruct (Z.ltb_spec 2 m'); lia.
Qed.

(** Two valid dates of the same calendar. *)
Lemma ljulOf_grows_in_calendar (y m d y' m' d' : Z) :
  1 <= m <= 12 -> 1 <= d <= numberOfDaysInMonthInYear m y ->
  1 <= m' <= 12 -> 1 <= d' <= numberOfDaysInMonthInYear m' y' ->
  dateBefore y m d y' m' d' ->
  (IGREG2 <=? d + 31 * (m + 12 * y))
  = (IGREG2 <=? d' + 31 * (m' + 12 * y')) ->
  (m = 2 -> (1582 <? y) = (IGREG2 <=? d + 31 * (m + 12 * y))) ->
  ljulOf y m d < ljulOf y' m' d'.
Proof.
  intros Hm Hd Hm' Hd' Hlt Hsame Hrule.
  rewrite (ljulOf_shifted y m d Hm), (ljulOf_shifted y' m' d' Hm').
  cbv zeta. rewrite <- Hsame.
  destruct (shifted_of_days y m d Hm ltac:(lia)) as [Hend Hfeb].
  cbv zeta in Hend.
  apply count_grows.
  - destruct (Z.ltb_spec 2 m); lia.
  - destruct (Z.ltb_spec 2 m'); lia.
  - lia.
  - exact Hend.
  - intros H15.
    assert (Hm2 : m = 2) by (destruct (Z.ltb_spec 2 m); lia).
    specialize (Hfeb Hm2). specialize (Hrule Hm2). subst m.
    change (2 <? 2) with false. cbv iota.
    replace (y - 1 + 1) with y by lia. rewrite <- Hrule. exact Hfeb.
  - apply (shifted_order y m d y' m' d' Hm Hm' Hlt).
Qed.

(** The day number keeps the order of the calendar. *)
Lemma ljulOf_grows (y m d y' m' d' : Z) :
  1 <= m <= 12 -> 1 <= d <= numberOfDaysInMonthInYear m y ->
  1 <= m' <= 12 -> 1 <= d' <= numberOfDaysInMonthInYear m' y' ->
  ~ inEpochHole y m d -> ~ inEpochHole y' m' d' ->
  dateBefore y m d y' m' d' ->
  ljulOf y m d < ljulOf y' m' d'.
Proof.
  intros Hm Hd Hm' Hd' Hhole Hhole' Hlt.
  pose proof (days_inside m y ltac:(lia)) as Hlen.
  pose proof (days_inside m' y' ltac:(lia)) as Hlen'.
  assert (Hfeb : forall yy mm dd, 1 <= dd <= 31 -> mm = 2 ->
                   (1582 <? yy) = (IGREG2 <=? dd + 31 * (mm + 12 * yy))).
  { intros yy mm dd Hdd ->. unfold IGREG2.
    destruct (Z.ltb_spec 1582 yy); symmetry;
      [apply Z.leb_le | apply Z.leb_gt]; lia. }
  destruct (IGREG2 <=? d + 31 * (m + 12 * y)) eqn:G;
    destruct (IGREG2 <=? d' + 31 * (m' + 12 * y')) eqn:G'.
  - apply ljulOf_grows_in_calendar; try assumption; try congruence.
    intros Hm2. apply Hfeb; [lia | exact Hm2].
  - exfalso. apply Z.leb_le in G. apply Z.leb_gt in G'.
    unfold dateBefore in Hlt. lia.
  - (* the earlier date is of the Julian calendar, the later one is not *)
    assert (H4 : ljulOf y m d <= ljulOf 1582 10 4).
    { destruct (Z.eq_dec (d + 31 * (m + 12 * y)) (4 + 31 * (10 + 12 * 1582)))
        as [Heq | Hne].
      - assert (y = 1582 /\ m = 10 /\ d = 4) as (-> & -> & ->) by lia. lia.
      - apply Z.lt_le_incl.
        apply ljulOf_grows_in_calendar; try assumption.
        + lia.
        + cbn. lia.
        + apply Z.leb_gt in G. unfold IGREG2, inEpochHole, dateBefore in *.
          lia.
        + intros Hm2. apply Hfeb; [lia | exact Hm2]. }
    assert (H15 : ljulOf 1582 10 15 <= ljulOf y' m' d').
    { destruct (Z.eq_dec (d' + 31 * (m' + 12 * y')) IGREG2) as [Heq | Hne].
      - unfold IGREG2 in Heq.
        assert (y' = 1582 /\ m' = 10 /\ d' = 15) as (-> & -> & ->) by lia. lia.
      - apply Z.lt_le_incl.
        apply ljulOf_grows_in_calendar; try assumption.
        + lia.
        + cbn. lia.
        + apply Z.leb_le in G'. unfold IGREG2, dateBefore in *. lia.
        + rewrite G'. reflexivity.
        + intros Hm2. discriminate Hm2. }
    change (ljulOf 1582 10 4) with 2299160 in H4.
    change (ljulOf 1582 10 15) with 2299161 in H15. lia.
  - apply ljulOf_grows_in_calendar; try assumption; try congruence.
    intros Hm2. apply Hfeb; [lia | exact Hm2].
Qed.

(** X15: the Julian Day keeps the order of the calendar: of two valid
    dates within ninety million years of the epoch and outside the ten
    days dropped in October 1582, the later date has the greater Julian
    Day, whatever the two times of day. *)
Theorem X15_later_date_later_julian_day (qd : QDateApi)
        (y m d h mi s y' m' d' h' mi' s' : Z) :
  -90000000 <= y <= 90000000 -> -90000000 <= y' <= 90000000 ->
  inputValid y m d h mi s -> inputValid y' m' d' h' mi' s' ->
  ~ inEpochHole y m d -> ~ inEpochHole y' m' d' ->
  QDate_agrees qd y m d -> QDate_agrees qd y' m' d' ->
  dateBefore y m d y' m' d' ->
  (snd (getJDFromDate qd y m d h mi s)
   < snd (getJDFromDate qd y' m' d' h' mi' s'))%Q.
Proof.
  intros Hy Hy' (Hs & Hmi & Hh & Hm & Hd) (Hs' & Hmi' & Hh' & Hm' & Hd')
         Hhole Hhole' Hqd Hqd' Hlt.
  pose proof (ljulOf_grows y m d y' m' d' Hm Hd Hm' Hd' Hhole Hhole' Hlt)
    as Hgrow.
  pose proof (days_at_most_31 m y Hm) as Hlen.
  pose proof (days_at_most_31 m' y' Hm') as Hlen'.
  rewrite (getJDFromDate_jdOf qd y m d h mi s Hqd).
  rewrite (getJDFromDate_jdOf qd y' m' d' h' mi' s' Hqd').
  cbn [snd].
  destruct (jdOf_in_day (ljulOf y m d) h mi s
              ltac:(apply ljulOf_date_range; lia) Hh Hmi Hs)
    as [[_ Hhi] _].
  destruct (jdOf_in_day (ljulOf y' m' d') h' mi' s'
              ltac:(apply ljulOf_date_range; lia) Hh' Hmi' Hs')
    as [[Hlo _] _].
  assert (Hstep : (inject_Z (ljulOf y m d) + 1 <= inject_Z (ljulOf y' m' d'))%Q).
  { change 1%Q with (inject_Z 1). rewrite <- inject_Z_plus, <- Zle_Qle. lia. }
  set (J := jdOf (ljulOf y m d) h mi s) in *.
  set (J' := jdOf (ljulOf y' m' d') h' mi' s') in *.
  clearbody J J'. lra.
Qed.

Lemma X15_later_date_later_julian_day_witness :
  (snd (getJDFromDate QDate4 1582 10 4 23 59 59)
   < snd (getJDFromDate QDate4 1582 10 15 0 0 0))%Q.
Proof.
  exact (X15_later_date_later_julian_day QDate4 1582 10 4 23 59 59
           1582 10 15 0 0 0 ltac:(lia) ltac:(lia)
           ltac:(unfold inputValid; cbn; lia) ltac:(unfold inputValid; cbn; lia)
           ltac:(unfold inEpochHole; lia) ltac:(unfold inEpochHole; lia)
           (fun _ => eq_refl) (fun _ => eq_refl)
           ltac:(unfold dateBefore; lia)).
Defined.

(** ** The cutover *)



